(** * Harvest gateway, entity resolver and analytics calculators

    A shallow embedding of the data-access and compute core of the Harvest
    MCP server:

    - [Paginate]    : [HarvestClient.autoPaginate]      (src/harvest/client.ts)
    - [RateLimiter] : [HarvestRateLimiter]              (harvest/rate-limiter.ts)
    - [Cache]       : [HarvestCache]                    (harvest/cache.ts)
    - [Gateway]     : [HarvestClient.request]           (src/harvest/client.ts)
    - [Resolver]    : [EntityResolver]                  (entities/entity-resolver.ts)
    - [Analytics]   : the calculators of src/compute
    - [Budget]      : [BudgetPerformanceCalculator]     (compute/budget-performance.ts)
    - [Rates]       : [RatesService]                    (rates/rates-service.ts)

    Conventions.  JavaScript numbers that hold counters, page numbers and
    millisecond timestamps are integers ([Z]); hours, rates, money and
    percentages are exact rationals ([Q]) in place of IEEE doubles.
    [Date.now()] is never implicit: every clock read is an argument or a
    field of an explicit world.  Exceptions are a sum type. *)

From Stdlib Require Import ZArith QArith Qround List String Ascii Bool Lia.
From Stdlib Require Import Permutation Sorted.
From Stdlib Require OrderedTypeEx DecimalString.
From Stdlib Require Import Lqa.
Import ListNotations.

Local Open Scope string_scope.
Local Open Scope list_scope.
Local Open Scope Z_scope.

(* ================================================================== *)
(** * Auto-pagination *)
(* ================================================================== *)

Module Paginate.

Section AutoPaginate.

(** [T] is the item type, [Err] what a rejected page fetch throws, [St]
    the state the endpoint closure and the progress callback act on (the
    client's cache, limiter and counters), [P] the caller's base
    [ListParams], [M] the [_meta] object. *)
Variables T Err St P M : Type.

(** A paginated response body.  [arrays] lists the array-valued
    properties of the response object in [Object.keys] order; the other
    properties the loop reads are fields of their own. *)
Record PaginatedResponse : Type := {
  arrays : list (string * list T);
  total_entries : Z;
  total_pages : Z;
  next_page : option Z            (* [None] is JavaScript's [null] *)
}.

(** [AutoPaginateOptions]; a missing property takes the default of the
    destructuring pattern [{ maxPages = 10, perPage = 100, onPage }]. *)
Record AutoPaginateOptions : Type := {
  opt_maxPages : option Z;
  opt_perPage : option Z;
  opt_onPage : option (Z -> Z -> St -> St)
}.

Definition defaultOptions : AutoPaginateOptions :=
  {| opt_maxPages := None; opt_perPage := None; opt_onPage := None |}.

Record PaginateResult : Type := {
  items : list T;
  res_total_entries : Z;
  pages_fetched : Z;
  _meta : M
}.

(** The endpoint closure, called with [{ ...params, page, per_page }]. *)
Variable endpoint : P -> Z -> Z -> St -> (Err + PaginatedResponse) * St.
Variable resetApiCallCount : St -> St.
Variable buildMeta : bool -> St -> M.

(** [Object.keys(responseObj).find(key => Array.isArray(responseObj[key])
    && key !== '_meta')], then the array under that key. *)
Definition itemsOf (response : PaginatedResponse) : list T :=
  match find (fun kv => negb (String.eqb (fst kv) "_meta")) (arrays response) with
  | Some kv => snd kv
  | None => []
  end.

(** The variables of the [while] loop. *)
Record LoopState : Type := {
  page : Z;
  totalEntries : Z;
  totalPages : Z;
  allItems : list T;
  world : St
}.

Definition guard (maxPages : Z) (s : LoopState) : bool :=
  (page s <=? maxPages) && (page s <=? totalPages s).

Definition callOnPage (onPage : option (Z -> Z -> St -> St))
    (pg tp : Z) (st : St) : St :=
  match onPage with
  | Some f => f pg tp st
  | None => st
  end.

(** What one iteration of the body does once the guard has passed. *)
Inductive Step : Type :=
| Thrown (e : Err) (st : St)       (* the awaited fetch rejected *)
| Break (s : LoopState)           (* [next_page === null] *)
| Continue (s : LoopState).       (* [page++] *)

Definition body (params : P) (perPage : Z)
    (onPage : option (Z -> Z -> St -> St)) (s : LoopState) : Step :=
  match endpoint params (page s) perPage (world s) with
  | (inl e, st1) => Thrown e st1
  | (inr response, st1) =>
      let s' := {| page := page s;
                   totalEntries := total_entries response;
                   totalPages := total_pages response;
                   allItems := allItems s ++ itemsOf response;
                   world := callOnPage onPage (page s) (total_pages response) st1 |} in
      match next_page response with
      | None => Break s'
      | Some _ =>
          Continue {| page := page s' + 1;
                      totalEntries := totalEntries s';
                      totalPages := totalPages s';
                      allItems := allItems s';
                      world := world s' |}
      end
  end.

(** The loop; [None] only when [fuel] runs out. *)
Fixpoint loop (fuel : nat) (params : P) (maxPages perPage : Z)
    (onPage : option (Z -> Z -> St -> St)) (s : LoopState)
    : option ((Err + LoopState) * St) :=
  match fuel with
  | O => None
  | S fuel' =>
      if guard maxPages s then
        match body params perPage onPage s with
        | Thrown e st => Some (inl e, st)
        | Break s' => Some (inr s', world s')
        | Continue s' => loop fuel' params maxPages perPage onPage s'
        end
      else Some (inr s, world s)
  end.

Definition initial (st : St) : LoopState :=
  {| page := 1; totalEntries := 0; totalPages := 1; allItems := [];
     world := resetApiCallCount st |}.

Definition maxPagesOf (o : AutoPaginateOptions) : Z :=
  match opt_maxPages o with Some n => n | None => 10 end.

Definition perPageOf (o : AutoPaginateOptions) : Z :=
  match opt_perPage o with Some n => n | None => 100 end.

Definition finish (r : (Err + LoopState) * St) : (Err + PaginateResult) * St :=
  match r with
  | (inl e, st) => (inl e, st)
  | (inr s, st) =>
      (inr {| items := allItems s;
              res_total_entries := totalEntries s;
              pages_fetched := page s;
              _meta := buildMeta false st |}, st)
  end.

(** [autoPaginate(endpoint, params, options)].  The page counter starts
    at 1 and grows by one per iteration while it is at most [maxPages],
    so [maxPages] iterations and one last guard test bound the loop. *)
Definition autoPaginate (params : P) (options : AutoPaginateOptions) (st : St)
    : option ((Err + PaginateResult) * St) :=
  let maxPages := maxPagesOf options in
  option_map finish
    (loop (S (Z.to_nat maxPages)) params maxPages (perPageOf options)
          (opt_onPage options) (initial st)).

(** The loop states an execution passes through: the initial one, and
    the one after every iteration that ended in [page++]. *)
Inductive Reached (params : P) (options : AutoPaginateOptions) (st : St)
    : LoopState -> Prop :=
| Reached_initial : Reached params options st (initial st)
| Reached_next : forall s s',
    Reached params options st s ->
    guard (maxPagesOf options) s = true ->
    body params (perPageOf options) (opt_onPage options) s = Continue s' ->
    Reached params options st s'.

End AutoPaginate.

Arguments arrays {T} _.
Arguments total_entries {T} _.
Arguments total_pages {T} _.
Arguments next_page {T} _.
Arguments opt_maxPages {St} _.
Arguments opt_perPage {St} _.
Arguments opt_onPage {St} _.
Arguments defaultOptions {St}.
Arguments items {T M} _.
Arguments res_total_entries {T M} _.
Arguments pages_fetched {T M} _.
Arguments _meta {T M} _.
Arguments itemsOf {T} response.
Arguments page {T St} _.
Arguments totalEntries {T St} _.
Arguments totalPages {T St} _.
Arguments allItems {T St} _.
Arguments world {T St} _.
Arguments guard {T St} maxPages s.
Arguments Thrown {T Err St} e st.
Arguments Break {T Err St} s.
Arguments Continue {T Err St} s.
Arguments body {T Err St P} endpoint params perPage onPage s.
Arguments loop {T Err St P} endpoint fuel params maxPages perPage onPage s.
Arguments initial {T St} resetApiCallCount st.
Arguments maxPagesOf {St} o.
Arguments perPageOf {St} o.
Arguments autoPaginate {T Err St P M} endpoint resetApiCallCount buildMeta
  params options st.
Arguments Reached {T Err St P} endpoint resetApiCallCount params options st _.

(** A source of three pages of 100, 100 and 50 items: every page reports
    [total_entries = 250] and [total_pages = 3], and [next_page] is 2, 3
    and [null].  The source may keep state of its own; what it answers for
    a page does not depend on it. *)
Definition ThreePageSource {T Err St P : Type}
    (endpoint : P -> Z -> Z -> St -> (Err + PaginatedResponse T) * St)
    (params : P) (r1 r2 r3 : PaginatedResponse T) : Prop :=
  (forall st, fst (endpoint params 1 100 st) = inr r1) /\
  (forall st, fst (endpoint params 2 100 st) = inr r2) /\
  (forall st, fst (endpoint params 3 100 st) = inr r3) /\
  (total_entries r1 = 250 /\ total_entries r2 = 250 /\ total_entries r3 = 250) /\
  (total_pages r1 = 3 /\ total_pages r2 = 3 /\ total_pages r3 = 3) /\
  (next_page r1 = Some 2 /\ next_page r2 = Some 3 /\ next_page r3 = None) /\
  (List.length (itemsOf r1) = 100%nat /\ List.length (itemsOf r2) = 100%nat /\
   List.length (itemsOf r3) = 50%nat).

(** A fake upstream for the examples: entry number [i] of the collection
    is the integer [i]; the state counts the calls. *)
Definition fakePage (perPage total pg : Z) : PaginatedResponse Z :=
  let pages := (total + perPage - 1) / perPage in
  let start := (pg - 1) * perPage in
  let n := Z.min perPage (total - start) in
  {| arrays := [("time_entries",
                 map (fun k => start + Z.of_nat k) (seq 1 (Z.to_nat n)))];
     total_entries := total;
     total_pages := pages;
     next_page := if pg <? pages then Some (pg + 1) else None |}.

Definition fakeSource (total : Z) (_ : unit) (pg perPage : Z) (calls : nat)
    : (string + PaginatedResponse Z) * nat :=
  (inr (fakePage perPage total pg), S calls).

(** The same upstream with page [bad] answering an error. *)
Definition flakySource (total bad : Z) (_ : unit) (pg perPage : Z) (calls : nat)
    : (string + PaginatedResponse Z) * nat :=
  if pg =? bad then (inl "Harvest API error: 500", S calls)
  else (inr (fakePage perPage total pg), S calls).

Definition maxPages2 : AutoPaginateOptions nat :=
  {| opt_maxPages := Some 2; opt_perPage := None; opt_onPage := None |}.

End Paginate.

(* ================================================================== *)
(** * Sliding-window rate limiter *)
(* ================================================================== *)

Module RateLimiter.

Record RateLimitConfig : Type := {
  maxRequests : Z;          (* max requests in window *)
  windowMs : Z;             (* window size in milliseconds *)
  warningThreshold : Q      (* start throttling at this share of the limit *)
}.

Definition DEFAULT_CONFIG : RateLimitConfig :=
  {| maxRequests := 100; windowMs := 15000; warningThreshold := 8 # 10 |}.

(** [Partial<RateLimitConfig>] and the spread
    [{ ...DEFAULT_CONFIG, ...config }]. *)
Record PartialConfig : Type := {
  p_maxRequests : option Z;
  p_windowMs : option Z;
  p_warningThreshold : option Q
}.

Definition mergeConfig (c : PartialConfig) : RateLimitConfig :=
  {| maxRequests :=
       match p_maxRequests c with Some v => v | None => maxRequests DEFAULT_CONFIG end;
     windowMs :=
       match p_windowMs c with Some v => v | None => windowMs DEFAULT_CONFIG end;
     warningThreshold :=
       match p_warningThreshold c with
       | Some v => v
       | None => warningThreshold DEFAULT_CONFIG
       end |}.

Record HarvestRateLimiter : Type := {
  config : RateLimitConfig;
  requestTimestamps : list Z;
  retryAfterMs : Z
}.

Definition create (c : PartialConfig) : HarvestRateLimiter :=
  {| config := mergeConfig c; requestTimestamps := []; retryAfterMs := 0 |}.

Record RateLimitStatus : Type := {
  remaining : Z;
  total : Z;
  resetMs : Z;
  isThrottled : bool
}.

(** A returned delay: JavaScript's [Math.min()] of no arguments is
    [Infinity], which the at-limit branch can pass on. *)
Inductive Wait : Type :=
| Finite (ms : Z)
| Infinite.

(** [Math.min(...timestamps)]; [None] stands for [Infinity]. *)
Fixpoint minimum (l : list Z) : option Z :=
  match l with
  | [] => None
  | t :: rest =>
      match minimum rest with
      | None => Some t
      | Some m => Some (Z.min t m)
      end
  end.

(** [cleanOldTimestamps], with the value [now] its [Date.now()] returns. *)
Definition cleanOldTimestamps (now : Z) (l : HarvestRateLimiter)
    : HarvestRateLimiter :=
  let cutoff := now - windowMs (config l) in
  {| config := config l;
     requestTimestamps := filter (fun ts => cutoff <? ts) (requestTimestamps l);
     retryAfterMs := retryAfterMs l |}.

(** [count >= maxRequests * warningThreshold]. *)
Definition approaching (c : RateLimitConfig) (count : Z) : bool :=
  Qle_bool (inject_Z (maxRequests c) * warningThreshold c) (inject_Z count).

(** [getStatus]; [now1] is the clock read of the pruning, [now2] the one
    of the body. *)
Definition getStatus (now1 now2 : Z) (l : HarvestRateLimiter)
    : RateLimitStatus * HarvestRateLimiter :=
  let l1 := cleanOldTimestamps now1 l in
  let c := config l1 in
  let count := Z.of_nat (List.length (requestTimestamps l1)) in
  ({| remaining := Z.max 0 (maxRequests c - count);
      total := maxRequests c;
      resetMs :=
        match minimum (requestTimestamps l1) with
        | Some oldestTimestamp => Z.max 0 ((oldestTimestamp + windowMs c) - now2)
        | None => 0
        end;
      isThrottled := (now2 <? retryAfterMs l1) || approaching c count |}, l1).

(** [acquirePermit]: the milliseconds to wait before sending, and the
    pruned limiter.  [now1] is the clock read of [cleanOldTimestamps],
    [now2] the read [const now = Date.now()] that follows it. *)
Definition acquirePermit (now1 now2 : Z) (l : HarvestRateLimiter)
    : Wait * HarvestRateLimiter :=
  let l1 := cleanOldTimestamps now1 l in
  let c := config l1 in
  if now2 <? retryAfterMs l1 then (Finite (retryAfterMs l1 - now2), l1)
  else
    let count := Z.of_nat (List.length (requestTimestamps l1)) in
    if maxRequests c <=? count then
      match minimum (requestTimestamps l1) with
      | Some oldestTimestamp =>
          (Finite (Z.max 0 ((oldestTimestamp + windowMs c) - now2)), l1)
      | None => (Infinite, l1)
      end
    else if approaching c count then
      let remaining := maxRequests c - count in
      let delayMs :=
        Qfloor (inject_Z (windowMs c) / inject_Z remaining / inject_Z 2) in
      (Finite (Z.min delayMs 500), l1)
    else (Finite 0, l1).

Definition recordRequest (now : Z) (l : HarvestRateLimiter) : HarvestRateLimiter :=
  {| config := config l;
     requestTimestamps := requestTimestamps l ++ [now];
     retryAfterMs := retryAfterMs l |}.

Definition handleRateLimit (now retryAfterSeconds : Z) (l : HarvestRateLimiter)
    : HarvestRateLimiter :=
  {| config := config l;
     requestTimestamps := requestTimestamps l;
     retryAfterMs := now + retryAfterSeconds * 1000 |}.

Definition reset (l : HarvestRateLimiter) : HarvestRateLimiter :=
  {| config := config l; requestTimestamps := []; retryAfterMs := 0 |}.

(** [recordRequest] called once at each of the given clock values. *)
Definition recordAll (times : list Z) (l : HarvestRateLimiter) : HarvestRateLimiter :=
  fold_left (fun acc t => recordRequest t acc) times l.

End RateLimiter.

(* ================================================================== *)
(** * Response cache *)
(* ================================================================== *)

Module Cache.

(** The values a query parameter can take
    ([string | number | boolean | undefined]). *)
Inductive ParamValue : Type :=
| PString (s : string)
| PNumber (n : Z)
| PBool (b : bool)
| PUndefined.

(** A params object, as [Object.entries] lists it: its own properties in
    property order, every key once. *)
Definition Params : Type := list (string * ParamValue).

(** [s.includes(pat)]. *)
Fixpoint includes (pat s : string) : bool :=
  String.prefix pat s ||
  match s with
  | EmptyString => false
  | String _ rest => includes pat rest
  end.

Section KeyGeneration.

(** Functions of the host: [String.prototype.localeCompare] (negative,
    zero or positive), [JSON.stringify] on an array of entries, and the
    hexadecimal SHA-256 digest of node:crypto. *)
Variable localeCompare : string -> string -> Z.
Variable JSON_stringify : Params -> string.
Variable sha256_hex : string -> string.

(** [entries.sort(([a], [b]) => a.localeCompare(b))].  [Array.prototype.sort]
    is stable; an insertion sort that moves an entry only past entries
    that compare strictly smaller gives the same array for a comparator
    that is an order. *)
Fixpoint insertEntry (e : string * ParamValue) (sorted : Params) : Params :=
  match sorted with
  | [] => [e]
  | e' :: rest =>
      if 0 <? localeCompare (fst e) (fst e') then e' :: insertEntry e rest
      else e :: e' :: rest
  end.

Definition sortEntries (entries : Params) : Params :=
  fold_right insertEntry [] entries.

(** The order the sort puts entries in. *)
Definition keyLe (e1 e2 : string * ParamValue) : Prop :=
  localeCompare (fst e1) (fst e2) <= 0.

(** [HarvestCache.generateKey(path, params)]; [None] is a call without
    params. *)
Definition generateKey (path : string) (params : option Params) : string :=
  let normalizedParams :=
    match params with
    | Some p => JSON_stringify (sortEntries p)
    | None => ""
    end in
  let hash := substring 0 12 (sha256_hex (path ++ normalizedParams)) in
  path ++ ":" ++ hash.

End KeyGeneration.

Record CacheConfig : Type := {
  maxSize : Z;      (* maximum number of entries *)
  ttlMs : Z         (* time to live in milliseconds *)
}.

Definition DEFAULT_CONFIG : CacheConfig := {| maxSize := 500; ttlMs := 60000 |}.

Record CacheStats : Type := { hits : Z; misses : Z; size : Z }.

Section Store.

Variable D : Type.     (* response bodies *)

Record CachedResponse : Type := {
  data : D;
  timestamp : Z;
  cacheKey : string
}.

(** Modelled from the spec: the backing store of the lru-cache package,
    which is not under src/.  It holds at most [lru_max] entries, most
    recently used first, each with the time it was stored; an entry is a
    hit while [now - start < ttl]; a stale entry met by [get] is dropped;
    on overflow the least recently used entry is evicted; [keys] lists
    every stored key. *)
Record LRUCache : Type := {
  lru_max : Z;
  lru_ttl : Z;
  lru_slots : list (string * CachedResponse * Z)
}.

Definition slotKey (s : string * CachedResponse * Z) : string := fst (fst s).
Definition slotValue (s : string * CachedResponse * Z) : CachedResponse := snd (fst s).
Definition slotStart (s : string * CachedResponse * Z) : Z := snd s.

Definition lru_new (max ttl : Z) : LRUCache :=
  {| lru_max := max; lru_ttl := ttl; lru_slots := [] |}.

Definition lru_with (c : LRUCache) (slots : list (string * CachedResponse * Z))
    : LRUCache :=
  {| lru_max := lru_max c; lru_ttl := lru_ttl c; lru_slots := slots |}.

Definition lru_find (key : string) (c : LRUCache)
    : option (string * CachedResponse * Z) :=
  find (fun s => String.eqb (slotKey s) key) (lru_slots c).

Definition lru_without (key : string) (c : LRUCache)
    : list (string * CachedResponse * Z) :=
  filter (fun s => negb (String.eqb (slotKey s) key)) (lru_slots c).

Definition lru_fresh (now : Z) (c : LRUCache) (s : string * CachedResponse * Z)
    : bool :=
  now - slotStart s <? lru_ttl c.

Definition lru_get (now : Z) (key : string) (c : LRUCache)
    : option CachedResponse * LRUCache :=
  match lru_find key c with
  | None => (None, c)
  | Some s =>
      if lru_fresh now c s
      then (Some (slotValue s), lru_with c (s :: lru_without key c))
      else (None, lru_with c (lru_without key c))
  end.

Definition lru_has (now : Z) (key : string) (c : LRUCache) : bool :=
  match lru_find key c with
  | None => false
  | Some s => lru_fresh now c s
  end.

Definition lru_set (now : Z) (key : string) (v : CachedResponse) (c : LRUCache)
    : LRUCache :=
  lru_with c (firstn (Z.to_nat (lru_max c)) ((key, v, now) :: lru_without key c)).

Definition lru_delete (key : string) (c : LRUCache) : LRUCache :=
  lru_with c (lru_without key c).

Definition lru_keys (c : LRUCache) : list string := map slotKey (lru_slots c).

Definition lru_size (c : LRUCache) : Z := Z.of_nat (List.length (lru_slots c)).

(** The [HarvestCache] object. *)
Record HarvestCache : Type := {
  cache : LRUCache;
  config : CacheConfig;
  stats : CacheStats
}.

Definition create (c : CacheConfig) : HarvestCache :=
  {| cache := lru_new (maxSize c) (ttlMs c);
     config := c;
     stats := {| hits := 0; misses := 0; size := 0 |} |}.

Definition get (now : Z) (key : string) (h : HarvestCache)
    : option CachedResponse * HarvestCache :=
  let (entry, c) := lru_get now key (cache h) in
  let st := stats h in
  match entry with
  | Some e =>
      (Some e, {| cache := c; config := config h;
                  stats := {| hits := hits st + 1; misses := misses st;
                              size := size st |} |})
  | None =>
      (None, {| cache := c; config := config h;
                stats := {| hits := hits st; misses := misses st + 1;
                            size := size st |} |})
  end.

Definition set (now : Z) (key : string) (d : D) (h : HarvestCache) : HarvestCache :=
  let entry := {| data := d; timestamp := now; cacheKey := key |} in
  let c := lru_set now key entry (cache h) in
  {| cache := c; config := config h;
     stats := {| hits := hits (stats h); misses := misses (stats h);
                 size := lru_size c |} |}.

Definition has (now : Z) (key : string) (h : HarvestCache) : bool :=
  lru_has now key (cache h).

(** [getAge]: whole seconds since the entry was stored. *)
Definition getAge (now : Z) (key : string) (h : HarvestCache)
    : option Z * HarvestCache :=
  let (entry, c) := lru_get now key (cache h) in
  let h' := {| cache := c; config := config h; stats := stats h |} in
  match entry with
  | None => (None, h')
  | Some e => (Some ((now - timestamp e) / 1000), h')
  end.

(** The argument of [invalidate]: a string, searched with [includes], or
    a regular expression.  The one expression the client builds is
    [new RegExp(`^/${resourceType}`)]; [RegExpAnchored lit] stands for
    [new RegExp("^" + lit)] where [lit] holds no character that is special
    in a regular expression, so that [test] is a prefix test. *)
Inductive Pattern : Type :=
| Substring (s : string)
| RegExpAnchored (lit : string).

Definition matches (p : Pattern) (key : string) : bool :=
  match p with
  | Substring s => includes s key
  | RegExpAnchored lit => String.prefix lit key
  end.

(** [invalidate(pattern)]: the loop over [Array.from(this.cache.keys())],
    returning the count. *)
Definition invalidate (p : Pattern) (h : HarvestCache) : Z * HarvestCache :=
  let step (acc : Z * LRUCache) (key : string) :=
    if matches p key then (fst acc + 1, lru_delete key (snd acc)) else acc in
  let (count, c) := fold_left step (lru_keys (cache h)) (0, cache h) in
  (count, {| cache := c; config := config h;
             stats := {| hits := hits (stats h); misses := misses (stats h);
                         size := lru_size c |} |}).

Definition clear (h : HarvestCache) : HarvestCache :=
  {| cache := lru_with (cache h) []; config := config h;
     stats := {| hits := hits (stats h); misses := misses (stats h); size := 0 |} |}.

Definition getStats (h : HarvestCache) : CacheStats :=
  {| hits := hits (stats h); misses := misses (stats h);
     size := lru_size (cache h) |}.

Definition getTtlMs (h : HarvestCache) : Z := ttlMs (config h).

(** The keys the store holds, in storage order. *)
Definition storedKeys (h : HarvestCache) : list string := lru_keys (cache h).

End Store.

Arguments data {D} _.
Arguments timestamp {D} _.
Arguments cacheKey {D} _.
Arguments lru_max {D} _.
Arguments lru_ttl {D} _.
Arguments lru_slots {D} _.
Arguments slotKey {D} s.
Arguments slotValue {D} s.
Arguments slotStart {D} s.
Arguments lru_new {D} max ttl.
Arguments lru_with {D} c slots.
Arguments lru_find {D} key c.
Arguments lru_without {D} key c.
Arguments lru_fresh {D} now c s.
Arguments lru_get {D} now key c.
Arguments lru_has {D} now key c.
Arguments lru_set {D} now key v c.
Arguments lru_delete {D} key c.
Arguments lru_keys {D} c.
Arguments lru_size {D} c.
Arguments cache {D} _.
Arguments config {D} _.
Arguments stats {D} _.
Arguments create {D} c.
Arguments get {D} now key h.
Arguments set {D} now key d h.
Arguments has {D} now key h.
Arguments getAge {D} now key h.
Arguments invalidate {D} p h.
Arguments clear {D} h.
Arguments getStats {D} h.
Arguments getTtlMs {D} h.
Arguments storedKeys {D} h.

(** Stand-ins for the host functions in the examples: comparison by
    character code, a digest that pads or cuts its input to 64
    characters, and a serialisation that joins the keys. *)
Definition codeUnitCompare (a b : string) : Z :=
  match String.compare a b with
  | Lt => -1
  | Eq => 0
  | Gt => 1
  end.

Definition toyDigest (s : string) : string :=
  substring 0 64
    (s ++ "0000000000000000000000000000000000000000000000000000000000000000").

Fixpoint toyStringify (p : Params) : string :=
  match p with
  | [] => ""
  | (k, PString s) :: rest => k ++ "=" ++ s ++ ";" ++ toyStringify rest
  | (k, PNumber n) :: rest =>
      k ++ "=#" ++ string_of_list_ascii (repeat "1"%char (Z.to_nat n)) ++ ";"
        ++ toyStringify rest
  | (k, PBool true) :: rest => k ++ "=true;" ++ toyStringify rest
  | (k, PBool false) :: rest => k ++ "=false;" ++ toyStringify rest
  | (k, PUndefined) :: rest => k ++ "=null;" ++ toyStringify rest
  end.

End Cache.

(* ================================================================== *)
(** * The gateway's request *)
(* ================================================================== *)

Module Gateway.

(** Decimal text of an integer, as a template literal prints it. *)
Definition showZ (n : Z) : string := DecimalString.NilZero.string_of_int (Z.to_int n).

(** [s.split(sep)] for a one-character separator. *)
Fixpoint splitOn (sep : ascii) (s : string) : list string :=
  match s with
  | EmptyString => [EmptyString]
  | String c rest =>
      if Ascii.eqb c sep then EmptyString :: splitOn sep rest
      else
        match splitOn sep rest with
        | [] => [String c EmptyString]
        | piece :: pieces => String c piece :: pieces
        end
  end.

(** [path.split('/')[1]], kept when it is truthy (defined and not empty). *)
Definition resourceTypeOf (path : string) : option string :=
  match nth_error (splitOn "/"%char path) 1 with
  | Some EmptyString => None
  | Some r => Some r
  | None => None
  end.

(** Letters, digits, underscore and hyphen: characters that stand for
    themselves in a regular expression. *)
Definition isLiteralChar (c : ascii) : bool :=
  let n := N_of_ascii c in
  ((48 <=? n) && (n <=? 57) || (65 <=? n) && (n <=? 90) ||
   (97 <=? n) && (n <=? 122) || (n =? 95) || (n =? 45))%N.

Definition regexLiteral (s : string) : bool :=
  forallb isLiteralChar (list_ascii_of_string s).

(** [path] lies under the top-level resource segment [r]: it is [/r] or
    [/r/...]. *)
Definition underResource (r path : string) : Prop :=
  exists rest,
    path = String "/" (r ++ rest) /\
    (rest = EmptyString \/ exists rest', rest = String "/" rest').

Section Client.

Variable D : Type.     (* parsed JSON bodies *)

Variable localeCompare : string -> string -> Z.
Variable JSON_stringify : Cache.Params -> string.
Variable sha256_hex : string -> string.

(** What [fetch] resolved to.  [retryAfterHeader] is the number in the
    Retry-After header when there is one; [json] is [None] when
    [response.json()] rejects. *)
Record HttpResponse : Type := {
  status : Z;
  statusText : string;
  retryAfterHeader : option Z;
  text : string;
  json : option D
}.

Definition ok (r : HttpResponse) : bool := (200 <=? status r) && (status r <=? 299).

Inductive FetchOutcome : Type :=
| Rejected (message : string)
| Responded (r : HttpResponse).

Inductive Error : Type :=
| HarvestApiError (message : string) (statusCode : Z) (errorBody : option string)
| OtherError (message : string).

Definition isRateLimited (e : Error) : bool :=
  match e with
  | HarvestApiError _ code _ => code =? 429
  | OtherError _ => false
  end.

Definition isUnauthorized (e : Error) : bool :=
  match e with
  | HarvestApiError _ code _ => code =? 401
  | OtherError _ => false
  end.

Record HarvestClient : Type := {
  cache : option (Cache.HarvestCache D);
  rateLimiter : RateLimiter.HarvestRateLimiter;
  apiCallsThisRequest : Z
}.

(** The clock, and what the upstream will answer to the fetches to come,
    each with the milliseconds it takes. *)
Record World : Type := {
  now : Z;
  upstream : list (Z * FetchOutcome)
}.

Record RequestResult : Type := {
  res_data : option D;          (* [None] is [undefined], the 204 case *)
  res_cached : bool;
  res_cacheAge : option Z
}.

Record RequestOptions : Type := {
  skipCache : bool;
  maxRetries : nat
}.

Definition defaultRequestOptions : RequestOptions :=
  {| skipCache := false; maxRetries := 3 |}.

(** [setTimeout] runs a delay outside 1 .. 2^31-1 (Infinity too) as 1. *)
Definition timerDelay (w : RateLimiter.Wait) : Z :=
  match w with
  | RateLimiter.Finite ms => if (1 <=? ms) && (ms <=? 2147483647) then ms else 1
  | RateLimiter.Infinite => 1
  end.

Definition delay (wait : RateLimiter.Wait) (w : World) : World :=
  {| now := now w + timerDelay wait; upstream := upstream w |}.

Definition positive (w : RateLimiter.Wait) : bool :=
  match w with
  | RateLimiter.Finite ms => 0 <? ms
  | RateLimiter.Infinite => true
  end.

Definition fetch (w : World) : FetchOutcome * World :=
  match upstream w with
  | [] => (Rejected "fetch failed", w)
  | (latency, outcome) :: rest =>
      (outcome, {| now := now w + latency; upstream := rest |})
  end.

Definition generateKey : string -> option Cache.Params -> string :=
  Cache.generateKey localeCompare JSON_stringify sha256_hex.

(** The two cache updates after a parsed 2xx response. *)
Definition cacheAfterSuccess (isGetRequest : bool) (path : string)
    (params : option Cache.Params) (skip : bool) (data : D) (nowMs : Z)
    (c : option (Cache.HarvestCache D)) : option (Cache.HarvestCache D) :=
  let c1 :=
    match c with
    | Some h =>
        if isGetRequest && negb skip
        then Some (Cache.set nowMs (generateKey path params) data h)
        else c
    | None => c
    end in
  match c1 with
  | Some h =>
      if negb isGetRequest then
        match resourceTypeOf path with
        | Some resourceType =>
            Some (snd (Cache.invalidate
                         (Cache.RegExpAnchored (String "/" resourceType)) h))
        | None => c1
        end
      else c1
  | None => c1
  end.

(** The retry loop [for (attempt = 0; attempt < maxRetries; attempt++)];
    [attemptsLeft] counts the iterations still allowed. *)
Fixpoint attempts (attemptsLeft : nat) (isGetRequest : bool) (path : string)
    (params : option Cache.Params) (skip : bool) (lastError : option Error)
    (cl : HarvestClient) (w : World)
    : (Error + RequestResult) * HarvestClient * World :=
  match attemptsLeft with
  | O =>
      (inl match lastError with
           | Some e => e
           | None => OtherError "Request failed after retries"
           end, cl, w)
  | S attemptsLeft' =>
      let (waitMs, rl1) := RateLimiter.acquirePermit (now w) (now w) (rateLimiter cl) in
      let w1 := if positive waitMs then delay waitMs w else w in
      let rl2 := RateLimiter.recordRequest (now w1) rl1 in
      let calls := apiCallsThisRequest cl + 1 in
      let (outcome, w2) := fetch w1 in
      match outcome with
      | Rejected message =>
          attempts attemptsLeft' isGetRequest path params skip
            (Some (OtherError message))
            {| cache := cache cl; rateLimiter := rl2; apiCallsThisRequest := calls |}
            w2
      | Responded response =>
          if status response =? 429 then
            let retryAfter :=
              match retryAfterHeader response with Some n => n | None => 15 end in
            let rl3 := RateLimiter.handleRateLimit (now w2) retryAfter rl2 in
            attempts attemptsLeft' isGetRequest path params skip
              (Some (HarvestApiError
                       ("Rate limited, retry after " ++ showZ retryAfter ++ "s")
                       429 None))
              {| cache := cache cl; rateLimiter := rl3; apiCallsThisRequest := calls |}
              (delay (RateLimiter.Finite (retryAfter * 1000)) w2)
          else if negb (ok response) then
            (inl (HarvestApiError
                    ("Harvest API error: " ++ showZ (status response) ++ " "
                       ++ statusText response)
                    (status response) (Some (text response))),
             {| cache := cache cl; rateLimiter := rl2; apiCallsThisRequest := calls |},
             w2)
          else if status response =? 204 then
            (inr {| res_data := None; res_cached := false; res_cacheAge := None |},
             {| cache := cache cl; rateLimiter := rl2; apiCallsThisRequest := calls |},
             w2)
          else
            match json response with
            | None =>
                attempts attemptsLeft' isGetRequest path params skip
                  (Some (OtherError "Unexpected end of JSON input"))
                  {| cache := cache cl; rateLimiter := rl2;
                     apiCallsThisRequest := calls |}
                  w2
            | Some data =>
                (inr {| res_data := Some data; res_cached := false;
                        res_cacheAge := None |},
                 {| cache := cacheAfterSuccess isGetRequest path params skip data
                               (now w2) (cache cl);
                    rateLimiter := rl2; apiCallsThisRequest := calls |},
                 w2)
            end
      end
  end.

(** [request(method, path, body, params, options)].  The body only goes
    into the fetch options and is not a parameter here. *)
Definition request (method path : string) (params : option Cache.Params)
    (options : RequestOptions) (cl : HarvestClient) (w : World)
    : (Error + RequestResult) * HarvestClient * World :=
  let isGetRequest := String.eqb method "GET" in
  let run := attempts (maxRetries options) isGetRequest path params
               (skipCache options) None in
  match cache cl with
  | Some h =>
      if isGetRequest && negb (skipCache options) then
        let cacheKey := generateKey path params in
        let (cached, h1) := Cache.get (now w) cacheKey h in
        match cached with
        | Some entry =>
            let (cacheAge, h2) := Cache.getAge (now w) cacheKey h1 in
            (inr {| res_data := Some (Cache.data entry); res_cached := true;
                    res_cacheAge := cacheAge |},
             {| cache := Some h2; rateLimiter := rateLimiter cl;
                apiCallsThisRequest := apiCallsThisRequest cl |}, w)
        | None =>
            run {| cache := Some h1; rateLimiter := rateLimiter cl;
                   apiCallsThisRequest := apiCallsThisRequest cl |} w
        end
      else run cl w
  | None => run cl w
  end.

(** The entries a client's cache stores, as (key, data) pairs. *)
Definition storedEntries (cl : HarvestClient) : list (string * D) :=
  match cache cl with
  | Some h =>
      map (fun s => (Cache.slotKey s, Cache.data (Cache.slotValue s)))
          (Cache.lru_slots (Cache.cache h))
  | None => []
  end.

End Client.

Arguments status {D} _.
Arguments statusText {D} _.
Arguments retryAfterHeader {D} _.
Arguments text {D} _.
Arguments json {D} _.
Arguments ok {D} r.
Arguments Rejected {D} message.
Arguments Responded {D} r.
Arguments cache {D} _.
Arguments rateLimiter {D} _.
Arguments apiCallsThisRequest {D} _.
Arguments now {D} _.
Arguments upstream {D} _.
Arguments res_data {D} _.
Arguments res_cached {D} _.
Arguments res_cacheAge {D} _.
Arguments delay {D} wait w.
Arguments fetch {D} w.
Arguments cacheAfterSuccess {D} localeCompare JSON_stringify sha256_hex
  isGetRequest path params skip data nowMs c.
Arguments attempts {D} localeCompare JSON_stringify sha256_hex attemptsLeft
  isGetRequest path params skip lastError cl w.
Arguments request {D} localeCompare JSON_stringify sha256_hex method path
  params options cl w.
Arguments storedEntries {D} cl.

(** Example data: a client whose cache holds the answers to two GETs,
    under /time_entries and under /clients, and upstreams that answer a
    mutation with 200 and a body, or with 204. *)
Definition toyKey : string -> option Cache.Params -> string :=
  generateKey Cache.codeUnitCompare Cache.toyStringify Cache.toyDigest.

Definition warmClient : HarvestClient string :=
  {| cache :=
       Some (Cache.set 1000 (toyKey "/clients" None) "clients page"
               (Cache.set 1000 (toyKey "/time_entries" None) "entries page"
                  (Cache.create Cache.DEFAULT_CONFIG)));
     rateLimiter :=
       RateLimiter.create
         {| RateLimiter.p_maxRequests := None; RateLimiter.p_windowMs := None;
            RateLimiter.p_warningThreshold := None |};
     apiCallsThisRequest := 0 |}.

Definition answers (code : Z) (body : option string) : World string :=
  {| now := 2000;
     upstream := [(50, Responded {| status := code; statusText := "";
                                    retryAfterHeader := None; text := "";
                                    json := body |})] |}.

Definition toyRequest (method path : string) (w : World string)
    : (Error + RequestResult string) * HarvestClient string * World string :=
  request Cache.codeUnitCompare Cache.toyStringify Cache.toyDigest
    method path None defaultRequestOptions warmClient w.

End Gateway.

(* ================================================================== *)
(** * Arrays *)
(* ================================================================== *)

Module JsArray.

(** [array.sort(comparator)].  The sort is stable; [after x y] says that
    the comparator puts [x] after [y] ([comparator(x, y) > 0]).  An
    insertion sort that moves an element only past elements it must come
    after gives the array any stable sort gives when the comparator is a
    consistent order. *)
Fixpoint insertBy {A : Type} (after : A -> A -> bool) (x : A) (sorted : list A)
    : list A :=
  match sorted with
  | [] => [x]
  | y :: rest =>
      if after x y then y :: insertBy after x rest else x :: y :: rest
  end.

Definition sortBy {A : Type} (after : A -> A -> bool) (l : list A) : list A :=
  fold_right (insertBy after) [] l.

(** [new Set(array).size]: the number of different values. *)
Definition distinct (l : list Z) : list Z := nodup Z.eq_dec l.

End JsArray.

(* ================================================================== *)
(** * Entity resolver *)
(* ================================================================== *)

Module Resolver.

(** Names are strings of one-byte characters; letters outside ASCII are
    left as they are by [toLowerCase]. *)
Definition toLowerChar (c : ascii) : ascii :=
  let n := N_of_ascii c in
  if ((65 <=? n) && (n <=? 90))%N then ascii_of_N (n + 32) else c.

Definition toLowerCase (s : string) : string :=
  string_of_list_ascii (map toLowerChar (list_ascii_of_string s)).

(** The class [\s] on one-byte characters: tab, line feed, vertical tab,
    form feed, carriage return, space and no-break space. *)
Definition isSpace (c : ascii) : bool :=
  let n := N_of_ascii c in
  ((9 <=? n) && (n <=? 13) || (n =? 32) || (n =? 160))%N.

Fixpoint dropSpaces (l : list ascii) : list ascii :=
  match l with
  | c :: rest => if isSpace c then dropSpaces rest else l
  | [] => []
  end.

Definition trimChars (l : list ascii) : list ascii :=
  rev (dropSpaces (rev (dropSpaces l))).

Definition trim (s : string) : string :=
  string_of_list_ascii (trimChars (list_ascii_of_string s)).

Fixpoint startsWith (p l : list ascii) : bool :=
  match p, l with
  | [], _ => true
  | a :: p', b :: l' => Ascii.eqb a b && startsWith p' l'
  | _ :: _, [] => false
  end.

(** The alternatives of the patterns in [COMPANY_SUFFIXES], each pattern
    being [/\s+(alt1|alt2|...)$/i]; [inc\.?] is the two alternatives
    [inc.] and [inc]. *)
Definition COMPANY_SUFFIXES : list (list string) :=
  [ ["inc."; "inc"; "incorporated"];
    ["llc"; "l.l.c."];
    ["ltd."; "ltd"; "limited"];
    ["corp."; "corp"; "corporation"];
    ["co."; "co"; "company"];
    ["plc"];
    ["gmbh"];
    ["ag"] ].

(** [reversed] is the text read backwards.  The pattern matches when the
    text ends with the alternative (letters compared without case) and at
    least one space character stands before it; the match then begins
    where that run of spaces begins. *)
Definition matchSuffix (alternative : string) (reversed : list ascii)
    : option (list ascii) :=
  let alt := rev (list_ascii_of_string alternative) in
  if startsWith alt (map toLowerChar reversed) then
    match skipn (List.length alt) reversed with
    | c :: before =>
        if isSpace c then Some (dropSpaces before) else None
    | [] => None
    end
  else None.

Fixpoint replaceSuffix (alternatives : list string) (reversed : list ascii)
    : list ascii :=
  match alternatives with
  | [] => reversed
  | alt :: rest =>
      match matchSuffix alt reversed with
      | Some before => before
      | None => replaceSuffix rest reversed
      end
  end.

(** [text.replace(suffix, '')] for one pattern of [COMPANY_SUFFIXES]. *)
Definition stripSuffix (alternatives : list string) (s : string) : string :=
  string_of_list_ascii (rev (replaceSuffix alternatives (rev (list_ascii_of_string s)))).

(** [replace(/\s+/g, ' ')]: every run of space characters becomes one
    space; [inRun] tells that the character before was a space. *)
Fixpoint collapseSpaces (inRun : bool) (l : list ascii) : list ascii :=
  match l with
  | [] => []
  | c :: rest =>
      if isSpace c then
        if inRun then collapseSpaces true rest
        else " "%char :: collapseSpaces true rest
      else c :: collapseSpaces false rest
  end.

(** Full stop, comma, apostrophe and double quote: the class that the
    last [replace] of [normalize] removes everywhere. *)
Definition isPunctuation (c : ascii) : bool :=
  let n := N_of_ascii c in
  ((n =? 46) || (n =? 44) || (n =? 39) || (n =? 34))%N.

Definition removePunctuation (l : list ascii) : list ascii :=
  filter (fun c => negb (isPunctuation c)) l.

(** [normalize(text)]. *)
Definition normalize (text : string) : string :=
  let lowered := trim (toLowerCase text) in
  let stripped := fold_left (fun acc alts => stripSuffix alts acc) COMPANY_SUFFIXES lowered in
  let collapsed := trimChars (collapseSpaces false (list_ascii_of_string stripped)) in
  string_of_list_ascii (removePunctuation collapsed).

(** One row of the matrix of [levenshteinDistance] after the first
    column: [prev] is the row above from the column to the left on,
    [left] the cell to the left. *)
Fixpoint fillRow (bi : ascii) (a : list ascii) (prev : list Z) (left : Z) : list Z :=
  match a, prev with
  | aj :: a', diag :: ((up :: _) as prev') =>
      let cell :=
        if Ascii.eqb bi aj then diag
        else Z.min (Z.min (diag + 1) (left + 1)) (up + 1) in
      cell :: fillRow bi a' prev' cell
  | _, _ => []
  end.

Fixpoint fillRows (b a : list ascii) (prev : list Z) (i : Z) : list Z :=
  match b with
  | [] => prev
  | bi :: b' => fillRows b' a (i :: fillRow bi a prev i) (i + 1)
  end.

(** [levenshteinDistance(a, b)]: the last cell of the last row. *)
Definition levenshteinDistance (a b : string) : Z :=
  let la := list_ascii_of_string a in
  let lb := list_ascii_of_string b in
  last (fillRows lb la (map Z.of_nat (seq 0 (S (List.length la)))) 1) 0.

Inductive MatchType : Type := exact | normalized | fuzzy | partial.

Definition strlen (s : string) : Z := Z.of_nat (String.length s).

(** [calculateSimilarity(query, target)]: score and match type. *)
Definition calculateSimilarity (query target : string) : Q * MatchType :=
  let normalizedQuery := normalize query in
  let normalizedTarget := normalize target in
  if String.eqb (toLowerCase query) (toLowerCase target) then (1%Q, exact)
  else if String.eqb normalizedQuery normalizedTarget then (95 # 100, normalized)
  else if Cache.includes normalizedQuery normalizedTarget
          || Cache.includes normalizedTarget normalizedQuery then
    let ratio :=
      (inject_Z (Z.min (strlen normalizedQuery) (strlen normalizedTarget)) /
       inject_Z (Z.max (strlen normalizedQuery) (strlen normalizedTarget)))%Q in
    (((7 # 10) + ratio * (2 # 10))%Q, partial)
  else
    let distance := levenshteinDistance normalizedQuery normalizedTarget in
    let maxLength := Z.max (strlen normalizedQuery) (strlen normalizedTarget) in
    let score := (1 - inject_Z distance / inject_Z maxLength)%Q in
    ((if Qle_bool 0 score then score else 0%Q), fuzzy).

Inductive EntityType : Type := client | project | user | task.

Definition EntityType_eqb (a b : EntityType) : bool :=
  match a, b with
  | client, client | project, project | user, user | task, task => true
  | _, _ => false
  end.

Record ResolvedEntity : Type := {
  type : EntityType;
  id : Z;
  name : string;
  confidence : Q;
  match_type : MatchType;
  parent_id : option Z;
  parent_name : option string
}.

Record EntityResolutionParams : Type := {
  query : string;
  types : option (list EntityType);
  min_confidence : option Q;
  limit : option Z
}.

Record EntityResolutionResponse : Type := {
  res_query : string;
  results : list ResolvedEntity;
  total_matches : Z;
  cached : bool;
  search_types : list EntityType
}.

Record ProjectEntry : Type := {
  p_id : Z;
  p_name : string;
  p_client_id : Z;
  p_client_name : string
}.

Record CachedEntityList : Type := {
  clients : list (Z * string);
  projects : list ProjectEntry;
  users : list (Z * string);
  tasks : list (Z * string);
  fetched_at : Z
}.

(** What the four list calls of [refreshCache] answered. *)
Record Directory : Type := {
  d_clients : list (Z * string);                 (* id, name *)
  d_projects : list ProjectEntry;
  d_users : list (Z * string * string);          (* id, first_name, last_name *)
  d_tasks : list (Z * string)
}.

Record EntityResolver : Type := {
  cache : option CachedEntityList;
  cacheMaxAge : Z
}.

(** The constructor: [if (cacheMaxAgeMs) this.cacheMaxAge = cacheMaxAgeMs],
    so 0 and a missing argument keep the five minutes. *)
Definition create (cacheMaxAgeMs : option Z) : EntityResolver :=
  {| cache := None;
     cacheMaxAge :=
       match cacheMaxAgeMs with
       | Some ms => if ms =? 0 then 5 * 60 * 1000 else ms
       | None => 5 * 60 * 1000
       end |}.

(** [refreshCache] once the list calls have answered; [now] is the
    clock read of [new Date()]. *)
Definition refreshCache (now : Z) (d : Directory) (r : EntityResolver)
    : EntityResolver :=
  {| cache :=
       Some {| clients := d_clients d;
               projects := d_projects d;
               users := map (fun u => (fst (fst u), (snd (fst u) ++ " " ++ snd u)%string))
                            (d_users d);
               tasks := d_tasks d;
               fetched_at := now |};
     cacheMaxAge := cacheMaxAge r |}.

Definition isCacheValid (now : Z) (r : EntityResolver) : bool :=
  match cache r with
  | None => false
  | Some c => now - fetched_at c <? cacheMaxAge r
  end.

(** [ensureCache]: [checkedAt] is the clock read of its validity test,
    [fetchedAt] the one of the refresh, [upstream] what the list calls
    answer ([None] when one of them rejects; the call then throws). *)
Definition ensureCache (checkedAt fetchedAt : Z) (upstream : option Directory)
    (r : EntityResolver) : option (CachedEntityList * EntityResolver) :=
  let r' :=
    if isCacheValid checkedAt r then Some r
    else option_map (fun d => refreshCache fetchedAt d r) upstream in
  match r' with
  | Some r1 =>
      match cache r1 with
      | Some c => Some (c, r1)
      | None => None
      end
  | None => None
  end.

Definition includesType (ts : list EntityType) (t : EntityType) : bool :=
  existsb (EntityType_eqb t) ts.

Definition scoreNamed (t : EntityType) (q : string) (minConfidence : Q)
    (entries : list (Z * string)) : list ResolvedEntity :=
  flat_map (fun e =>
              let (score, matchType) := calculateSimilarity q (snd e) in
              if Qle_bool minConfidence score then
                [{| type := t; id := fst e; name := snd e; confidence := score;
                    match_type := matchType; parent_id := None;
                    parent_name := None |}]
              else []) entries.

Definition scoreProjects (q : string) (minConfidence : Q)
    (entries : list ProjectEntry) : list ResolvedEntity :=
  flat_map (fun p =>
              let (projectScore, matchType) := calculateSimilarity q (p_name p) in
              let fullName := (p_client_name p ++ " - " ++ p_name p)%string in
              let fullScore := fst (calculateSimilarity q fullName) in
              let score :=
                if Qle_bool fullScore projectScore then projectScore else fullScore in
              if Qle_bool minConfidence score then
                [{| type := project; id := p_id p; name := p_name p;
                    confidence := score; match_type := matchType;
                    parent_id := Some (p_client_id p);
                    parent_name := Some (p_client_name p) |}]
              else []) entries.

(** The loop that keeps at most [limit] results of each type. *)
Fixpoint limitPerType (limit : Z) (counts : EntityType -> Z)
    (rs : list ResolvedEntity) : list ResolvedEntity :=
  match rs with
  | [] => []
  | r :: rest =>
      if counts (type r) <? limit then
        r :: limitPerType limit
               (fun t => if EntityType_eqb t (type r) then counts t + 1 else counts t)
               rest
      else limitPerType limit counts rest
  end.

(** [resolve(params)].  [recheckedAt] is the clock read of the second
    [isCacheValid], the one that computes [wasCached]. *)
Definition resolve (params : EntityResolutionParams)
    (checkedAt fetchedAt recheckedAt : Z) (upstream : option Directory)
    (r : EntityResolver) : option (EntityResolutionResponse * EntityResolver) :=
  let q := query params in
  let ts := match types params with
            | Some l => l
            | None => [client; project; user; task]
            end in
  let minConfidence := match min_confidence params with Some m => m | None => 5 # 10 end in
  let lim := match limit params with Some n => n | None => 5 end in
  match ensureCache checkedAt fetchedAt upstream r with
  | None => None
  | Some (c, r1) =>
      let wasCached := isCacheValid recheckedAt r1 in
      let found :=
        (if includesType ts client then scoreNamed client q minConfidence (clients c) else [])
        ++ (if includesType ts project then scoreProjects q minConfidence (projects c) else [])
        ++ (if includesType ts user then scoreNamed user q minConfidence (users c) else [])
        ++ (if includesType ts task then scoreNamed task q minConfidence (tasks c) else []) in
      let sorted :=
        JsArray.sortBy (fun a b => negb (Qle_bool (confidence b) (confidence a))) found in
      Some ({| res_query := q;
               results := limitPerType lim (fun _ => 0) sorted;
               total_matches := Z.of_nat (List.length sorted);
               cached := wasCached;
               search_types := ts |}, r1)
  end.

Definition clearCache (r : EntityResolver) : EntityResolver :=
  {| cache := None; cacheMaxAge := cacheMaxAge r |}.

(** Example data. *)
Definition acmeDirectory : Directory :=
  {| d_clients := [(1, "Acme"); (2, "Acme Inc."); (3, "Globex Corporation")];
     d_projects := [];
     d_users := [(7, "Ada", "Lovelace")];
     d_tasks := [(9, "Design")] |}.

Definition acmeQuery : EntityResolutionParams :=
  {| query := "Acme"; types := None; min_confidence := None; limit := None |}.

End Resolver.

(* ================================================================== *)
(** * Analytics: records, dates and grouping *)
(* ================================================================== *)

Module Harvest.

(** [{ id, name }] references of a time entry. *)
Record Ref : Type := { id : Z; name : string }.

(** The fields of a [TimeEntry] the calculators read. *)
Record TimeEntry : Type := {
  entry_id : Z;
  spent_date : string;
  hours : Q;
  rounded_hours : Q;
  is_billed : bool;
  billable : bool;
  billable_rate : option Q;       (* [None] is [null] *)
  cost_rate : option Q;
  user : Ref;
  client : Ref;
  project : Ref;
  task : Ref
}.

Inductive InvoiceState : Type := draft | open | paid | closed.

Record Invoice : Type := {
  invoice_id : Z;
  amount : Q;
  state : InvoiceState;
  invoice_client : Ref
}.

Definition isDraft (i : Invoice) : bool :=
  match state i with draft => true | _ => false end.

End Harvest.

Module Dates.

(** Dates are handled at day resolution, as the number of days since
    1970-01-01, and the process is taken to run in UTC (as on Workers), so
    that the local calendar day of [new Date("YYYY-MM-DD")] is the day
    written. *)
Definition daysFromCivil (y m d : Z) : Z :=
  let y' := if m <=? 2 then y - 1 else y in
  let era := y' / 400 in
  let yoe := y' - era * 400 in
  let mp := if 2 <? m then m - 3 else m + 9 in
  let doy := (153 * mp + 2) / 5 + d - 1 in
  let doe := yoe * 365 + yoe / 4 - yoe / 100 + doy in
  era * 146097 + doe - 719468.

Definition civilFromDays (days : Z) : Z * Z * Z :=
  let z := days + 719468 in
  let era := z / 146097 in
  let doe := z - era * 146097 in
  let yoe := (doe - doe / 1460 + doe / 36524 - doe / 146096) / 365 in
  let doy := doe - (365 * yoe + yoe / 4 - yoe / 100) in
  let mp := (5 * doy + 2) / 153 in
  let d := doy - (153 * mp + 2) / 5 + 1 in
  let m := if mp <? 10 then mp + 3 else mp - 9 in
  (yoe + era * 400 + (if m <=? 2 then 1 else 0), m, d).

Definition digit (c : ascii) : option Z :=
  let n := N_of_ascii c in
  if ((48 <=? n) && (n <=? 57))%N then Some (Z.of_N n - 48) else None.

Fixpoint number (acc : Z) (l : list ascii) : option Z :=
  match l with
  | [] => Some acc
  | c :: rest =>
      match digit c with
      | Some v => number (acc * 10 + v) rest
      | None => None
      end
  end.

(** [new Date(text)] for the form YYYY-MM-DD; [None] is an invalid date. *)
Definition parseDate (text : string) : option Z :=
  match list_ascii_of_string text with
  | [y1; y2; y3; y4; "-"%char; m1; m2; "-"%char; d1; d2] =>
      match number 0 [y1; y2; y3; y4], number 0 [m1; m2], number 0 [d1; d2] with
      | Some y, Some m, Some d =>
          if (1 <=? m) && (m <=? 12) && (1 <=? d) && (d <=? 31)
          then Some (daysFromCivil y m d) else None
      | _, _, _ => None
      end
  | _ => None
  end.

Definition pad (width : nat) (n : Z) : string :=
  let s := Gateway.showZ n in
  (string_of_list_ascii (repeat "0"%char (width - String.length s)) ++ s)%string.

(** [date.toISOString().split('T')[0]]. *)
Definition formatDate (days : Z) : string :=
  let '(y, m, d) := civilFromDays days in
  (pad 4 y ++ "-" ++ pad 2 m ++ "-" ++ pad 2 d)%string.

(** [date.getDay()]: 0 is Sunday; 1970-01-01 was a Thursday. *)
Definition getDay (days : Z) : Z := (days + 4) mod 7.

(** [getWeekStart(dateStr)]: the Monday of the week.  The dates of time
    entries are well formed; on another text the source throws, and the
    text is kept here. *)
Definition getWeekStart (dateStr : string) : string :=
  match parseDate dateStr with
  | Some date =>
      let day := getDay date in
      formatDate (date - day + (if day =? 0 then -6 else 1))
  | None => dateStr
  end.

End Dates.

Module Grouping.
Import Harvest.

(** [Math.round(num * 100) / 100]; [Math.round] rounds half up. *)
Definition round (num : Q) : Q :=
  (inject_Z (Qfloor (num * inject_Z 100 + (1 # 2))) / inject_Z 100)%Q.

(** [x > 0] on numbers. *)
Definition positive (x : Q) : bool := negb (Qle_bool x 0).

(** Sum of a quantity over records, the way a [for] loop with [+=]
    accumulates it from 0. *)
Definition total {A : Type} (f : A -> Q) (l : list A) : Q :=
  fold_left (fun acc x => (acc + f x)%Q) l 0%Q.

Inductive GroupBy : Type := client | project | user | task | date | month | week.

Definition GroupBy_eqb (a b : GroupBy) : bool :=
  match a, b with
  | client, client | project, project | user, user | task, task
  | date, date | month, month | week, week => true
  | _, _ => false
  end.

(** [number | string] *)
Inductive GroupId : Type :=
| NumberId (n : Z)
| StringId (s : string).

Record Grouping : Type := {
  grouping_id : GroupId;
  grouping_name : string;
  grouping_type : GroupBy
}.

(** [getGroupKey(entry, groupBy)]: key, name and id. *)
Definition getGroupKey (entry : TimeEntry) (groupBy : GroupBy)
    : string * string * GroupId :=
  let byRef (prefix : string) (r : Ref) :=
    ((prefix ++ Gateway.showZ (id r))%string, name r, NumberId (id r)) in
  match groupBy with
  | client => byRef "client:" (Harvest.client entry)
  | project => byRef "project:" (Harvest.project entry)
  | user => byRef "user:" (Harvest.user entry)
  | task => byRef "task:" (Harvest.task entry)
  | date =>
      (("date:" ++ spent_date entry)%string, spent_date entry,
       StringId (spent_date entry))
  | week =>
      let weekStart := Dates.getWeekStart (spent_date entry) in
      (("week:" ++ weekStart)%string, ("Week of " ++ weekStart)%string,
       StringId weekStart)
  | month =>
      let m := substring 0 7 (spent_date entry) in
      (("month:" ++ m)%string, m, StringId m)
  end.

Definition keyOf (groupBy : GroupBy) (entry : TimeEntry) : string :=
  fst (fst (getGroupKey entry groupBy)).

(** A value of the [groups] map. *)
Record Group : Type := {
  group_key : string;
  group_name : string;
  group_id : GroupId;
  group_entries : list TimeEntry
}.

(** One turn of the loop that fills the map: a new key is added after
    the keys already there, and the entry joins the entries of its key. *)
Fixpoint addToGroups (groupBy : GroupBy) (entry : TimeEntry) (groups : list Group)
    : list Group :=
  match groups with
  | [] =>
      let '(key, nm, gid) := getGroupKey entry groupBy in
      [{| group_key := key; group_name := nm; group_id := gid;
          group_entries := [entry] |}]
  | g :: rest =>
      if String.eqb (group_key g) (keyOf groupBy entry)
      then {| group_key := group_key g; group_name := group_name g;
              group_id := group_id g;
              group_entries := group_entries g ++ [entry] |} :: rest
      else g :: addToGroups groupBy entry rest
  end.

(** The map after the loop, in iteration order. *)
Definition groupEntries (groupBy : GroupBy) (entries : list TimeEntry) : list Group :=
  fold_left (fun groups entry => addToGroups groupBy entry groups) entries [].

(** A node of a result tree, with metrics of type [M].  [node_key] and
    [node_entries] are the map key and the [groupData.entries] the node
    was computed from; the returned object does not hold them, they are
    kept to state what the tree is made of. *)
Local Unset Elimination Schemes.

Inductive GroupNode (M : Type) : Type :=
  mkNode {
    grouping : Grouping;
    metrics : M;
    children : option (list (GroupNode M));    (* [None] is [undefined] *)
    node_key : string;
    node_entries : list TimeEntry
  }.

Local Set Elimination Schemes.

Arguments mkNode {M} _ _ _ _ _.
Arguments grouping {M} _.
Arguments metrics {M} _.
Arguments children {M} _.
Arguments node_key {M} _.
Arguments node_entries {M} _.

(** A node and everything below it. *)
Fixpoint subnodes {M : Type} (n : GroupNode M) : list (GroupNode M) :=
  n :: match children n with
       | Some cs => flat_map subnodes cs
       | None => []
       end.

Definition groupingOf (groupBy : GroupBy) (g : Group) : Grouping :=
  {| grouping_id := group_id g; grouping_name := group_name g;
     grouping_type := groupBy |}.

(** [a.metrics.x < b.metrics.x], that is [b.metrics.x - a.metrics.x > 0]:
    the comparator of the descending sorts. *)
Definition descending {A : Type} (f : A -> Q) (a b : A) : bool :=
  negb (Qle_bool (f b) (f a)).

(** The grouping primitive the three [groupResults] methods share, with
    what differs between them as parameters: the metrics of a group
    ([metricsOf]), what a group hands down to the grouping of its own
    entries ([handDown], the invoices in the profitability calculator),
    and the metric that sorts siblings ([sortKey]). *)
Fixpoint buildTree {M C : Type} (metricsOf : GroupBy -> C -> Group -> M)
    (handDown : GroupBy -> C -> Group -> C) (sortKey : M -> Q)
    (groupBy : list GroupBy) (context : C) (entries : list TimeEntry)
    : list (GroupNode M) :=
  match groupBy with
  | [] => []
  | primaryGroup :: remainingGroups =>
      JsArray.sortBy (descending (fun n => sortKey (metrics n)))
        (map (fun groupData =>
                mkNode (groupingOf primaryGroup groupData)
                       (metricsOf primaryGroup context groupData)
                       (match remainingGroups with
                        | [] => None
                        | _ :: _ =>
                            Some (buildTree metricsOf handDown sortKey remainingGroups
                                    (handDown primaryGroup context groupData)
                                    (group_entries groupData))
                        end)
                       (group_key groupData) (group_entries groupData))
             (groupEntries primaryGroup entries))
  end.

(** [groups] partition [entries] under the key of [groupBy]: together
    they hold the entries, each as often as it occurs; no two groups have
    the same key; no group is empty, and a group holds entries of its own
    key only. *)
Definition Partitions (groupBy : GroupBy) (groups : list Group)
    (entries : list TimeEntry) : Prop :=
  Permutation (List.concat (map group_entries groups)) entries /\
  NoDup (map group_key groups) /\
  forall g, In g groups ->
            group_entries g <> [] /\
            forall e, In e (group_entries g) -> keyOf groupBy e = group_key g.

(** The children [cs] of a node partition the node's record set. *)
Definition ChildrenPartition {M : Type} (n : GroupNode M) (cs : list (GroupNode M))
    : Prop :=
  Permutation (List.concat (map node_entries cs)) (node_entries n) /\
  NoDup (map node_key cs) /\
  exists groupBy,
    forall c, In c cs ->
              grouping_type (grouping c) = groupBy /\
              node_entries c <> [] /\
              forall e, In e (node_entries c) -> keyOf groupBy e = node_key c.

(** Sum of a quantity over the children of a node. *)
Definition overChildren {M : Type} (f : list TimeEntry -> Q) (cs : list (GroupNode M)) : Q :=
  total (fun c => f (node_entries c)) cs.

End Grouping.

(* ================================================================== *)
(** * Analytics: time aggregation *)
(* ================================================================== *)

Module Aggregation.
Import Grouping.

Record TimeAggregationMetrics : Type := {
  hours : Q;
  rounded_hours : Q;
  billable_hours : Q;
  non_billable_hours : Q;
  entry_count : Z;
  billable_amount : Q
}.

(** The accumulators of the loop of [calculateMetrics]. *)
Record Sums : Type := {
  sum_hours : Q;
  sum_roundedHours : Q;
  sum_billableHours : Q;
  sum_nonBillableHours : Q;
  sum_billableAmount : Q
}.

Definition noSums : Sums :=
  {| sum_hours := 0; sum_roundedHours := 0; sum_billableHours := 0;
     sum_nonBillableHours := 0; sum_billableAmount := 0 |}.

Definition accumulate (s : Sums) (entry : Harvest.TimeEntry) : Sums :=
  let h := (sum_hours s + Harvest.hours entry)%Q in
  let rh := (sum_roundedHours s + Harvest.rounded_hours entry)%Q in
  if Harvest.billable entry then
    let rate := match Harvest.billable_rate entry with Some r => r | None => 0%Q end in
    {| sum_hours := h; sum_roundedHours := rh;
       sum_billableHours := (sum_billableHours s + Harvest.hours entry)%Q;
       sum_nonBillableHours := sum_nonBillableHours s;
       sum_billableAmount := (sum_billableAmount s + Harvest.hours entry * rate)%Q |}
  else
    {| sum_hours := h; sum_roundedHours := rh;
       sum_billableHours := sum_billableHours s;
       sum_nonBillableHours := (sum_nonBillableHours s + Harvest.hours entry)%Q;
       sum_billableAmount := sum_billableAmount s |}.

Definition sums (entries : list Harvest.TimeEntry) : Sums :=
  fold_left accumulate entries noSums.

Definition calculateMetrics (entries : list Harvest.TimeEntry) : TimeAggregationMetrics :=
  let s := sums entries in
  {| hours := round (sum_hours s);
     rounded_hours := round (sum_roundedHours s);
     billable_hours := round (sum_billableHours s);
     non_billable_hours := round (sum_nonBillableHours s);
     entry_count := Z.of_nat (List.length entries);
     billable_amount := round (sum_billableAmount s) |}.

(** [groupResults(entries, groupBy)]. *)
Fixpoint groupResults (groupBy : list GroupBy) (entries : list Harvest.TimeEntry)
    : list (GroupNode TimeAggregationMetrics) :=
  match groupBy with
  | [] => []
  | primaryGroup :: remainingGroups =>
      JsArray.sortBy (descending (fun n => hours (metrics n)))
        (map (fun groupData =>
                mkNode (groupingOf primaryGroup groupData)
                       (calculateMetrics (group_entries groupData))
                       (match remainingGroups with
                        | [] => None
                        | _ :: _ =>
                            Some (groupResults remainingGroups (group_entries groupData))
                        end)
                       (group_key groupData) (group_entries groupData))
             (groupEntries primaryGroup entries))
  end.

Record TimeAggregationResponse : Type := {
  totals : TimeAggregationMetrics;
  grouped_results : list (GroupNode TimeAggregationMetrics);
  entries_analyzed : Z
}.

(** [aggregate(params)] once the time entries are fetched. *)
Definition aggregate (group_by : list GroupBy) (billable_only : option bool)
    (fetched : list Harvest.TimeEntry) : TimeAggregationResponse :=
  let entries :=
    match billable_only with
    | Some true => filter Harvest.billable fetched
    | _ => fetched
    end in
  {| totals := calculateMetrics entries;
     grouped_results := groupResults group_by entries;
     entries_analyzed := Z.of_nat (List.length entries) |}.

End Aggregation.

(* ================================================================== *)
(** * Analytics: utilization *)
(* ================================================================== *)

Module Utilization.
Import Grouping.

Record UtilizationMetrics : Type := {
  total_hours : Q;
  billable_hours : Q;
  non_billable_hours : Q;
  capacity_hours : Q;
  utilization_percent : Q;
  billable_utilization_percent : Q;
  billable_ratio_percent : Q;
  working_days : Z
}.

Definition isWeekend (day : Z) : bool :=
  (Dates.getDay day =? 0) || (Dates.getDay day =? 6).

(** The [while (current <= to)] loop of [calculateWorkingDays]: [left] is
    the number of days from [current] to [to], both included. *)
Fixpoint countDays (left : nat) (current : Z) (excludeWeekends : bool) : Z :=
  match left with
  | O => 0
  | S left' =>
      (if excludeWeekends && isWeekend current then 0 else 1)
      + countDays left' (current + 1) excludeWeekends
  end.

(** [calculateWorkingDays(fromStr, toStr, excludeWeekends)]; with an
    invalid date the loop condition is false at once. *)
Definition calculateWorkingDays (fromStr toStr : string) (excludeWeekends : bool) : Z :=
  match Dates.parseDate fromStr, Dates.parseDate toStr with
  | Some from, Some to => countDays (Z.to_nat (to - from + 1)) from excludeWeekends
  | _, _ => 0
  end.

(** As the spec words it: the days of the inclusive range, without the
    Saturdays and Sundays when weekends are excluded. *)
Definition daysOfRange (from to : Z) : list Z :=
  map (fun k => from + Z.of_nat k) (seq 0 (Z.to_nat (to - from + 1))).

Definition spec_workingDays (from to : Z) (excludeWeekends : bool) : Z :=
  Z.of_nat (List.length
              (filter (fun day => negb (excludeWeekends && isWeekend day))
                      (daysOfRange from to))).

Record Hours : Type := {
  sum_total : Q;
  sum_billable : Q;
  sum_nonBillable : Q
}.

Definition accumulate (s : Hours) (entry : Harvest.TimeEntry) : Hours :=
  if Harvest.billable entry then
    {| sum_total := (sum_total s + Harvest.hours entry)%Q;
       sum_billable := (sum_billable s + Harvest.hours entry)%Q;
       sum_nonBillable := sum_nonBillable s |}
  else
    {| sum_total := (sum_total s + Harvest.hours entry)%Q;
       sum_billable := sum_billable s;
       sum_nonBillable := (sum_nonBillable s + Harvest.hours entry)%Q |}.

Definition sums (entries : list Harvest.TimeEntry) : Hours :=
  fold_left accumulate entries
    {| sum_total := 0; sum_billable := 0; sum_nonBillable := 0 |}.

Definition calculateMetrics (entries : list Harvest.TimeEntry)
    (capacityHours : Q) (workingDays : Z) : UtilizationMetrics :=
  let s := sums entries in
  let utilizationPercent :=
    if positive capacityHours
    then (sum_total s / capacityHours * inject_Z 100)%Q else 0%Q in
  let billableUtilizationPercent :=
    if positive capacityHours
    then (sum_billable s / capacityHours * inject_Z 100)%Q else 0%Q in
  let billableRatioPercent :=
    if positive (sum_total s)
    then (sum_billable s / sum_total s * inject_Z 100)%Q else 0%Q in
  {| total_hours := round (sum_total s);
     billable_hours := round (sum_billable s);
     non_billable_hours := round (sum_nonBillable s);
     capacity_hours := round capacityHours;
     utilization_percent := round utilizationPercent;
     billable_utilization_percent := round billableUtilizationPercent;
     billable_ratio_percent := round billableRatioPercent;
     working_days := workingDays |}.

(** [new Set(entries.map(e => e.user.id)).size] *)
Definition uniqueUsers (entries : list Harvest.TimeEntry) : Z :=
  Z.of_nat (List.length
              (JsArray.distinct (map (fun e => Harvest.id (Harvest.user e)) entries))).

Fixpoint groupResults (groupBy : list GroupBy) (entries : list Harvest.TimeEntry)
    (capacityPerDay : Q) (workingDays : Z) : list (GroupNode UtilizationMetrics) :=
  match groupBy with
  | [] => []
  | primaryGroup :: remainingGroups =>
      JsArray.sortBy (descending (fun n => total_hours (metrics n)))
        (map (fun groupData =>
                let capacityHours :=
                  if GroupBy_eqb primaryGroup user
                  then (inject_Z workingDays * capacityPerDay)%Q
                  else (inject_Z workingDays * capacityPerDay
                        * inject_Z (uniqueUsers (group_entries groupData)))%Q in
                mkNode (groupingOf primaryGroup groupData)
                       (calculateMetrics (group_entries groupData) capacityHours
                          workingDays)
                       (match remainingGroups with
                        | [] => None
                        | _ :: _ =>
                            Some (groupResults remainingGroups
                                    (group_entries groupData) capacityPerDay
                                    workingDays)
                        end)
                       (group_key groupData) (group_entries groupData))
             (groupEntries primaryGroup entries))
  end.

Record UtilizationParams : Type := {
  date_from : string;
  date_to : string;
  user_id : option Z;
  group_by : option (list GroupBy);
  capacity_hours_per_day : option Q;
  exclude_weekends : option bool
}.

Record UtilizationResponse : Type := {
  totals : UtilizationMetrics;
  grouped_results : option (list (GroupNode UtilizationMetrics));
  entries_analyzed : Z;
  users_included : Z
}.

(** [user_id ? 1 : userIdsWithEntries.size]: a missing id and the id 0
    are falsy. *)
Definition activeUsersCount (user_id : option Z) (entries : list Harvest.TimeEntry) : Z :=
  match user_id with
  | Some uid => if uid =? 0 then uniqueUsers entries else 1
  | None => uniqueUsers entries
  end.

(** [calculate(params)] once the time entries are fetched.  The users
    the source fetches as well do not enter the result. *)
Definition calculate (params : UtilizationParams) (entries : list Harvest.TimeEntry)
    : UtilizationResponse :=
  let groupBy := match group_by params with Some g => g | None => [] end in
  let capacityPerDay :=
    match capacity_hours_per_day params with Some c => c | None => 8%Q end in
  let excludeWeekends :=
    match exclude_weekends params with Some b => b | None => true end in
  let workingDays :=
    calculateWorkingDays (date_from params) (date_to params) excludeWeekends in
  let users := activeUsersCount (user_id params) entries in
  let totalCapacity := (inject_Z workingDays * capacityPerDay * inject_Z users)%Q in
  {| totals := calculateMetrics entries totalCapacity workingDays;
     grouped_results :=
       match groupBy with
       | [] => None
       | _ :: _ => Some (groupResults groupBy entries capacityPerDay workingDays)
       end;
     entries_analyzed := Z.of_nat (List.length entries);
     users_included := users |}.

(** Example data: user 7 logs 6 hours on each working day of the week of
    Monday 2024-01-01. *)
Definition sixHours (entryId : Z) (day : string) (isBillable : bool) : Harvest.TimeEntry :=
  {| Harvest.entry_id := entryId; Harvest.spent_date := day;
     Harvest.hours := 6; Harvest.rounded_hours := 6;
     Harvest.is_billed := false; Harvest.billable := isBillable;
     Harvest.billable_rate := Some (100 # 1); Harvest.cost_rate := Some (50 # 1);
     Harvest.user := {| Harvest.id := 7; Harvest.name := "Ada Lovelace" |};
     Harvest.client := {| Harvest.id := 1; Harvest.name := "Acme" |};
     Harvest.project := {| Harvest.id := 11; Harvest.name := "Website" |};
     Harvest.task := {| Harvest.id := 21; Harvest.name := "Design" |} |}.

Definition firstWeek : list Harvest.TimeEntry :=
  [ sixHours 1 "2024-01-01" true; sixHours 2 "2024-01-02" true;
    sixHours 3 "2024-01-03" true; sixHours 4 "2024-01-04" false;
    sixHours 5 "2024-01-05" true ].

Definition firstWeekParams : UtilizationParams :=
  {| date_from := "2024-01-01"; date_to := "2024-01-07"; user_id := Some 7;
     group_by := None; capacity_hours_per_day := None; exclude_weekends := None |}.

End Utilization.

(* ================================================================== *)
(** * Analytics: profitability *)
(* ================================================================== *)

Module Profitability.
Import Grouping.

Inductive ProfitabilityMode : Type := time_based | invoice_based | hybrid.

Record ProfitabilityMetrics : Type := {
  hours : Q;
  billable_hours : Q;
  non_billable_hours : Q;
  billable_amount : Q;
  cost : Q;
  profit : Q;
  margin_percent : Q;      (* profit / billable_amount * 100 *)
  effective_rate : Q;      (* billable_amount / billable_hours *)
  cost_rate_avg : Q        (* cost / hours *)
}.

(** The derived values of [buildMetrics], before they are rounded. *)
Definition marginPercent (billableAmount cost : Q) : Q :=
  if positive billableAmount
  then ((billableAmount - cost) / billableAmount * inject_Z 100)%Q else 0%Q.

Definition effectiveRate (billableHours billableAmount : Q) : Q :=
  if positive billableHours then (billableAmount / billableHours)%Q else 0%Q.

Definition costRateAvg (hours cost : Q) : Q :=
  if positive hours then (cost / hours)%Q else 0%Q.

(** [buildMetrics(hours, billableHours, nonBillableHours, billableAmount, cost)] *)
Definition buildMetrics (hours billableHours nonBillableHours billableAmount cost : Q)
    : ProfitabilityMetrics :=
  let profit := (billableAmount - cost)%Q in
  {| hours := round hours;
     billable_hours := round billableHours;
     non_billable_hours := round nonBillableHours;
     billable_amount := round billableAmount;
     cost := round cost;
     profit := round profit;
     margin_percent := round (marginPercent billableAmount cost);
     effective_rate := round (effectiveRate billableHours billableAmount);
     cost_rate_avg := round (costRateAvg hours cost) |}.

(** As the spec words the time-based quantities: revenue is the sum of
    billable hours times billable rate; cost is the sum of hours times
    cost rate over the billable records, and over the others too when
    they are included. *)
Definition billableRateOf (entry : Harvest.TimeEntry) : Q :=
  match Harvest.billable_rate entry with Some r => r | None => 0%Q end.

Definition spec_hours (entries : list Harvest.TimeEntry) : Q :=
  total Harvest.hours entries.

Definition spec_billable_hours (entries : list Harvest.TimeEntry) : Q :=
  total (fun e => if Harvest.billable e then Harvest.hours e else 0%Q) entries.

Definition spec_non_billable_hours (entries : list Harvest.TimeEntry) : Q :=
  total (fun e => if Harvest.billable e then 0%Q else Harvest.hours e) entries.

Definition spec_revenue (entries : list Harvest.TimeEntry) : Q :=
  total (fun e => if Harvest.billable e
                  then (Harvest.hours e * billableRateOf e)%Q else 0%Q) entries.

(** The rate table [Map<user_id, cost_rate>], as the list of the [set]
    calls that filled it; a later [set] of a key replaces an earlier one. *)
Definition RateMap : Type := list (Z * Q).

Definition rateOf (rateMap : RateMap) (userId : Z) : option Q :=
  option_map snd (find (fun kv => fst kv =? userId) (rev rateMap)).

(** [entry.cost_rate ?? rateMap.get(entry.user.id) ?? 0] *)
Definition costRateOf (rateMap : RateMap) (entry : Harvest.TimeEntry) : Q :=
  match Harvest.cost_rate entry with
  | Some r => r
  | None =>
      match rateOf rateMap (Harvest.id (Harvest.user entry)) with
      | Some r => r
      | None => 0%Q
      end
  end.

Definition spec_cost (rateMap : RateMap) (includeNonBillable : bool)
    (entries : list Harvest.TimeEntry) : Q :=
  total (fun e => if Harvest.billable e || includeNonBillable
                  then (Harvest.hours e * costRateOf rateMap e)%Q else 0%Q) entries.

(** The accumulators the three calculations share. *)
Record Sums : Type := {
  sum_hours : Q;
  sum_billableHours : Q;
  sum_nonBillableHours : Q;
  sum_amount : Q;           (* [billableAmount], [timeBasedAmount] in hybrid *)
  sum_cost : Q;
  sum_billedHours : Q;      (* hybrid only *)
  sum_unbilledHours : Q     (* hybrid only *)
}.

Definition noSums : Sums :=
  {| sum_hours := 0; sum_billableHours := 0; sum_nonBillableHours := 0;
     sum_amount := 0; sum_cost := 0; sum_billedHours := 0; sum_unbilledHours := 0 |}.

(** One turn of the loops over [entries].  [amountOf] gives what a
    billable entry adds to the amount: hours times rate in the time-based
    loop, nothing in the invoice-based one, hours times rate for an entry
    not yet billed in the hybrid one. *)
Definition accumulate (amountOf : Harvest.TimeEntry -> option Q)
    (rateMap : RateMap) (includeNonBillable : bool)
    (s : Sums) (entry : Harvest.TimeEntry) : Sums :=
  let entryHours := Harvest.hours entry in
  let isBillable := Harvest.billable entry in
  let billed := isBillable && Harvest.is_billed entry in
  let unbilled := isBillable && negb (Harvest.is_billed entry) in
  {| sum_hours := (sum_hours s + entryHours)%Q;
     sum_billableHours :=
       if isBillable then (sum_billableHours s + entryHours)%Q else sum_billableHours s;
     sum_nonBillableHours :=
       if isBillable then sum_nonBillableHours s
       else (sum_nonBillableHours s + entryHours)%Q;
     sum_amount :=
       match amountOf entry with
       | Some a => if isBillable then (sum_amount s + a)%Q else sum_amount s
       | None => sum_amount s
       end;
     sum_cost :=
       if isBillable || includeNonBillable
       then (sum_cost s + entryHours * costRateOf rateMap entry)%Q else sum_cost s;
     sum_billedHours :=
       if billed then (sum_billedHours s + entryHours)%Q else sum_billedHours s;
     sum_unbilledHours :=
       if unbilled then (sum_unbilledHours s + entryHours)%Q else sum_unbilledHours s |}.

Definition rateTimesHours (entry : Harvest.TimeEntry) : option Q :=
  Some (Harvest.hours entry *
        match Harvest.billable_rate entry with Some r => r | None => 0 end)%Q.

Definition unbilledRateTimesHours (entry : Harvest.TimeEntry) : option Q :=
  if Harvest.is_billed entry then None else rateTimesHours entry.

(** The warning of the time-based loop for an entry without a cost rate:
    pushed unless a warning that names the user is there already. *)
Definition warnMissingRate (rateMap : RateMap) (includeNonBillable : bool)
    (warnings : list string) (entry : Harvest.TimeEntry) : list string :=
  if (Harvest.billable entry || includeNonBillable)
     && Qeq_bool (costRateOf rateMap entry) 0
     && positive (Harvest.hours entry)
     && negb (existsb
                (Cache.includes ("user " ++ Harvest.name (Harvest.user entry))%string)
                warnings)
  then warnings ++
       [("No cost rate found for user " ++ Harvest.name (Harvest.user entry)
           ++ " (ID: " ++ Gateway.showZ (Harvest.id (Harvest.user entry)) ++ ")")%string]
  else warnings.

Definition timeBasedSums (entries : list Harvest.TimeEntry) (rateMap : RateMap)
    (includeNonBillable : bool) : Sums :=
  fold_left (accumulate rateTimesHours rateMap includeNonBillable) entries noSums.

(** [calculateTimeBased(entries, rateMap, includeNonBillable, warnings)]:
    the metrics and the warnings array afterwards. *)
Definition calculateTimeBased (entries : list Harvest.TimeEntry) (rateMap : RateMap)
    (includeNonBillable : bool) (warnings : list string)
    : ProfitabilityMetrics * list string :=
  let s := timeBasedSums entries rateMap includeNonBillable in
  (buildMetrics (sum_hours s) (sum_billableHours s) (sum_nonBillableHours s)
     (sum_amount s) (sum_cost s),
   fold_left (warnMissingRate rateMap includeNonBillable) entries warnings).

(** Sum of the amounts of the invoices that are not drafts. *)
Definition invoicedAmount (invoices : list Harvest.Invoice) : Q :=
  total Harvest.amount (filter (fun inv => negb (Harvest.isDraft inv)) invoices).

Definition calculateInvoiceBased (entries : list Harvest.TimeEntry)
    (invoices : list Harvest.Invoice) (rateMap : RateMap)
    (includeNonBillable : bool) (warnings : list string)
    : ProfitabilityMetrics * list string :=
  let s := fold_left (accumulate (fun _ => None) rateMap includeNonBillable)
             entries noSums in
  (buildMetrics (sum_hours s) (sum_billableHours s) (sum_nonBillableHours s)
     (invoicedAmount invoices) (sum_cost s),
   match invoices with
   | [] => warnings ++ ["No invoices found for the date range; revenue is $0"]
   | _ :: _ => warnings
   end).

(** [x.toFixed(1)] for a number that is not negative. *)
Definition toFixed1 (x : Q) : string :=
  let tenths := Qfloor (x * inject_Z 10 + (1 # 2)) in
  (Gateway.showZ (tenths / 10) ++ "." ++ Gateway.showZ (tenths mod 10))%string.

Definition calculateHybrid (entries : list Harvest.TimeEntry)
    (invoices : list Harvest.Invoice) (rateMap : RateMap)
    (includeNonBillable : bool) (warnings : list string)
    : ProfitabilityMetrics * list string :=
  let s := fold_left (accumulate unbilledRateTimesHours rateMap includeNonBillable)
             entries noSums in
  let billableAmount := (invoicedAmount invoices + sum_amount s)%Q in
  (buildMetrics (sum_hours s) (sum_billableHours s) (sum_nonBillableHours s)
     billableAmount (sum_cost s),
   if positive (sum_billedHours s) && positive (sum_unbilledHours s)
   then warnings ++
        [("Hybrid calculation: " ++ toFixed1 (sum_billedHours s)
            ++ "h billed (invoice-based), " ++ toFixed1 (sum_unbilledHours s)
            ++ "h unbilled (time-based)")%string]
   else warnings).

Definition calculateByMode (mode : ProfitabilityMode)
    (entries : list Harvest.TimeEntry) (invoices : list Harvest.Invoice)
    (rateMap : RateMap) (includeNonBillable : bool) (warnings : list string)
    : ProfitabilityMetrics * list string :=
  match mode with
  | time_based => calculateTimeBased entries rateMap includeNonBillable warnings
  | invoice_based =>
      calculateInvoiceBased entries invoices rateMap includeNonBillable warnings
  | hybrid => calculateHybrid entries invoices rateMap includeNonBillable warnings
  end.

(** The invoices a group gets: under a grouping by client those of the
    group's client, under any other grouping none. *)
Definition groupInvoices (primaryGroup : GroupBy) (invoices : list Harvest.Invoice)
    (groupData : Group) : list Harvest.Invoice :=
  if GroupBy_eqb primaryGroup client then
    filter (fun inv =>
              String.eqb ("client:" ++ Gateway.showZ (Harvest.id (Harvest.invoice_client inv)))
                         (group_key groupData)) invoices
  else [].

(** [groupResults(entries, invoices, mode, groupBy, rateMap,
    includeNonBillable, warnings)].  Every group is computed with a
    warnings array of its own, [[]], which is dropped; the [warnings]
    argument is only handed down and is left out here. *)
Fixpoint groupResults (groupBy : list GroupBy) (entries : list Harvest.TimeEntry)
    (invoices : list Harvest.Invoice) (mode : ProfitabilityMode)
    (rateMap : RateMap) (includeNonBillable : bool)
    : list (GroupNode ProfitabilityMetrics) :=
  match groupBy with
  | [] => []
  | primaryGroup :: remainingGroups =>
      JsArray.sortBy (descending (fun n => billable_amount (metrics n)))
        (map (fun groupData =>
                let groupInv := groupInvoices primaryGroup invoices groupData in
                mkNode (groupingOf primaryGroup groupData)
                       (fst (calculateByMode mode (group_entries groupData) groupInv
                               rateMap includeNonBillable []))
                       (match remainingGroups with
                        | [] => None
                        | _ :: _ =>
                            Some (groupResults remainingGroups
                                    (group_entries groupData) groupInv mode rateMap
                                    includeNonBillable)
                        end)
                       (group_key groupData) (group_entries groupData))
             (groupEntries primaryGroup entries))
  end.

Record ProfitabilityParams : Type := {
  mode : ProfitabilityMode;
  group_by : option (list GroupBy);
  include_non_billable : option bool
}.

Record ProfitabilityResponse : Type := {
  totals : ProfitabilityMetrics;
  grouped_results : option (list (GroupNode ProfitabilityMetrics));
  warnings : list string;
  entries_analyzed : Z;
  invoices_analyzed : Z
}.

(** [calculate(params)] once the time entries and, for the two modes
    that use them, the invoices are fetched.  [rates] is what
    [getRates] answered, as (user id, cost rate) pairs; [None] when it
    threw.  It is asked only when there are entries. *)
Definition calculate (params : ProfitabilityParams) (entries : list Harvest.TimeEntry)
    (fetchedInvoices : list Harvest.Invoice) (rates : option (list (Z * Q)))
    : ProfitabilityResponse :=
  let groupBy := match group_by params with Some g => g | None => [] end in
  let includeNonBillable :=
    match include_non_billable params with Some b => b | None => false end in
  let invoices :=
    match mode params with
    | time_based => []
    | _ => fetchedInvoices
    end in
  let '(rateMap, warnings0) :=
    match entries, rates with
    | [], _ => ([], [])
    | _ :: _, Some userRates => (userRates, [])
    | _ :: _, None =>
        ([], ["Could not fetch rate information; using entry rates only"])
    end in
  let '(totalMetrics, warnings1) :=
    calculateByMode (mode params) entries invoices rateMap includeNonBillable
      warnings0 in
  {| totals := totalMetrics;
     grouped_results :=
       match groupBy with
       | [] => None
       | _ :: _ =>
           Some (groupResults groupBy entries invoices (mode params) rateMap
                   includeNonBillable)
       end;
     warnings := warnings1;
     entries_analyzed := Z.of_nat (List.length entries);
     invoices_analyzed := Z.of_nat (List.length invoices) |}.

(** Example data.  [tenHours]: the record of 10 billable hours at a rate
    of 100 and a cost rate of 50, on a given project. *)
Definition workOn (projectId : Z) (h rate costRate : Q) : Harvest.TimeEntry :=
  {| Harvest.entry_id := projectId; Harvest.spent_date := "2024-01-02";
     Harvest.hours := h; Harvest.rounded_hours := h;
     Harvest.is_billed := false; Harvest.billable := true;
     Harvest.billable_rate := Some rate; Harvest.cost_rate := Some costRate;
     Harvest.user := {| Harvest.id := 7; Harvest.name := "Ada Lovelace" |};
     Harvest.client := {| Harvest.id := 1; Harvest.name := "Acme" |};
     Harvest.project := {| Harvest.id := projectId; Harvest.name := "Project" |};
     Harvest.task := {| Harvest.id := 21; Harvest.name := "Design" |} |}.

Definition tenHours (projectId : Z) : Harvest.TimeEntry :=
  workOn projectId 10 100 50.

(** 0.33 hours at a rate of 100.02, as the entry of a project. *)
Definition oddMinutes (projectId : Z) : Harvest.TimeEntry :=
  workOn projectId (33 # 100) (10002 # 100) 0.

End Profitability.

(* ================================================================== *)
(** * Further example data *)
(* ================================================================== *)

Module Samples.

(** Pages of two items from the fake upstream of five entries. *)
Definition perPage2 : Paginate.AutoPaginateOptions nat :=
  {| Paginate.opt_maxPages := None; Paginate.opt_perPage := Some 2;
     Paginate.opt_onPage := None |}.

(** No page allowed at all. *)
Definition maxPages0 : Paginate.AutoPaginateOptions nat :=
  {| Paginate.opt_maxPages := Some 0; Paginate.opt_perPage := None;
     Paginate.opt_onPage := None |}.

(** The default limiter. *)
Definition defaultLimiter : RateLimiter.HarvestRateLimiter :=
  RateLimiter.create
    {| RateLimiter.p_maxRequests := None; RateLimiter.p_windowMs := None;
       RateLimiter.p_warningThreshold := None |}.

(** An upstream that answers 429 three times, asking for one second. *)
Definition busy : Gateway.World string :=
  {| Gateway.now := 2000;
     Gateway.upstream :=
       repeat (50, Gateway.Responded
                     {| Gateway.status := 429; Gateway.statusText := "Too Many Requests";
                        Gateway.retryAfterHeader := Some 1; Gateway.text := "";
                        Gateway.json := None |}) 3 |}.

(** A later moment, with an upstream that is down. *)
Definition later : Gateway.World string :=
  {| Gateway.now := 3000; Gateway.upstream := [] |}.

(** A weekend: Saturday 2024-01-06 and Sunday 2024-01-07, for user 7. *)
Definition weekendParams : Utilization.UtilizationParams :=
  {| Utilization.date_from := "2024-01-06"; Utilization.date_to := "2024-01-07";
     Utilization.user_id := Some 7; Utilization.group_by := None;
     Utilization.capacity_hours_per_day := None;
     Utilization.exclude_weekends := None |}.

End Samples.

(* ================================================================== *)
(** * Order of a result tree *)
(* ================================================================== *)

Module Ordering.
Import Grouping.

(** The nodes of [tree] stand in descending order of the metric [f], and
    so do the children of every node in it. *)
Definition SortedLevels {M : Type} (f : M -> Q) (tree : list (GroupNode M)) : Prop :=
  StronglySorted (fun a b => (f (metrics b) <= f (metrics a))%Q) tree /\
  forall n, In n (flat_map subnodes tree) ->
            forall cs, children n = Some cs ->
                       StronglySorted (fun a b => (f (metrics b) <= f (metrics a))%Q) cs.

End Ordering.

(* ================================================================== *)
(** * Analytics: budget performance *)
(* ================================================================== *)

Module Budget.
Import Grouping.

Inductive PerformanceRating : Type := under_budget | on_budget | over_budget.

Definition PerformanceRating_eqb (a b : PerformanceRating) : bool :=
  match a, b with
  | under_budget, under_budget | on_budget, on_budget | over_budget, over_budget => true
  | _, _ => false
  end.

(** [x > y] on numbers. *)
Definition gt (x y : Q) : bool := negb (Qle_bool x y).

(** [getRating(variancePercent, tolerance)]; [None] is [null]. *)
Definition getRating (variancePercent : option Q) (tolerance : Q) : PerformanceRating :=
  match variancePercent with
  | None => on_budget
  | Some v =>
      if gt v tolerance then over_budget
      else if gt (- tolerance) v then under_budget
      else on_budget
  end.

(** The fields of a time entry the calculator reads; [assignment_budget]
    is [entry.user_assignment?.budget ?? null]. *)
Record Entry : Type := {
  user : Harvest.Ref;
  project : Harvest.Ref;
  client : Harvest.Ref;
  hours : Q;
  assignment_budget : option Q
}.

(** A fetched project: its id and [budget_by]. *)
Record Project : Type := { id : Z; budget_by : string }.

Record UserProjectData : Type := {
  userId : Z;
  userName : string;
  projectId : Z;
  projectName : string;
  clientId : Z;
  clientName : string;
  budgetHours : option Q;
  actualHours : Q;
  entryCount : Z
}.

(** [projectMap.get(id)] for [new Map(projects.map(p => [p.id, p]))]: of
    two projects with one id the later one is kept. *)
Definition projectOf (projects : list Project) (projectId : Z) : option Project :=
  find (fun p => id p =? projectId) (rev projects).

Definition keyOfEntry (entry : Entry) : string :=
  (Gateway.showZ (Harvest.id (user entry)) ++ ":"
     ++ Gateway.showZ (Harvest.id (project entry)))%string.

(** [userProjectMap] as the list of its entries in insertion order: the
    entry joins the data of its key, or opens it. *)
Fixpoint addEntry (entry : Entry) (acc : list (string * UserProjectData))
    : list (string * UserProjectData) :=
  let count (data : UserProjectData) : UserProjectData :=
    {| userId := userId data; userName := userName data;
       projectId := projectId data; projectName := projectName data;
       clientId := clientId data; clientName := clientName data;
       budgetHours := budgetHours data;
       actualHours := (actualHours data + hours entry)%Q;
       entryCount := entryCount data + 1 |} in
  match acc with
  | [] =>
      [(keyOfEntry entry,
        count {| userId := Harvest.id (user entry);
                 userName := Harvest.name (user entry);
                 projectId := Harvest.id (project entry);
                 projectName := Harvest.name (project entry);
                 clientId := Harvest.id (client entry);
                 clientName := Harvest.name (client entry);
                 budgetHours := assignment_budget entry;
                 actualHours := 0;
                 entryCount := 0 |})]
  | (key, data) :: rest =>
      if String.eqb key (keyOfEntry entry) then (key, count data) :: rest
      else (key, data) :: addEntry entry rest
  end.

(** The loop over the entries: an entry is skipped when person budgets
    are required and its project is unknown or budgeted otherwise. *)
Definition collect (require_person_budget : bool) (projects : list Project)
    (entries : list Entry) : list (string * UserProjectData) :=
  fold_left
    (fun acc entry =>
       let personBudget :=
         match projectOf projects (Harvest.id (project entry)) with
         | Some p => String.eqb (budget_by p) "person"
         | None => false
         end in
       if require_person_budget && negb personBudget then acc
       else addEntry entry acc)
    entries [].

(** [userMap], in insertion order: user id, name and projects. *)
Fixpoint addToUser (data : UserProjectData)
    (users : list (Z * (string * list UserProjectData)))
    : list (Z * (string * list UserProjectData)) :=
  match users with
  | [] => [(userId data, (userName data, [data]))]
  | (uid, (name, projects)) :: rest =>
      if uid =? userId data then (uid, (name, projects ++ [data])) :: rest
      else (uid, (name, projects)) :: addToUser data rest
  end.

Definition byUser (collected : list (string * UserProjectData))
    : list (Z * (string * list UserProjectData)) :=
  fold_left (fun users kv => addToUser (snd kv) users) collected [].

Record ProjectMetrics : Type := {
  project_id : Z;
  project_name : string;
  client_id : Z;
  client_name : string;
  budget_hours : option Q;
  actual_hours : Q;
  variance_hours : Q;
  variance_percent : option Q;
  rating : PerformanceRating;
  entry_count : Z
}.

Definition varianceHoursOf (data : UserProjectData) : Q :=
  match budgetHours data with
  | Some budget => (actualHours data - budget)%Q
  | None => 0%Q
  end.

Definition variancePercentOf (data : UserProjectData) : option Q :=
  match budgetHours data with
  | Some budget =>
      if positive budget
      then Some (varianceHoursOf data / budget * inject_Z 100)%Q else None
  | None => None
  end.

Definition projectMetricsOf (tolerance : Q) (data : UserProjectData) : ProjectMetrics :=
  {| project_id := projectId data;
     project_name := projectName data;
     client_id := clientId data;
     client_name := clientName data;
     budget_hours := option_map round (budgetHours data);
     actual_hours := round (actualHours data);
     variance_hours := round (varianceHoursOf data);
     variance_percent := option_map round (variancePercentOf data);
     rating := getRating (variancePercentOf data) tolerance;
     entry_count := entryCount data |}.

(** The variables of the loop over the projects of one user. *)
Record Tally : Type := {
  totalBudgetHours : Q;
  totalActualHours : Q;
  projectsOverBudget : Z;
  projectsUnderBudget : Z;
  projectsOnBudget : Z;
  projectsWithoutBudget : Z;
  projectMetrics : list ProjectMetrics
}.

Definition noTally : Tally :=
  {| totalBudgetHours := 0; totalActualHours := 0; projectsOverBudget := 0;
     projectsUnderBudget := 0; projectsOnBudget := 0; projectsWithoutBudget := 0;
     projectMetrics := [] |}.

Definition tallyProject (tolerance : Q) (t : Tally) (data : UserProjectData) : Tally :=
  let r := getRating (variancePercentOf data) tolerance in
  let budgeted := match budgetHours data with Some _ => true | None => false end in
  {| totalBudgetHours :=
       match budgetHours data with
       | Some budget => (totalBudgetHours t + budget)%Q
       | None => totalBudgetHours t
       end;
     totalActualHours := (totalActualHours t + actualHours data)%Q;
     projectsOverBudget :=
       if budgeted && PerformanceRating_eqb r over_budget
       then projectsOverBudget t + 1 else projectsOverBudget t;
     projectsUnderBudget :=
       if budgeted && negb (PerformanceRating_eqb r over_budget)
          && PerformanceRating_eqb r under_budget
       then projectsUnderBudget t + 1 else projectsUnderBudget t;
     projectsOnBudget :=
       if budgeted && negb (PerformanceRating_eqb r over_budget)
          && negb (PerformanceRating_eqb r under_budget)
       then projectsOnBudget t + 1 else projectsOnBudget t;
     projectsWithoutBudget :=
       if budgeted then projectsWithoutBudget t else projectsWithoutBudget t + 1;
     projectMetrics := projectMetrics t ++ [projectMetricsOf tolerance data] |}.

Record UserMetrics : Type := {
  total_budget_hours : Q;
  total_actual_hours : Q;
  total_variance_hours : Q;
  total_variance_percent : option Q;
  projects_over_budget : Z;
  projects_under_budget : Z;
  projects_on_budget : Z;
  projects_without_budget : Z;
  overall_rating : PerformanceRating
}.

Record UserResult : Type := {
  user_id : Z;
  user_name : string;
  metrics : UserMetrics;
  projects : list ProjectMetrics
}.

(** [(total - budget) / budget * 100] when the budget is above 0. *)
Definition percentOf (varianceHours budget : Q) : option Q :=
  if positive budget then Some (varianceHours / budget * inject_Z 100)%Q else None.

(** One turn of the loop over [userMap]. *)
Definition userResultOf (tolerance : Q) (u : Z * (string * list UserProjectData))
    : UserResult :=
  let t := fold_left (tallyProject tolerance) (snd (snd u)) noTally in
  let totalVarianceHours := (totalActualHours t - totalBudgetHours t)%Q in
  let totalVariancePercent := percentOf totalVarianceHours (totalBudgetHours t) in
  {| user_id := fst u;
     user_name := fst (snd u);
     metrics :=
       {| total_budget_hours := round (totalBudgetHours t);
          total_actual_hours := round (totalActualHours t);
          total_variance_hours := round totalVarianceHours;
          total_variance_percent := option_map round totalVariancePercent;
          projects_over_budget := projectsOverBudget t;
          projects_under_budget := projectsUnderBudget t;
          projects_on_budget := projectsOnBudget t;
          projects_without_budget := projectsWithoutBudget t;
          overall_rating := getRating totalVariancePercent tolerance |};
     projects := JsArray.sortBy (descending variance_hours) (projectMetrics t) |}.

Inductive SortBy : Type :=
| by_variance_hours | by_variance_percent | by_actual_hours | by_user_name.

Inductive SortOrder : Type := asc | desc.

(** [x ?? 0] *)
Definition orZero (x : option Q) : Q := match x with Some v => v | None => 0%Q end.

Section Sorting.

Variable localeCompare : string -> string -> Z.

(** [sortUsers(users, sortBy, sortOrder)]: the comparator's value, and
    the sort. *)
Definition comparison (sortBy : SortBy) (a b : UserResult) : Q :=
  match sortBy with
  | by_variance_hours =>
      (total_variance_hours (metrics a) - total_variance_hours (metrics b))%Q
  | by_variance_percent =>
      (orZero (total_variance_percent (metrics a))
       - orZero (total_variance_percent (metrics b)))%Q
  | by_actual_hours =>
      (total_actual_hours (metrics a) - total_actual_hours (metrics b))%Q
  | by_user_name => inject_Z (localeCompare (user_name a) (user_name b))
  end.

Definition sortUsers (sortBy : SortBy) (sortOrder : option SortOrder)
    (users : list UserResult) : list UserResult :=
  let defaultDesc :=
    match sortBy with
    | by_variance_hours | by_variance_percent => true
    | _ => false
    end in
  let isDesc :=
    match sortOrder with
    | Some desc => true
    | Some asc => false
    | None => defaultDesc
    end in
  JsArray.sortBy
    (fun a b => positive (if isDesc then (- comparison sortBy a b)%Q
                          else comparison sortBy a b))
    users.

End Sorting.

Record Totals : Type := {
  total_users : Z;
  users_over_budget : Z;
  users_under_budget : Z;
  users_on_budget : Z;
  all_budget_hours : Q;           (* [total_budget_hours] *)
  all_actual_hours : Q;           (* [total_actual_hours] *)
  all_variance_hours : Q;         (* [total_variance_hours] *)
  all_variance_percent : option Q (* [total_variance_percent] *)
}.

Definition countRating (r : PerformanceRating) (users : list UserResult) : Z :=
  Z.of_nat (List.length
              (filter (fun u => PerformanceRating_eqb (overall_rating (metrics u)) r)
                      users)).

(** [calculateTotals(users)] *)
Definition calculateTotals (users : list UserResult) : Totals :=
  let totalBudgetHours := total (fun u => total_budget_hours (metrics u)) users in
  let totalActualHours := total (fun u => total_actual_hours (metrics u)) users in
  let usersOverBudget := countRating over_budget users in
  let usersUnderBudget := countRating under_budget users in
  let usersOnBudget :=
    Z.of_nat (List.length
                (filter (fun u =>
                           negb (PerformanceRating_eqb (overall_rating (metrics u))
                                   over_budget)
                           && negb (PerformanceRating_eqb (overall_rating (metrics u))
                                      under_budget))
                        users)) in
  let totalVarianceHours := (totalActualHours - totalBudgetHours)%Q in
  {| total_users := Z.of_nat (List.length users);
     users_over_budget := usersOverBudget;
     users_under_budget := usersUnderBudget;
     users_on_budget := usersOnBudget;
     all_budget_hours := round totalBudgetHours;
     all_actual_hours := round totalActualHours;
     all_variance_hours := round totalVarianceHours;
     all_variance_percent :=
       option_map round (percentOf totalVarianceHours totalBudgetHours) |}.

Record TopPerformer : Type := {
  top_user_id : Z;
  top_user_name : string;
  top_variance_percent : Q
}.

(** [getTopPerformers(users)].  The filter keeps users whose
    [total_variance_percent] is not [null], so the non-null assertion of
    the last [map] reads the number that is there. *)
Definition getTopPerformers (users : list UserResult) : list TopPerformer :=
  map (fun u => {| top_user_id := user_id u; top_user_name := user_name u;
                   top_variance_percent := orZero (total_variance_percent (metrics u)) |})
    (firstn 5
       (JsArray.sortBy
          (fun a b => positive (orZero (total_variance_percent (metrics a))
                                - orZero (total_variance_percent (metrics b))))
          (filter (fun u =>
                     PerformanceRating_eqb (overall_rating (metrics u)) under_budget
                     && match total_variance_percent (metrics u) with
                        | Some _ => true
                        | None => false
                        end)
                  users))).

Record RepeatOffender : Type := {
  offender_user_id : Z;
  offender_user_name : string;
  projects_over : Z;
  offender_variance_hours : Q
}.

(** [getRepeatOffenders(users)] *)
Definition getRepeatOffenders (users : list UserResult) : list RepeatOffender :=
  map (fun u => {| offender_user_id := user_id u; offender_user_name := user_name u;
                   projects_over := projects_over_budget (metrics u);
                   offender_variance_hours := total_variance_hours (metrics u) |})
    (firstn 5
       (JsArray.sortBy
          (fun a b => 0 <? projects_over_budget (metrics b)
                          - projects_over_budget (metrics a))
          (filter (fun u => 2 <=? projects_over_budget (metrics u)) users))).

Record Params : Type := {
  require_person_budget : option bool;
  on_budget_tolerance_percent : option Q;
  sort_by : option SortBy;
  sort_order : option SortOrder
}.

Record Response : Type := {
  totals : Totals;
  users : list UserResult;
  top_performers : list TopPerformer;
  over_budget_repeat_offenders : list RepeatOffender;
  warnings : list string;
  entries_analyzed : Z;
  projects_analyzed : Z
}.

Definition emptyResponse (warnings : list string) : Response :=
  {| totals := {| total_users := 0; users_over_budget := 0; users_under_budget := 0;
                  users_on_budget := 0; all_budget_hours := 0; all_actual_hours := 0;
                  all_variance_hours := 0; all_variance_percent := None |};
     users := [];
     top_performers := [];
     over_budget_repeat_offenders := [];
     warnings := warnings;
     entries_analyzed := 0;
     projects_analyzed := 0 |}.

(** [calculate(params)] once the time entries and the projects are
    fetched. *)
Definition calculate (localeCompare : string -> string -> Z) (params : Params)
    (entries : list Entry) (fetchedProjects : list Project) : Response :=
  let requirePersonBudget :=
    match require_person_budget params with Some b => b | None => false end in
  let tolerance :=
    match on_budget_tolerance_percent params with Some t => t | None => 5%Q end in
  let sortBy := match sort_by params with Some s => s | None => by_variance_hours end in
  match entries with
  | [] => emptyResponse ["No time entries found for the specified date range"]
  | _ :: _ =>
      match collect requirePersonBudget fetchedProjects entries with
      | [] =>
          emptyResponse ["No matching time entries found with the specified filters"]
      | (_ :: _) as collected =>
          let userResults :=
            sortUsers localeCompare sortBy (sort_order params)
              (map (userResultOf tolerance) (byUser collected)) in
          let usersWithoutBudgets :=
            filter (fun u => projects_without_budget (metrics u)
                             =? Z.of_nat (List.length (projects u)))
                   userResults in
          {| totals := calculateTotals userResults;
             users := userResults;
             top_performers := getTopPerformers userResults;
             over_budget_repeat_offenders := getRepeatOffenders userResults;
             warnings :=
               match usersWithoutBudgets with
               | [] => []
               | _ :: _ =>
                   [(Gateway.showZ (Z.of_nat (List.length usersWithoutBudgets))
                       ++ " user(s) have no budget allocations on their projects")%string]
               end;
             entries_analyzed := Z.of_nat (List.length entries);
             projects_analyzed :=
               Z.of_nat (List.length
                           (JsArray.distinct
                              (map (fun kv => projectId (snd kv)) collected))) |}
      end
  end.

End Budget.

(* ================================================================== *)
(** * Rate resolution *)
(* ================================================================== *)

Module Rates.

Inductive RateSource : Type := harvest_api | config_file | env_default | fallback_zero.

Record RateInfo : Type := {
  rate : Q;
  source : RateSource;
  source_detail : option string
}.

Record UserOverride : Type := {
  o_cost_rate : option Q;
  o_billable_rate : option Q
}.

Record ProjectOverride : Type := { o_hourly_rate : option Q }.

(** [RatesConfig]; the two [Record<string, ...>] objects are lists of
    their properties, every key once. *)
Record RatesConfig : Type := {
  user_overrides : list (string * UserOverride);
  project_overrides : list (string * ProjectOverride);
  defaults_cost_rate : Q;
  defaults_billable_rate : option Q
}.

Definition DEFAULT_CONFIG : RatesConfig :=
  {| user_overrides := []; project_overrides := [];
     defaults_cost_rate := 0; defaults_billable_rate := None |}.

(** [object[key]]; [None] is [undefined]. *)
Definition property {A : Type} (object : list (string * A)) (key : string) : option A :=
  option_map snd (find (fun kv => String.eqb (fst kv) key) object).

(** The state of a [RatesService]; [defaultCostRate] is the number read
    from the environment variable DEFAULT_COST_RATE, 0 when it is not
    set. *)
Record RatesService : Type := {
  config : option RatesConfig;         (* [None] is [null]: not loaded yet *)
  configPath : string;
  defaultCostRate : Q;
  warnings : list string
}.

(** What is found at [configPath]: no file, a file that cannot be read
    or parsed, or the parsed object. *)
Record ParsedConfig : Type := {
  parsed_user_overrides : option (list (string * UserOverride));
  parsed_project_overrides : option (list (string * ProjectOverride));
  parsed_cost_rate : option Q;             (* [parsed.defaults?.cost_rate] *)
  parsed_billable_rate : option Q          (* [parsed.defaults?.billable_rate] *)
}.

Inductive ConfigFile : Type :=
| Missing
| Unreadable (error : string)
| Parsed (parsed : ParsedConfig).

Definition withConfig (s : RatesService) (c : RatesConfig) (w : list string)
    : RatesService :=
  {| config := Some c; configPath := configPath s;
     defaultCostRate := defaultCostRate s; warnings := w |}.

(** [loadConfig()]: whether a configuration is there, and the service
    afterwards. *)
Definition loadConfig (file : ConfigFile) (s : RatesService) : bool * RatesService :=
  match config s with
  | Some _ => (true, s)
  | None =>
      match file with
      | Missing => (false, withConfig s DEFAULT_CONFIG (warnings s))
      | Parsed parsed =>
          (true,
           withConfig s
             {| user_overrides :=
                  match parsed_user_overrides parsed with Some o => o | None => [] end;
                project_overrides :=
                  match parsed_project_overrides parsed with Some o => o | None => [] end;
                defaults_cost_rate :=
                  match parsed_cost_rate parsed with Some r => r | None => 0%Q end;
                defaults_billable_rate := parsed_billable_rate parsed |}
             (warnings s))
      | Unreadable error =>
          (false,
           withConfig s DEFAULT_CONFIG
             (warnings s ++ [("Failed to load rates.json: " ++ error)%string]))
      end
  end.

(** [resolveRate(apiValue, configOverride, defaultValue, apiSource)] *)
Definition resolveRate (s : RatesService) (apiValue configOverride defaultValue : option Q)
    (apiSource : string) : option RateInfo :=
  match apiValue with
  | Some v =>
      Some {| rate := v; source := harvest_api; source_detail := Some apiSource |}
  | None =>
      match configOverride with
      | Some v =>
          Some {| rate := v; source := config_file;
                  source_detail := Some (configPath s) |}
      | None =>
          match defaultValue with
          | Some v =>
              Some {| rate := v;
                      source := if Grouping.positive (defaultCostRate s)
                                then env_default else fallback_zero;
                      source_detail := if Grouping.positive (defaultCostRate s)
                                       then Some "DEFAULT_COST_RATE" else None |}
          | None => None
          end
      end
  end.

(** The fields of a user the service reads. *)
Record User : Type := {
  id : Z;
  first_name : string;
  last_name : string;
  cost_rate : option Q;
  default_hourly_rate : option Q
}.

Record UserRate : Type := {
  user_id : Z;
  user_name : string;
  user_cost_rate : option RateInfo;     (* [cost_rate: costRate!] *)
  user_default_hourly_rate : option RateInfo
}.

(** [mapUserToRate(user)]: the rate record and the service, whose
    warnings may have grown. *)
Definition mapUserToRate (user : User) (s : RatesService) : UserRate * RatesService :=
  let configOverride :=
    match config s with
    | Some c => property (user_overrides c) (Gateway.showZ (id user))
    | None => None
    end in
  let defaultCost :=
    match config s with
    | Some c => defaults_cost_rate c
    | None => defaultCostRate s
    end in
  let costRate :=
    resolveRate s (cost_rate user)
      (match configOverride with Some o => o_cost_rate o | None => None end)
      (Some defaultCost) "user.cost_rate" in
  let fallsBack :=
    match costRate with
    | Some {| source := fallback_zero |} => true
    | _ => false
    end in
  ({| user_id := id user;
      user_name := (first_name user ++ " " ++ last_name user)%string;
      user_cost_rate := costRate;
      user_default_hourly_rate :=
        match default_hourly_rate user with
        | Some r =>
            if Qeq_bool r 0 then None
            else Some {| rate := r; source := harvest_api;
                         source_detail := Some "user.default_hourly_rate" |}
        | None => None
        end |},
   {| config := config s; configPath := configPath s;
      defaultCostRate := defaultCostRate s;
      warnings :=
        if fallsBack
        then warnings s ++
             [("User " ++ first_name user ++ " " ++ last_name user ++ " ("
                 ++ Gateway.showZ (id user) ++ ") has no cost rate configured")%string]
        else warnings s |}).

(** [getUserRates()] once the users are fetched, after [loadConfig]. *)
Definition getUserRates (file : ConfigFile) (fetched : list User) (s : RatesService)
    : list UserRate * RatesService :=
  fold_left (fun acc user =>
               let (r, s') := mapUserToRate user (snd acc) in (fst acc ++ [r], s'))
            fetched ([], snd (loadConfig file s)).

End Rates.

(* ================================================================== *)
(** * Properties *)
(* ================================================================== *)

Module ListFacts.

Lemma filter_none {A} (f : A -> bool) l :
  (forall x, In x l -> f x = false) -> filter f l = [].
Proof.
  induction l as [|a l IH]; cbn; intros H; [reflexivity|].
  rewrite (H a (or_introl eq_refl)). apply IH. intros x Hx. apply H. now right.
Qed.

Lemma filter_all {A} (f : A -> bool) l :
  (forall x, In x l -> f x = true) -> filter f l = l.
Proof.
  induction l as [|a l IH]; cbn; intros H; [reflexivity|].
  rewrite (H a (or_introl eq_refl)). f_equal. apply IH. intros x Hx. apply H. now right.
Qed.

Lemma filter_twice {A} (f g : A -> bool) : forall l,
  filter f (filter g l) = filter (fun x => g x && f x) l.
Proof.
  induction l as [|a l IH]; cbn; [reflexivity|].
  destruct (g a); cbn; [destruct (f a)|]; now rewrite IH.
Qed.

Lemma filter_of_map {A B} (g : A -> B) (f : B -> bool) : forall l,
  filter f (map g l) = map g (filter (fun a => f (g a)) l).
Proof.
  induction l as [|a l IH]; cbn; [reflexivity|].
  destruct (f (g a)); cbn; now rewrite IH.
Qed.

End ListFacts.

Module PaginateProofs.
Import Paginate.

Section Proofs.

Context {T Err St P M : Type}.
Variable endpoint : P -> Z -> Z -> St -> (Err + PaginatedResponse T) * St.
Variable resetApiCallCount : St -> St.
Variable buildMeta : bool -> St -> M.

Lemma body_Continue_page params perPage onPage (s s' : LoopState T St) :
  body endpoint params perPage onPage s = Continue s' ->
  page s' = page s + 1.
Proof.
  unfold body. destruct (endpoint params (page s) perPage (world s)) as [[e|r] st1].
  - discriminate.
  - destruct (next_page r); [|discriminate].
    intros H. injection H as <-. reflexivity.
Qed.

Lemma guard_page maxPages (s : LoopState T St) :
  guard maxPages s = true -> page s <= maxPages.
Proof.
  unfold guard. intros H. apply andb_true_iff in H as [H _]. lia.
Qed.

(** Past the bound [maxPages + 1 - page] the loop always answers. *)
Lemma loop_total params maxPages perPage onPage :
  forall fuel (s : LoopState T St),
    (Z.to_nat (maxPages + 1 - page s) < fuel)%nat ->
    exists r, loop endpoint fuel params maxPages perPage onPage s = Some r.
Proof.
  induction fuel as [|fuel IH]; intros s Hfuel; [lia|].
  cbn [loop]. destruct (guard maxPages s) eqn:Hg; [|eauto].
  destruct (body endpoint params perPage onPage s) as [e st1|s'|s'] eqn:Hb; eauto.
  apply IH. apply body_Continue_page in Hb. apply guard_page in Hg. lia.
Qed.

(** A reached state is one the bounded loop of [autoPaginate] passes
    through with fuel to spare. *)
Lemma Reached_loop params options st s :
  Reached endpoint resetApiCallCount params options st s ->
  exists fuel,
    (Z.to_nat (maxPagesOf options + 1 - page s) < fuel)%nat /\
    loop endpoint (S (Z.to_nat (maxPagesOf options))) params (maxPagesOf options)
         (perPageOf options) (opt_onPage options) (initial resetApiCallCount st)
    = loop endpoint fuel params (maxPagesOf options) (perPageOf options)
           (opt_onPage options) s.
Proof.
  induction 1 as [|s s' _ [fuel [Hfuel IH]] Hg Hb].
  - exists (S (Z.to_nat (maxPagesOf options))). split; [cbn; lia|reflexivity].
  - destruct fuel as [|fuel]; [lia|]. exists fuel. split.
    + apply body_Continue_page in Hb. apply guard_page in Hg. lia.
    + rewrite IH. cbn [loop]. rewrite Hg, Hb. reflexivity.
Qed.

(** [autoPaginate] always returns: the fuel of the model is never the
    reason for an answer. *)
Lemma autoPaginate_total params options st :
  exists r, autoPaginate endpoint resetApiCallCount buildMeta params options st = Some r.
Proof.
  unfold autoPaginate.
  destruct (loop_total params (maxPagesOf options) (perPageOf options)
              (opt_onPage options) (S (Z.to_nat (maxPagesOf options)))
              (initial resetApiCallCount st)) as [r Hr].
  - cbn [initial page]. lia.
  - rewrite Hr. cbn. eauto.
Qed.

(** C9: if the fetch of any page the pagination run gets to fails, the
    whole [autoPaginate] call fails with that error; the failure carries
    no items, so nothing accumulated so far reaches the caller. *)
Theorem autoPaginate_fails_when_a_page_fails params options st s e st1 :
  Reached endpoint resetApiCallCount params options st s ->
  guard (maxPagesOf options) s = true ->
  endpoint params (page s) (perPageOf options) (world s) = (inl e, st1) ->
  autoPaginate endpoint resetApiCallCount buildMeta params options st
  = Some (inl e, st1).
Proof.
  intros Hr Hg He.
  destruct (Reached_loop _ _ _ _ Hr) as [fuel [Hfuel Heq]].
  unfold autoPaginate. rewrite Heq.
  destruct fuel as [|fuel]; [lia|].
  cbn [loop]. rewrite Hg. unfold body. rewrite He. reflexivity.
Qed.

(** One iteration whose fetch succeeds, read off the endpoint's answer. *)
Lemma loop_fetch fuel params maxPages perPage (s : LoopState T St) r :
  guard maxPages s = true ->
  fst (endpoint params (page s) perPage (world s)) = inr r ->
  exists st1,
    loop endpoint (S fuel) params maxPages perPage None s =
    let s' := {| page := page s; totalEntries := total_entries r;
                 totalPages := total_pages r;
                 allItems := allItems s ++ itemsOf r; world := st1 |} in
    match next_page r with
    | None => Some (inr s', st1)
    | Some _ =>
        loop endpoint fuel params maxPages perPage None
          {| page := page s + 1; totalEntries := total_entries r;
             totalPages := total_pages r;
             allItems := allItems s ++ itemsOf r; world := st1 |}
    end.
Proof.
  intros Hg Hr. cbn [loop]. rewrite Hg. unfold body.
  destruct (endpoint params (page s) perPage (world s)) as [[e|r'] st1]; cbn in Hr.
  - discriminate.
  - injection Hr as ->. exists st1. cbn. destruct (next_page r); reflexivity.
Qed.

(** C1: on a source of 250 entries in pages of 100 ([next_page] = 2, 3,
    null) the default options give all 250 items and [pages_fetched = 3].
    With [maxPages = 2] the call returns the first 200 items, and it
    reports [pages_fetched = 3] although it fetched two pages: the counter
    had been incremented before the guard [page <= maxPages] ended the
    loop. *)
Theorem autoPaginate_three_page_source params r1 r2 r3 st :
  ThreePageSource endpoint params r1 r2 r3 ->
  (exists res st',
      autoPaginate endpoint resetApiCallCount buildMeta params defaultOptions st
      = Some (inr res, st') /\
      items res = itemsOf r1 ++ itemsOf r2 ++ itemsOf r3 /\
      List.length (items res) = 250%nat /\
      res_total_entries res = 250 /\
      pages_fetched res = 3) /\
  (exists res st',
      autoPaginate endpoint resetApiCallCount buildMeta params
        {| opt_maxPages := Some 2; opt_perPage := None; opt_onPage := None |} st
      = Some (inr res, st') /\
      items res = itemsOf r1 ++ itemsOf r2 /\
      List.length (items res) = 200%nat /\
      res_total_entries res = 250 /\
      pages_fetched res = 3).
Proof.
  intros (H1 & H2 & H3 & (E1 & E2 & E3) & (P1 & P2 & P3) & (N1 & N2 & N3)
          & (L1 & L2 & L3)).
  split.
  - unfold autoPaginate. cbn [maxPagesOf perPageOf defaultOptions opt_maxPages
      opt_perPage opt_onPage].
    change (S (Z.to_nat 10)) with 11%nat.
    destruct (loop_fetch 10 params 10 100 (initial resetApiCallCount st) r1
                eq_refl (H1 _)) as [st1 ->].
    cbn zeta. rewrite N1. cbn [initial page allItems app].
    destruct (loop_fetch 9 params 10 100
                {| page := 1 + 1; totalEntries := total_entries r1;
                   totalPages := total_pages r1; allItems := itemsOf r1;
                   world := st1 |} r2) as [st2 ->].
    { unfold guard; cbn [page totalPages]. rewrite P1. reflexivity. }
    { apply H2. }
    cbn zeta. rewrite N2. cbn [page allItems].
    destruct (loop_fetch 8 params 10 100
                {| page := 1 + 1 + 1; totalEntries := total_entries r2;
                   totalPages := total_pages r2;
                   allItems := itemsOf r1 ++ itemsOf r2; world := st2 |} r3)
      as [st3 ->].
    { unfold guard; cbn [page totalPages]. rewrite P2. reflexivity. }
    { apply H3. }
    cbn zeta. rewrite N3. cbn [option_map finish].
    eexists. eexists. split; [reflexivity|].
    cbn [items res_total_entries pages_fetched allItems totalEntries page].
    rewrite <- app_assoc. repeat split; auto.
    rewrite !length_app, L1, L2, L3. reflexivity.
  - unfold autoPaginate. cbn [maxPagesOf perPageOf opt_maxPages
      opt_perPage opt_onPage].
    change (S (Z.to_nat 2)) with 3%nat.
    destruct (loop_fetch 2 params 2 100 (initial resetApiCallCount st) r1
                eq_refl (H1 _)) as [st1 ->].
    cbn zeta. rewrite N1. cbn [initial page allItems app].
    destruct (loop_fetch 1 params 2 100
                {| page := 1 + 1; totalEntries := total_entries r1;
                   totalPages := total_pages r1; allItems := itemsOf r1;
                   world := st1 |} r2) as [st2 ->].
    { unfold guard; cbn [page totalPages]. rewrite P1. reflexivity. }
    { apply H2. }
    cbn zeta. rewrite N2. cbn [page allItems].
    cbn [loop]. unfold guard. cbn [page totalPages option_map finish].
    change (1 + 1 + 1 <=? 2) with false. cbn [andb option_map finish].
    eexists. eexists. split; [reflexivity|].
    cbn [items res_total_entries pages_fetched allItems totalEntries page].
    repeat split; auto.
    rewrite !length_app, L1, L2. reflexivity.
Qed.

End Proofs.

(** The fake upstream is such a source; with [maxPages = 2] the call
    returns 200 items and reports page 3. *)
Lemma autoPaginate_three_page_source_witness :
  ThreePageSource (fakeSource 250) tt
    (fakePage 100 250 1) (fakePage 100 250 2) (fakePage 100 250 3) /\
  exists res st',
    autoPaginate (fakeSource 250) (fun n => n) (fun _ _ => tt) tt maxPages2 0%nat
    = Some (inr res, st') /\
    List.length (items res) = 200%nat /\ pages_fetched res = 3.
Proof.
  assert (Hsrc : ThreePageSource (fakeSource 250) tt
            (fakePage 100 250 1) (fakePage 100 250 2) (fakePage 100 250 3)).
  { unfold ThreePageSource. repeat split; reflexivity. }
  split; [exact Hsrc|].
  destruct (autoPaginate_three_page_source (fakeSource 250) (fun n => n)
              (fun _ _ => tt) tt _ _ _ 0%nat Hsrc)
    as [_ (res & st' & Hrun & _ & Hlen & _ & Hpages)].
  exists res, st'. repeat split; assumption.
Defined.

(** Page 2 of the flaky upstream fails: the run reaches it, and the call
    fails as a whole. *)
Lemma autoPaginate_fails_when_a_page_fails_witness :
  autoPaginate (flakySource 250 2) (fun n => n) (fun _ _ => tt) tt
    defaultOptions 0%nat
  = Some (inl "Harvest API error: 500", 2%nat).
Proof.
  apply (autoPaginate_fails_when_a_page_fails (flakySource 250 2) (fun n => n)
           (fun _ _ => tt) tt defaultOptions 0%nat
           {| page := 2; totalEntries := 250; totalPages := 3;
              allItems := itemsOf (fakePage 100 250 1); world := 1%nat |}).
  - eapply Reached_next.
    + apply Reached_initial.
    + reflexivity.
    + reflexivity.
  - reflexivity.
  - reflexivity.
Defined.

End PaginateProofs.

Module RateLimiterProofs.
Import RateLimiter ListFacts.

Lemma recordAll_state times : forall l,
  config (recordAll times l) = config l /\
  requestTimestamps (recordAll times l) = requestTimestamps l ++ times /\
  retryAfterMs (recordAll times l) = retryAfterMs l.
Proof.
  induction times as [|t times IH]; intros l; cbn.
  - rewrite app_nil_r. auto.
  - destruct (IH (recordRequest t l)) as (Hc & Ht & Hr).
    unfold recordAll in *. rewrite Hc, Ht, Hr. cbn.
    rewrite <- app_assoc. auto.
Qed.

Lemma minimum_spec l :
  l <> [] ->
  exists m, minimum l = Some m /\ In m l /\ forall t, In t l -> m <= t.
Proof.
  induction l as [|a l IH]; [congruence|]. intros _. cbn [minimum].
  destruct l as [|b l].
  - exists a. cbn. repeat split; auto. intros t [<-|[]]. lia.
  - destruct IH as (m & -> & Hin & Hle); [discriminate|].
    exists (Z.min a m). split; [reflexivity|]. split.
    + destruct (Z.min_spec a m) as [[_ ->]|[_ ->]]; [now left|now right].
    + intros t [<-|Ht]; [lia|]. specialize (Hle t Ht). lia.
Qed.

(** C4: with no embargo, once at least [maxRequests] calls of
    [recordRequest] lie within the last [windowMs], [acquirePermit]
    returns [(oldest + windowMs) - now], which is positive; and once
    [windowMs] has passed since the last of them with no further call, it
    returns 0.  The limiter is configured with a positive [maxRequests]
    and a positive [warningThreshold], as the default one is. *)
Theorem acquirePermit_at_limit_then_idle
    (l0 : HarvestRateLimiter) (calls : list Z) (now1 now2 now3 now4 : Z) :
  let c := config l0 in
  let l := recordAll calls l0 in
  0 < maxRequests c ->
  (0 < warningThreshold c)%Q ->
  (forall t, In t (requestTimestamps l0) -> t <= now1 - windowMs c) ->
  maxRequests c <= Z.of_nat (List.length calls) ->
  (forall t, In t calls -> now2 - windowMs c < t) ->
  now1 <= now2 ->
  retryAfterMs l0 <= now2 ->
  (forall t, In t calls -> t + windowMs c <= now3) ->
  now2 <= now4 ->
  (exists oldest,
      In oldest calls /\ (forall t, In t calls -> oldest <= t) /\
      fst (acquirePermit now1 now2 l) = Finite ((oldest + windowMs c) - now2) /\
      0 < (oldest + windowMs c) - now2) /\
  fst (acquirePermit now3 now4 (snd (acquirePermit now1 now2 l))) = Finite 0.
Proof.
  intros c l Hmax Hthr Hold Hcount Hrecent H12 Hemb Hidle H24.
  destruct (recordAll_state calls l0) as (Hc & Hts & Hr). fold l in Hc, Hts, Hr.
  assert (Hclean : requestTimestamps (cleanOldTimestamps now1 l) = calls).
  { unfold cleanOldTimestamps. cbn [requestTimestamps]. rewrite Hts, Hc, filter_app.
    rewrite filter_none, filter_all; [reflexivity| |].
    - intros t Ht. specialize (Hrecent t Ht). fold c. lia.
    - intros t Ht. specialize (Hold t Ht). fold c. lia. }
  assert (Hne : calls <> []).
  { intros ->. cbn in Hcount. lia. }
  destruct (minimum_spec calls Hne) as (oldest & Hmin & Hin & Hle).
  assert (Hfirst : acquirePermit now1 now2 l =
                   (Finite ((oldest + windowMs c) - now2), cleanOldTimestamps now1 l)).
  { unfold acquirePermit. rewrite Hclean.
    cbn [cleanOldTimestamps retryAfterMs config]. rewrite Hr, Hc. fold c.
    replace (now2 <? retryAfterMs l0) with false by lia.
    replace (maxRequests c <=? Z.of_nat (List.length calls)) with true by lia.
    rewrite Hmin. specialize (Hrecent oldest Hin).
    rewrite Z.max_r by lia. reflexivity. }
  split.
  - exists oldest. rewrite Hfirst. specialize (Hrecent oldest Hin).
    cbn [fst]. repeat split; auto. lia.
  - rewrite Hfirst. cbn [snd]. unfold acquirePermit.
    assert (Hgone : requestTimestamps (cleanOldTimestamps now3 (cleanOldTimestamps now1 l)) = []).
    { unfold cleanOldTimestamps at 1. cbn [requestTimestamps]. rewrite Hclean.
      apply filter_none. intros t Ht. specialize (Hidle t Ht).
      cbn [config cleanOldTimestamps]. rewrite Hc. fold c. lia. }
    rewrite Hgone. cbn [cleanOldTimestamps retryAfterMs config List.length Z.of_nat].
    rewrite Hr, Hc. fold c.
    replace (now4 <? retryAfterMs l0) with false by lia.
    replace (maxRequests c <=? 0) with false by lia.
    replace (approaching c 0) with false; [reflexivity|].
    symmetry. unfold approaching. apply not_true_is_false. intros Hq.
    apply Qle_bool_iff in Hq.
    assert (Hpos : (0 < inject_Z (maxRequests c) * warningThreshold c)%Q).
    { apply Qmult_lt_0_compat; [|assumption].
      change 0%Q with (inject_Z 0). rewrite <- Zlt_Qlt. assumption. }
    change (inject_Z 0) with 0%Q in Hq.
    exact (Qlt_not_le _ _ Hpos Hq).
Qed.

(** The default limiter after 100 calls in the millisecond 1000: asked at
    2000 it answers 14000, asked again at 16100 it answers 0. *)
Lemma acquirePermit_at_limit_then_idle_witness :
  fst (acquirePermit 2000 2000
         (recordAll (repeat 1000 100)
            (create {| p_maxRequests := None; p_windowMs := None;
                       p_warningThreshold := None |})))
  = Finite 14000 /\
  fst (acquirePermit 16100 16100
         (snd (acquirePermit 2000 2000
                 (recordAll (repeat 1000 100)
                    (create {| p_maxRequests := None; p_windowMs := None;
                               p_warningThreshold := None |})))))
  = Finite 0.
Proof.
  destruct (acquirePermit_at_limit_then_idle
              (create {| p_maxRequests := None; p_windowMs := None;
                         p_warningThreshold := None |})
              (repeat 1000 100) 2000 2000 16100 16100) as [Hfirst Hsecond].
  - cbn. lia.
  - reflexivity.
  - cbn. intros t [].
  - rewrite repeat_length. cbn. lia.
  - intros t Ht. apply repeat_spec in Ht. subst t. cbn. lia.
  - lia.
  - cbn. lia.
  - intros t Ht. apply repeat_spec in Ht. subst t. cbn. lia.
  - lia.
  - split; [|exact Hsecond].
    destruct Hfirst as (oldest & Hin & _ & Heq & _).
    apply repeat_spec in Hin. subst oldest. exact Heq.
Defined.

(** Outside those configurations the idle answer is not 0: with a
    [warningThreshold] of 0 an empty window is already at the threshold and
    gets the staggering delay, and with a [maxRequests] of 0 it is at the
    limit, where the oldest of no time stamps is [Infinity]. *)
Example acquirePermit_degenerate_configurations :
  fst (acquirePermit 20000 20000
         (create {| p_maxRequests := None; p_windowMs := None;
                    p_warningThreshold := Some 0%Q |}))
  = Finite 75 /\
  fst (acquirePermit 20000 20000
         (create {| p_maxRequests := Some 0; p_windowMs := None;
                    p_warningThreshold := None |}))
  = Infinite.
Proof. split; reflexivity. Qed.

End RateLimiterProofs.

Module CacheProofs.
Import Cache.

Lemma substring_length n : forall s,
  (n <= String.length s)%nat -> String.length (substring 0 n s) = n.
Proof.
  induction n as [|n IH]; intros s Hn.
  - destruct s; reflexivity.
  - destruct s as [|a s]; cbn in *; [lia|]. rewrite IH; [reflexivity|lia].
Qed.

Section KeyGeneration.

Variable localeCompare : string -> string -> Z.
Variable JSON_stringify : Params -> string.
Variable sha256_hex : string -> string.

(** [localeCompare] orders the keys: it is total, transitive, and ties
    only a key with itself. *)
Hypothesis localeCompare_total :
  forall a b, 0 < localeCompare a b -> localeCompare b a <= 0.
Hypothesis localeCompare_trans :
  forall a b c, localeCompare a b <= 0 -> localeCompare b c <= 0 ->
                localeCompare a c <= 0.
Hypothesis localeCompare_antisym :
  forall a b, localeCompare a b <= 0 -> localeCompare b a <= 0 -> a = b.

(** A SHA-256 digest in hexadecimal has 64 characters. *)
Hypothesis sha256_hex_length : forall s, String.length (sha256_hex s) = 64%nat.

Local Abbreviation sortEntries := (sortEntries localeCompare).
Local Abbreviation insertEntry := (insertEntry localeCompare).
Local Abbreviation keyLe := (keyLe localeCompare).

Lemma insertEntry_perm e : forall l, Permutation (e :: l) (insertEntry e l).
Proof.
  induction l as [|e' l IH]; cbn; [reflexivity|].
  destruct (0 <? localeCompare (fst e) (fst e')); [|reflexivity].
  rewrite perm_swap. now constructor.
Qed.

Lemma sortEntries_perm : forall l, Permutation l (sortEntries l).
Proof.
  induction l as [|e l IH]; cbn; [constructor|].
  rewrite <- insertEntry_perm. now constructor.
Qed.

Lemma insertEntry_sorted e : forall l,
  StronglySorted keyLe l -> StronglySorted keyLe (insertEntry e l).
Proof.
  induction l as [|e' l IH]; intros Hs; cbn.
  - repeat constructor.
  - inversion Hs as [|? ? Hl Hall]; subst.
    destruct (0 <? localeCompare (fst e) (fst e')) eqn:Hc.
    + constructor; [auto|].
      rewrite <- insertEntry_perm. constructor; [|assumption].
      apply localeCompare_total. lia.
    + assert (He : keyLe e e') by (unfold Cache.keyLe; lia).
      constructor; [assumption|]. constructor; [assumption|].
      eapply Forall_impl; [|exact Hall].
      intros z Hz. eapply localeCompare_trans; eassumption.
Qed.

Lemma sortEntries_sorted : forall l, StronglySorted keyLe (sortEntries l).
Proof.
  induction l as [|e l IH]; cbn; [constructor|]. now apply insertEntry_sorted.
Qed.

(** Two sorted arrangements of entries with pairwise different keys are
    the same list. *)
Lemma sorted_unique : forall l1 l2 : Params,
  NoDup (map fst l1) -> Permutation l1 l2 ->
  StronglySorted keyLe l1 -> StronglySorted keyLe l2 -> l1 = l2.
Proof.
  induction l1 as [|a l1 IH]; intros l2 Hnd Hp H1 H2.
  - apply Permutation_nil in Hp. now subst.
  - destruct l2 as [|b l2].
    + apply Permutation_sym, Permutation_nil in Hp. discriminate.
    + inversion H1 as [|? ? H1' Ha]; subst.
      inversion H2 as [|? ? H2' Hb]; subst.
      inversion Hnd as [|? ? Hnotin Hnd']; subst.
      assert (Hab : a = b).
      { assert (Hina : In a (b :: l2))
          by (eapply Permutation_in; [exact Hp|now left]).
        assert (Hinb : In b (a :: l1))
          by (eapply Permutation_in; [apply Permutation_sym; exact Hp|now left]).
        destruct Hina as [->|Hina]; [reflexivity|].
        destruct Hinb as [->|Hinb]; [reflexivity|].
        rewrite Forall_forall in Ha, Hb.
        assert (Hk : fst a = fst b)
          by (apply localeCompare_antisym; [apply Ha|apply Hb]; assumption).
        exfalso. apply Hnotin. rewrite Hk. now apply in_map. }
      subst b. f_equal. apply IH; auto.
      eapply Permutation_cons_inv; exact Hp.
Qed.

Lemma sortEntries_permutation_invariant (p1 p2 : Params) :
  NoDup (map fst p1) -> Permutation p1 p2 -> sortEntries p1 = sortEntries p2.
Proof.
  intros Hnd Hp. apply sorted_unique.
  - eapply Permutation_NoDup; [|exact Hnd].
    apply Permutation_map, sortEntries_perm.
  - rewrite <- (sortEntries_perm p1), <- (sortEntries_perm p2). exact Hp.
  - apply sortEntries_sorted.
  - apply sortEntries_sorted.
Qed.


End KeyGeneration.

Lemma codeUnitCompare_le a b :
  codeUnitCompare a b <= 0 <-> String.compare a b <> Gt.
Proof.
  unfold codeUnitCompare. destruct (String.compare a b); split; intros; try lia; congruence.
Qed.

Lemma compare_lt_trans a b c :
  String.compare a b = Lt -> String.compare b c = Lt -> String.compare a c = Lt.
Proof.
  intros H1 H2.
  apply OrderedTypeEx.String_as_OT.cmp_lt in H1, H2.
  apply OrderedTypeEx.String_as_OT.cmp_lt.
  eapply OrderedTypeEx.String_as_OT.lt_trans; eassumption.
Qed.

Lemma codeUnitCompare_total a b :
  0 < codeUnitCompare a b -> codeUnitCompare b a <= 0.
Proof.
  unfold codeUnitCompare. rewrite (String.compare_antisym a b).
  destruct (String.compare b a); cbn; lia.
Qed.

Lemma codeUnitCompare_trans a b c :
  codeUnitCompare a b <= 0 -> codeUnitCompare b c <= 0 -> codeUnitCompare a c <= 0.
Proof.
  unfold codeUnitCompare.
  destruct (String.compare a b) eqn:Hab; try lia;
  destruct (String.compare b c) eqn:Hbc; try lia; intros _ _.
  - apply String.compare_eq_iff in Hab, Hbc. subst.
    assert (H : String.compare c c = Eq)
      by (apply OrderedTypeEx.String_as_OT.cmp_eq; reflexivity).
    rewrite H. lia.
  - apply String.compare_eq_iff in Hab. subst. rewrite Hbc. lia.
  - apply String.compare_eq_iff in Hbc. subst. rewrite Hab. lia.
  - rewrite (compare_lt_trans a b c Hab Hbc). lia.
Qed.

Lemma codeUnitCompare_antisym a b :
  codeUnitCompare a b <= 0 -> codeUnitCompare b a <= 0 -> a = b.
Proof.
  unfold codeUnitCompare. rewrite (String.compare_antisym a b).
  destruct (String.compare b a) eqn:H; cbn; try lia.
  intros _ _. symmetry. now apply String.compare_eq_iff.
Qed.

Lemma toyDigest_length s : String.length (toyDigest s) = 64%nat.
Proof.
  unfold toyDigest. apply substring_length.
  induction s as [|a s IH]; cbn in *; lia.
Qed.


End CacheProofs.

Module GatewayProofs.
Import Cache Gateway ListFacts.

Lemma prefix_append a : forall b, String.prefix a (a ++ b) = true.
Proof.
  induction a as [|c a IH]; intros b; cbn.
  - now destruct b.
  - destruct (ascii_dec c c); [apply IH|congruence].
Qed.

Lemma append_assoc (a b c : string) : ((a ++ b) ++ c = a ++ (b ++ c))%string.
Proof. induction a as [|x a IH]; cbn; [reflexivity|now rewrite IH]. Qed.

Section Store.

Context {D : Type}.

(** [invalidate] keeps exactly the entries whose key does not match. *)
Lemma invalidate_slots (p : Pattern) (h : HarvestCache D) :
  lru_slots (Cache.cache (snd (invalidate p h)))
  = filter (fun s => negb (matches p (slotKey s))) (lru_slots (Cache.cache h)).
Proof.
  unfold invalidate.
  set (step := fun (acc : Z * LRUCache D) (key : string) =>
                 if matches p key then (fst acc + 1, lru_delete key (snd acc)) else acc).
  assert (Hfold : forall keys acc,
            lru_slots (snd (fold_left step keys acc))
            = filter (fun s => negb (existsb (fun k => matches p k &&
                                                String.eqb (slotKey s) k) keys))
                     (lru_slots (snd acc))).
  { induction keys as [|k keys IH]; intros acc; cbn [fold_left existsb].
    - symmetry. apply filter_all. reflexivity.
    - rewrite IH. unfold step. destruct (matches p k) eqn:Hm; cbn [snd].
      + unfold lru_delete, lru_without. cbn [lru_slots lru_with]. rewrite filter_twice.
        apply filter_ext. intros s. cbn. now rewrite negb_orb.
      + reflexivity. }
  specialize (Hfold (lru_keys (Cache.cache h)) (0, Cache.cache h)).
  destruct (fold_left step (lru_keys (Cache.cache h)) (0, Cache.cache h)) as [count c].
  cbn [snd Cache.cache] in *. rewrite Hfold.
  apply filter_ext_in. intros s Hs. f_equal.
  destruct (matches p (slotKey s)) eqn:Hm.
  - apply existsb_exists. exists (slotKey s). split.
    + unfold lru_keys. now apply in_map.
    + rewrite Hm, String.eqb_refl. reflexivity.
  - apply not_true_is_false. intros Hex. apply existsb_exists in Hex.
    destruct Hex as (k & _ & Hk). apply andb_true_iff in Hk as [Hk He].
    apply String.eqb_eq in He. congruence.
Qed.

(** A [get] writes nothing: what the store holds afterwards it held before. *)
Lemma get_slots_incl now key (h : HarvestCache D) :
  incl (lru_slots (Cache.cache (snd (Cache.get now key h))))
       (lru_slots (Cache.cache h)).
Proof.
  unfold Cache.get, lru_get.
  destruct (lru_find key (Cache.cache h)) as [s|] eqn:Hf.
  - apply find_some in Hf as [Hin _].
    destruct (lru_fresh now (Cache.cache h) s); cbn.
    + intros x [<-|Hx]; [assumption|].
      unfold lru_without in Hx. now apply filter_In in Hx.
    + intros x Hx. unfold lru_without in Hx. now apply filter_In in Hx.
  - cbn. apply incl_refl.
Qed.

End Store.

Lemma literal_char_not_slash c : isLiteralChar c = true -> Ascii.eqb c "/" = false.
Proof.
  intros H. destruct (Ascii.eqb_spec c "/"%char) as [->|]; [|reflexivity].
  discriminate H.
Qed.

Lemma splitOn_segment : forall r rest,
  regexLiteral r = true ->
  rest = EmptyString \/ (exists rest', rest = String "/" rest') ->
  exists pieces, splitOn "/" (r ++ rest) = r :: pieces.
Proof.
  induction r as [|c r IH]; intros rest Hlit Hrest.
  - destruct Hrest as [->|[rest' ->]]; cbn; eauto.
  - unfold regexLiteral in Hlit. cbn in Hlit.
    apply andb_true_iff in Hlit as [Hc Hlit].
    cbn [append splitOn]. rewrite (literal_char_not_slash c Hc).
    destruct (IH rest Hlit Hrest) as [pieces ->]. eauto.
Qed.

Lemma resourceTypeOf_under r path :
  r <> EmptyString -> regexLiteral r = true -> underResource r path ->
  resourceTypeOf path = Some r.
Proof.
  intros Hne Hlit (rest & -> & Hrest).
  unfold resourceTypeOf. cbn [splitOn]. cbn.
  destruct (splitOn_segment r rest Hlit Hrest) as [pieces ->]. cbn.
  destruct r; congruence.
Qed.

Section Client.

Context {D : Type}.
Variable localeCompare : string -> string -> Z.
Variable JSON_stringify : Params -> string.
Variable sha256_hex : string -> string.

Local Abbreviation attempts := (attempts localeCompare JSON_stringify sha256_hex).
Local Abbreviation request := (request localeCompare JSON_stringify sha256_hex).
Local Abbreviation cacheAfterSuccess :=
  (cacheAfterSuccess localeCompare JSON_stringify sha256_hex).
Local Abbreviation generateKey :=
  (Gateway.generateKey localeCompare JSON_stringify sha256_hex).

(** The three ways the retry loop ends, and what each does to the cache. *)
Lemma attempts_cache isGet path params skip :
  forall n lastError (cl : HarvestClient D) w out cl' w',
    attempts n isGet path params skip lastError cl w = (out, cl', w') ->
    (exists e, out = inl e /\ Gateway.cache cl' = Gateway.cache cl) \/
    (out = inr {| res_data := None; res_cached := false; res_cacheAge := None |} /\
     Gateway.cache cl' = Gateway.cache cl) \/
    (exists d nowMs,
        out = inr {| res_data := Some d; res_cached := false; res_cacheAge := None |} /\
        Gateway.cache cl' = cacheAfterSuccess isGet path params skip d nowMs
                              (Gateway.cache cl)).
Proof.
  induction n as [|n IH]; intros lastError cl w out cl' w' Hrun.
  - cbn in Hrun. injection Hrun as <- <- <-. left. eauto.
  - cbn [Gateway.attempts] in Hrun.
    destruct (RateLimiter.acquirePermit (now w) (now w) (rateLimiter cl))
      as [waitMs rl1].
    destruct (fetch (if positive waitMs then delay waitMs w else w))
      as [[message|response] w2].
    + apply IH in Hrun. exact Hrun.
    + destruct (status response =? 429).
      { apply IH in Hrun. exact Hrun. }
      destruct (negb (ok response)).
      { injection Hrun as <- <- <-. left. eauto. }
      destruct (status response =? 204).
      { injection Hrun as <- <- <-. right. left. auto. }
      destruct (json response) as [d|].
      * injection Hrun as <- <- <-. right. right.
        exists d, (now w2). split; reflexivity.
      * apply IH in Hrun. exact Hrun.
Qed.

Lemma key_under_resource r path params :
  underResource r path ->
  String.prefix (String "/" r) (generateKey path params) = true.
Proof.
  intros (rest & -> & _).
  unfold Gateway.generateKey, Cache.generateKey.
  cbn [append]. rewrite append_assoc.
  change (String "/" (r ++ (rest ++ ?t))%string)
    with (String "/" r ++ (rest ++ t))%string.
  cbn -[String.prefix].
  exact (prefix_append (String "/" r) _).
Qed.


End Client.

Lemma under_clients_42 : underResource "clients" "/clients/42".
Proof. exists "/42"%string. split; [reflexivity|]. right. eauto. Qed.



End GatewayProofs.

Module ResolverProofs.
Import Resolver.



Lemma ensureCache_result checkedAt fetchedAt upstream r c r1 :
  ensureCache checkedAt fetchedAt upstream r = Some (c, r1) ->
  cache r1 = Some c /\ cacheMaxAge r1 = cacheMaxAge r /\
  (if isCacheValid checkedAt r then r1 = r
   else fetched_at c = fetchedAt).
Proof.
  unfold ensureCache. destruct (isCacheValid checkedAt r) eqn:Hv.
  - destruct (cache r) as [c0|] eqn:Hc; [|discriminate].
    intros H. injection H as <- <-. auto.
  - destruct upstream as [d|]; [|discriminate]. cbn.
    intros H. injection H as <- <-. cbn. auto.
Qed.

(** What [resolve] reports as [cached] is the validity of the snapshot at
    the clock read of the re-check. *)
Lemma resolve_cached_is_recheck params checkedAt fetchedAt recheckedAt upstream r resp r1 :
  resolve params checkedAt fetchedAt recheckedAt upstream r = Some (resp, r1) ->
  exists c, ensureCache checkedAt fetchedAt upstream r = Some (c, r1) /\
            cached resp = isCacheValid recheckedAt r1.
Proof.
  unfold resolve.
  destruct (ensureCache checkedAt fetchedAt upstream r) as [[c r']|]; [|discriminate].
  intros H. injection H as <- <-. exists c. split; reflexivity.
Qed.




End ResolverProofs.

Module NumberFacts.
Import Grouping.

Lemma fold_add_shift {A} (f : A -> Q) : forall l a,
  (fold_left (fun acc x => acc + f x) l a == a + total f l)%Q.
Proof.
  unfold total. induction l as [|x l IH]; intros a; cbn [fold_left].
  - ring.
  - rewrite (IH (a + f x)%Q), (IH (0 + f x)%Q). ring.
Qed.

Lemma total_cons {A} (f : A -> Q) x l : (total f (x :: l) == f x + total f l)%Q.
Proof.
  unfold total at 1. cbn [fold_left]. rewrite fold_add_shift. ring.
Qed.

Lemma total_app {A} (f : A -> Q) l1 l2 :
  (total f (l1 ++ l2) == total f l1 + total f l2)%Q.
Proof.
  induction l1 as [|x l1 IH]; cbn [app].
  - unfold total at 2. cbn. ring.
  - rewrite !total_cons, IH. ring.
Qed.

Lemma total_perm {A} (f : A -> Q) l1 l2 :
  Permutation l1 l2 -> (total f l1 == total f l2)%Q.
Proof.
  induction 1 as [|x l l' _ IH|x y l|l l' l'' _ IH1 _ IH2].
  - reflexivity.
  - rewrite !total_cons, IH. reflexivity.
  - rewrite !total_cons. ring.
  - rewrite IH1. exact IH2.
Qed.

Lemma total_ext {A} (f g : A -> Q) l :
  (forall x, In x l -> (f x == g x)%Q) -> (total f l == total g l)%Q.
Proof.
  induction l as [|x l IH]; intros H; [reflexivity|].
  rewrite !total_cons, IH, (H x (or_introl eq_refl)); [reflexivity|].
  intros y Hy. apply H. now right.
Qed.

Lemma total_concat {A} (f : A -> Q) (ls : list (list A)) :
  (total f (List.concat ls) == total (total f) ls)%Q.
Proof.
  induction ls as [|l ls IH]; cbn [List.concat]; [reflexivity|].
  rewrite total_app, total_cons, IH. reflexivity.
Qed.

Lemma total_map {A B} (g : A -> B) (f : B -> Q) l :
  (total f (map g l) == total (fun x => f (g x)) l)%Q.
Proof.
  induction l as [|x l IH]; cbn [map]; [reflexivity|].
  rewrite !total_cons, IH. reflexivity.
Qed.

(** Rounding sees a number, not the way it is written. *)
Lemma round_comp x y : (x == y)%Q -> round x = round y.
Proof.
  intros H. unfold round. do 2 f_equal. apply Qfloor_comp. rewrite H. reflexivity.
Qed.

Lemma positive_spec x : positive x = true <-> (0 < x)%Q.
Proof.
  unfold positive. rewrite negb_true_iff. split.
  - intros H. apply Qnot_le_lt. intros Hle. apply Qle_bool_iff in Hle. congruence.
  - intros H. apply not_true_is_false. intros Hle. apply Qle_bool_iff in Hle.
    exact (Qlt_not_le _ _ H Hle).
Qed.

Lemma positive_zero x : (x == 0)%Q -> positive x = false.
Proof.
  intros H. apply not_true_is_false. intros Hp. apply positive_spec in Hp.
  rewrite H in Hp. discriminate.
Qed.

Lemma positive_comp x y : (x == y)%Q -> positive x = positive y.
Proof.
  intros H. destruct (positive y) eqn:Hy.
  - apply positive_spec. rewrite H. now apply positive_spec.
  - apply not_true_is_false. intros Hx. apply positive_spec in Hx.
    rewrite H in Hx. apply positive_spec in Hx. congruence.
Qed.

End NumberFacts.

Module ProfitabilityProofs.
Import Grouping Profitability NumberFacts.

Lemma marginPercent_comp a a' c c' :
  (a == a')%Q -> (c == c')%Q -> (marginPercent a c == marginPercent a' c')%Q.
Proof.
  intros Ha Hc. unfold marginPercent. rewrite (positive_comp a a' Ha).
  destruct (positive a'); [rewrite Ha, Hc|]; reflexivity.
Qed.

Lemma effectiveRate_comp h h' a a' :
  (h == h')%Q -> (a == a')%Q -> (effectiveRate h a == effectiveRate h' a')%Q.
Proof.
  intros Hh Ha. unfold effectiveRate. rewrite (positive_comp h h' Hh).
  destruct (positive h'); [rewrite Hh, Ha|]; reflexivity.
Qed.

Lemma costRateAvg_comp h h' c c' :
  (h == h')%Q -> (c == c')%Q -> (costRateAvg h c == costRateAvg h' c')%Q.
Proof.
  intros Hh Hc. unfold costRateAvg. rewrite (positive_comp h h' Hh).
  destruct (positive h'); [rewrite Hh, Hc|]; reflexivity.
Qed.

Lemma buildMetrics_comp h h' b b' n n' a a' c c' :
  (h == h')%Q -> (b == b')%Q -> (n == n')%Q -> (a == a')%Q -> (c == c')%Q ->
  buildMetrics h b n a c = buildMetrics h' b' n' a' c'.
Proof.
  intros Hh Hb Hn Ha Hc. unfold buildMetrics.
  rewrite (round_comp h h' Hh), (round_comp b b' Hb), (round_comp n n' Hn),
    (round_comp a a' Ha), (round_comp c c' Hc),
    (round_comp (a - c) (a' - c')) by (rewrite Ha, Hc; reflexivity).
  rewrite (round_comp _ _ (marginPercent_comp a a' c c' Ha Hc)),
    (round_comp _ _ (effectiveRate_comp b b' a a' Hb Ha)),
    (round_comp _ _ (costRateAvg_comp h h' c c' Hh Hc)).
  reflexivity.
Qed.

(** What the loop over the entries leaves in its accumulators. *)
Lemma accumulate_sums amountOf rateMap includeNonBillable : forall entries s,
  let s' := fold_left (accumulate amountOf rateMap includeNonBillable) entries s in
  (sum_hours s' == sum_hours s + total Harvest.hours entries)%Q /\
  (sum_billableHours s' ==
   sum_billableHours s
   + total (fun e => if Harvest.billable e then Harvest.hours e else 0) entries)%Q /\
  (sum_nonBillableHours s' ==
   sum_nonBillableHours s
   + total (fun e => if Harvest.billable e then 0 else Harvest.hours e) entries)%Q /\
  (sum_amount s' ==
   sum_amount s
   + total (fun e => match amountOf e with
                     | Some a => if Harvest.billable e then a else 0
                     | None => 0
                     end) entries)%Q /\
  (sum_cost s' ==
   sum_cost s
   + total (fun e => if Harvest.billable e || includeNonBillable
                     then Harvest.hours e * costRateOf rateMap e else 0) entries)%Q.
Proof.
  induction entries as [|e entries IH]; intros s; cbn zeta; cbn [fold_left].
  - unfold total; cbn. repeat split; ring.
  - destruct (IH (accumulate amountOf rateMap includeNonBillable s e))
      as (H1 & H2 & H3 & H4 & H5).
    rewrite H1, H2, H3, H4, H5, !total_cons. clear.
    unfold accumulate; cbn [sum_hours sum_billableHours sum_nonBillableHours
                              sum_amount sum_cost].
    destruct (Harvest.billable e), includeNonBillable, (amountOf e);
      cbn [orb]; repeat split; ring.
Qed.

Lemma timeBasedSums_spec entries rateMap includeNonBillable :
  let s := timeBasedSums entries rateMap includeNonBillable in
  (sum_hours s == spec_hours entries)%Q /\
  (sum_billableHours s == spec_billable_hours entries)%Q /\
  (sum_nonBillableHours s == spec_non_billable_hours entries)%Q /\
  (sum_amount s == spec_revenue entries)%Q /\
  (sum_cost s == spec_cost rateMap includeNonBillable entries)%Q.
Proof.
  destruct (accumulate_sums rateTimesHours rateMap includeNonBillable entries noSums)
    as (H1 & H2 & H3 & H4 & H5).
  cbn zeta. unfold timeBasedSums. rewrite H1, H2, H3, H4, H5.
  cbn [noSums sum_hours sum_billableHours sum_nonBillableHours sum_amount sum_cost].
  unfold spec_hours, spec_billable_hours, spec_non_billable_hours, spec_revenue,
    spec_cost, rateTimesHours, billableRateOf.
  repeat split; ring.
Qed.



End ProfitabilityProofs.

Module UtilizationProofs.
Import Grouping Utilization NumberFacts.

Lemma accumulate_total : forall entries s,
  (sum_total (fold_left accumulate entries s)
   == sum_total s + total Harvest.hours entries)%Q.
Proof.
  induction entries as [|e entries IH]; intros s; cbn [fold_left].
  - unfold total; cbn. ring.
  - rewrite IH, total_cons. unfold accumulate.
    destruct (Harvest.billable e); cbn [sum_total]; ring.
Qed.

Lemma sums_total entries : (sum_total (sums entries) == total Harvest.hours entries)%Q.
Proof. unfold sums. rewrite accumulate_total. cbn [sum_total]. ring. Qed.

(** The loop counts the days of the inclusive range that are not
    excluded. *)
Lemma countDays_spec excludeWeekends : forall left current,
  countDays left current excludeWeekends
  = Z.of_nat (List.length
                (filter (fun day => negb (excludeWeekends && isWeekend day))
                        (map (fun k => current + Z.of_nat k) (seq 0 left)))).
Proof.
  induction left as [|left IH]; intros current; [reflexivity|].
  cbn [countDays]. rewrite IH.
  rewrite <- cons_seq, <- seq_shift, map_cons, map_map. cbn [filter].
  replace (current + Z.of_nat 0) with current by lia.
  rewrite (map_ext (fun k => current + Z.of_nat (S k))
                   (fun k => current + 1 + Z.of_nat k)) by (intros; lia).
  destruct (excludeWeekends && isWeekend current); cbn [negb List.length]; lia.
Qed.



End UtilizationProofs.

Module GroupingProofs.
Import Grouping NumberFacts.

Lemma insertBy_perm {A} (after : A -> A -> bool) x : forall l,
  Permutation (x :: l) (JsArray.insertBy after x l).
Proof.
  induction l as [|y l IH]; cbn; [reflexivity|].
  destruct (after x y); [|reflexivity].
  rewrite perm_swap. now constructor.
Qed.

Lemma sortBy_perm {A} (after : A -> A -> bool) : forall l,
  Permutation l (JsArray.sortBy after l).
Proof.
  induction l as [|x l IH]; cbn; [constructor|].
  rewrite <- insertBy_perm. now constructor.
Qed.

Lemma concat_perm {A} (ls ls' : list (list A)) :
  Permutation ls ls' -> Permutation (List.concat ls) (List.concat ls').
Proof.
  induction 1 as [|l ls ls' _ IH|l1 l2 ls|ls ls' ls'' _ IH1 _ IH2]; cbn [List.concat].
  - reflexivity.
  - now apply Permutation_app_head.
  - rewrite !app_assoc. apply Permutation_app_tail, Permutation_app_comm.
  - now rewrite IH1.
Qed.

Lemma addToGroups_keys groupBy entry : forall groups,
  map group_key (addToGroups groupBy entry groups)
  = if existsb (fun k => String.eqb k (keyOf groupBy entry)) (map group_key groups)
    then map group_key groups
    else map group_key groups ++ [keyOf groupBy entry].
Proof.
  induction groups as [|g groups IH]; cbn [addToGroups map existsb].
  - unfold keyOf. destruct (getGroupKey entry groupBy) as [[key nm] gid]. reflexivity.
  - destruct (String.eqb (group_key g) (keyOf groupBy entry)); cbn [orb map group_key].
    + reflexivity.
    + rewrite IH.
      destruct (existsb (fun k => String.eqb k (keyOf groupBy entry))
                        (map group_key groups)); reflexivity.
Qed.

Lemma addToGroups_entries groupBy entry : forall groups,
  Permutation (List.concat (map group_entries (addToGroups groupBy entry groups)))
              (List.concat (map group_entries groups) ++ [entry]).
Proof.
  induction groups as [|g groups IH]; cbn [addToGroups].
  - destruct (getGroupKey entry groupBy) as [[key nm] gid]. reflexivity.
  - destruct (String.eqb (group_key g) (keyOf groupBy entry));
      cbn [map List.concat group_entries].
    + rewrite <- !app_assoc. apply Permutation_app_head, Permutation_app_comm.
    + rewrite IH, app_assoc. reflexivity.
Qed.

Lemma addToGroups_members groupBy entry : forall groups,
  (forall g, In g groups ->
             group_entries g <> [] /\
             forall e, In e (group_entries g) -> keyOf groupBy e = group_key g) ->
  forall g, In g (addToGroups groupBy entry groups) ->
            group_entries g <> [] /\
            forall e, In e (group_entries g) -> keyOf groupBy e = group_key g.
Proof.
  induction groups as [|g0 groups IH]; intros Hall g Hg; cbn [addToGroups] in Hg.
  - unfold keyOf in *. destruct (getGroupKey entry groupBy) as [[key nm] gid] eqn:Hk.
    destruct Hg as [<-|[]]. cbn. split; [discriminate|].
    intros e [<-|[]]. now rewrite Hk.
  - destruct (String.eqb (group_key g0) (keyOf groupBy entry)) eqn:Heq.
    + destruct Hg as [<-|Hg]; [|apply Hall; now right].
      cbn [group_entries group_key]. split.
      * destruct (group_entries g0); discriminate.
      * intros e He. apply in_app_or in He as [He|[<-|[]]].
        -- apply (Hall g0 (or_introl eq_refl)). exact He.
        -- apply String.eqb_eq in Heq. now symmetry.
    + destruct Hg as [<-|Hg]; [apply Hall; now left|].
      apply IH; [|exact Hg]. intros g' Hg'. apply Hall. now right.
Qed.

Lemma addToGroups_partitions groupBy entry groups entries :
  Partitions groupBy groups entries ->
  Partitions groupBy (addToGroups groupBy entry groups) (entries ++ [entry]).
Proof.
  intros (Hperm & Hnodup & Hmem). split; [|split].
  - rewrite addToGroups_entries. now apply Permutation_app_tail.
  - rewrite addToGroups_keys.
    destruct (existsb (fun k => String.eqb k (keyOf groupBy entry))
                      (map group_key groups)) eqn:Hex; [assumption|].
    apply NoDup_app; [assumption|repeat constructor; intros []|].
    intros k Hk [Hk'|[]]. subst k.
    assert (Hex' : existsb (fun k' => String.eqb k' (keyOf groupBy entry))
                     (map group_key groups) = true).
    { apply existsb_exists. exists (keyOf groupBy entry).
      split; [assumption|apply String.eqb_refl]. }
    congruence.
  - now apply addToGroups_members.
Qed.

Lemma groupEntries_partitions groupBy entries :
  Partitions groupBy (groupEntries groupBy entries) entries.
Proof.
  unfold groupEntries.
  assert (H : forall l groups l0,
            Partitions groupBy groups l0 ->
            Partitions groupBy
              (fold_left (fun gs e => addToGroups groupBy e gs) l groups) (l0 ++ l)).
  { induction l as [|e l IH]; intros groups l0 Hp; cbn [fold_left].
    - now rewrite app_nil_r.
    - replace (l0 ++ e :: l) with ((l0 ++ [e]) ++ l) by now rewrite <- app_assoc.
      apply IH. now apply addToGroups_partitions. }
  apply (H entries [] []). split; [constructor|split; [constructor|intros g []]].
Qed.

Section Tree.

Context {M C : Type}.
Variable metricsOf : GroupBy -> C -> Group -> M.
Variable handDown : GroupBy -> C -> Group -> C.
Variable sortKey : M -> Q.

Local Abbreviation build := (buildTree metricsOf handDown sortKey).

Lemma buildTree_cons primaryGroup remainingGroups context entries :
  build (primaryGroup :: remainingGroups) context entries
  = JsArray.sortBy (descending (fun n => sortKey (metrics n)))
      (map (fun groupData =>
              mkNode (groupingOf primaryGroup groupData)
                     (metricsOf primaryGroup context groupData)
                     (match remainingGroups with
                      | [] => None
                      | _ :: _ =>
                          Some (build remainingGroups
                                  (handDown primaryGroup context groupData)
                                  (group_entries groupData))
                      end)
                     (group_key groupData) (group_entries groupData))
           (groupEntries primaryGroup entries)).
Proof. reflexivity. Qed.

(** The nodes of one level are the groups of the entries, one node per
    group. *)
Lemma buildTree_level primaryGroup remainingGroups context entries c :
  In c (build (primaryGroup :: remainingGroups) context entries) ->
  exists g,
    In g (groupEntries primaryGroup entries) /\
    grouping c = groupingOf primaryGroup g /\
    metrics c = metricsOf primaryGroup context g /\
    node_key c = group_key g /\
    node_entries c = group_entries g /\
    children c = match remainingGroups with
                 | [] => None
                 | _ :: _ =>
                     Some (build remainingGroups (handDown primaryGroup context g)
                             (group_entries g))
                 end.
Proof.
  rewrite buildTree_cons. intros Hc.
  eapply Permutation_in in Hc; [|apply Permutation_sym, sortBy_perm].
  apply in_map_iff in Hc as (g & <- & Hg). exists g. cbn. auto 10.
Qed.

Lemma buildTree_partition primaryGroup remainingGroups context entries
    (n : GroupNode M) :
  node_entries n = entries ->
  ChildrenPartition n (build (primaryGroup :: remainingGroups) context entries).
Proof.
  intros Hn.
  destruct (groupEntries_partitions primaryGroup entries) as (Hperm & Hnodup & Hmem).
  set (mk := fun groupData =>
               mkNode (groupingOf primaryGroup groupData)
                      (metricsOf primaryGroup context groupData)
                      (match remainingGroups with
                       | [] => None
                       | _ :: _ =>
                           Some (build remainingGroups
                                   (handDown primaryGroup context groupData)
                                   (group_entries groupData))
                       end)
                      (group_key groupData) (group_entries groupData)).
  assert (Hsorted : Permutation (map mk (groupEntries primaryGroup entries))
                      (build (primaryGroup :: remainingGroups) context entries))
    by (rewrite buildTree_cons; apply sortBy_perm).
  split; [|split].
  - rewrite Hn, <- Hsorted, map_map. cbn [node_entries mk]. exact Hperm.
  - eapply Permutation_NoDup; [apply Permutation_map; exact Hsorted|].
    rewrite map_map. exact Hnodup.
  - exists primaryGroup. intros c Hc.
    apply buildTree_level in Hc as (g & Hg & Hgr & _ & Hk & He & _).
    rewrite Hgr, Hk, He. split; [reflexivity|]. now apply Hmem.
Qed.

(** Every node of the tree comes from a group of entries, and when it has
    children they partition its entries and come from groups as well. *)
Lemma buildTree_nodes : forall groupBy context entries n,
  In n (flat_map subnodes (build groupBy context entries)) ->
  (exists primaryGroup context' g,
      metrics n = metricsOf primaryGroup context' g /\
      node_entries n = group_entries g) /\
  forall cs, children n = Some cs ->
    ChildrenPartition n cs /\
    forall c, In c cs ->
      exists primaryGroup context' g,
        metrics c = metricsOf primaryGroup context' g /\
        node_entries c = group_entries g.
Proof.
  induction groupBy as [|primaryGroup remainingGroups IH]; intros context entries n Hn.
  - destruct Hn.
  - apply in_flat_map in Hn as (top & Htop & Hn).
    apply buildTree_level in Htop as (g & _ & _ & Hm & _ & He & Hc).
    destruct top as [gr m ch k es].
    cbn [subnodes children metrics node_entries] in Hn, Hm, He, Hc.
    destruct Hn as [<-|Hn]; cbn [children metrics node_entries].
    + split; [eauto|]. intros cs Hcs. rewrite Hc in Hcs.
      destruct remainingGroups as [|d rest]; [discriminate|].
      injection Hcs as <-. split; [now apply buildTree_partition|].
      intros c Hin. apply buildTree_level in Hin as (g' & _ & _ & Hm' & _ & He' & _).
      eauto.
    + rewrite Hc in Hn. destruct remainingGroups as [|d rest]; [destruct Hn|].
      eapply IH. exact Hn.
Qed.

End Tree.

(** A quantity that is a sum over records adds up over a partition. *)
Lemma overChildren_additive {M} (f : list Harvest.TimeEntry -> Q)
    (g : Harvest.TimeEntry -> Q) (n : GroupNode M) cs :
  (forall l, (f l == total g l)%Q) ->
  ChildrenPartition n cs ->
  (overChildren f cs == f (node_entries n))%Q.
Proof.
  intros Hf (Hperm & _). unfold overChildren.
  rewrite (total_ext _ (fun c => total g (node_entries c))) by (intros; apply Hf).
  rewrite <- (total_map node_entries (total g)), <- total_concat.
  rewrite (total_perm g _ _ Hperm). symmetry. apply Hf.
Qed.

Lemma children_count {M} (n : GroupNode M) cs :
  ChildrenPartition n cs ->
  Z.of_nat (List.length (node_entries n))
  = fold_right Z.add 0 (map (fun c => Z.of_nat (List.length (node_entries c))) cs).
Proof.
  intros (Hperm & _). rewrite <- (Permutation_length Hperm). clear.
  induction cs as [|c cs IH]; cbn [map List.concat fold_right List.length];
    [reflexivity|].
  rewrite length_app, Nat2Z.inj_add, IH. reflexivity.
Qed.

End GroupingProofs.

Module TreeProofs.
Import Grouping NumberFacts GroupingProofs.

Lemma aggregation_sums : forall entries s,
  let s' := fold_left Aggregation.accumulate entries s in
  (Aggregation.sum_hours s' == Aggregation.sum_hours s + total Harvest.hours entries)%Q /\
  (Aggregation.sum_roundedHours s' ==
   Aggregation.sum_roundedHours s + total Harvest.rounded_hours entries)%Q /\
  (Aggregation.sum_billableHours s' ==
   Aggregation.sum_billableHours s
   + total (fun e => if Harvest.billable e then Harvest.hours e else 0) entries)%Q /\
  (Aggregation.sum_nonBillableHours s' ==
   Aggregation.sum_nonBillableHours s
   + total (fun e => if Harvest.billable e then 0 else Harvest.hours e) entries)%Q /\
  (Aggregation.sum_billableAmount s' ==
   Aggregation.sum_billableAmount s
   + total (fun e => if Harvest.billable e
                     then Harvest.hours e * Profitability.billableRateOf e
                     else 0) entries)%Q.
Proof.
  induction entries as [|e entries IH]; intros s; cbn zeta; cbn [fold_left].
  - unfold total; cbn. repeat split; ring.
  - destruct (IH (Aggregation.accumulate s e)) as (H1 & H2 & H3 & H4 & H5).
    rewrite H1, H2, H3, H4, H5, !total_cons. clear.
    unfold Aggregation.accumulate, Profitability.billableRateOf.
    destruct (Harvest.billable e);
      cbn [Aggregation.sum_hours Aggregation.sum_roundedHours
             Aggregation.sum_billableHours Aggregation.sum_nonBillableHours
             Aggregation.sum_billableAmount];
      repeat split; ring.
Qed.

Lemma aggregation_sums_total entries :
  let s := Aggregation.sums entries in
  (Aggregation.sum_hours s == total Harvest.hours entries)%Q /\
  (Aggregation.sum_roundedHours s == total Harvest.rounded_hours entries)%Q /\
  (Aggregation.sum_billableHours s ==
   total (fun e => if Harvest.billable e then Harvest.hours e else 0) entries)%Q /\
  (Aggregation.sum_nonBillableHours s ==
   total (fun e => if Harvest.billable e then 0 else Harvest.hours e) entries)%Q /\
  (Aggregation.sum_billableAmount s ==
   total (fun e => if Harvest.billable e
                   then Harvest.hours e * Profitability.billableRateOf e
                   else 0) entries)%Q.
Proof.
  destruct (aggregation_sums entries Aggregation.noSums) as (H1 & H2 & H3 & H4 & H5).
  cbn zeta. unfold Aggregation.sums. rewrite H1, H2, H3, H4, H5.
  cbn. repeat split; ring.
Qed.

Lemma aggregation_groupResults_buildTree : forall groupBy entries,
  Aggregation.groupResults groupBy entries
  = buildTree (fun _ _ g => Aggregation.calculateMetrics (group_entries g))
      (fun _ (c : unit) _ => c) Aggregation.hours groupBy tt entries.
Proof.
  induction groupBy as [|d rest IH]; intros entries; [reflexivity|].
  cbn [Aggregation.groupResults buildTree]. f_equal.
  apply map_ext. intros g. f_equal.
  destruct rest; [reflexivity|]. f_equal. apply IH.
Qed.

Lemma profitability_groupResults_buildTree mode rateMap includeNonBillable :
  forall groupBy entries invoices,
    Profitability.groupResults groupBy entries invoices mode rateMap includeNonBillable
    = buildTree
        (fun d inv g =>
           fst (Profitability.calculateByMode mode (group_entries g)
                  (Profitability.groupInvoices d inv g) rateMap includeNonBillable []))
        (fun d inv g => Profitability.groupInvoices d inv g)
        Profitability.billable_amount groupBy invoices entries.
Proof.
  induction groupBy as [|d rest IH]; intros entries invoices; [reflexivity|].
  cbn [Profitability.groupResults buildTree]. f_equal.
  apply map_ext. intros g. f_equal.
  destruct rest; [reflexivity|]. f_equal. apply IH.
Qed.

(** C2, as the code has it.  In the trees of [groupResults] the children
    of a node partition the node's record set: every record of the node
    is in exactly one child, the children have different keys and none is
    empty.  The sums the metrics are computed from add up over the
    children: the entry count, and before the rounding to 2 decimals the
    hours, rounded hours, billable and non-billable hours, time-based
    amount and cost. *)
Theorem groupResults_children_partition :
  (forall groupBy entries n,
      In n (flat_map subnodes (Aggregation.groupResults groupBy entries)) ->
      metrics n = Aggregation.calculateMetrics (node_entries n) /\
      forall cs, children n = Some cs ->
        ChildrenPartition n cs /\
        Aggregation.entry_count (metrics n)
        = fold_right Z.add 0 (map (fun c => Aggregation.entry_count (metrics c)) cs) /\
        (overChildren (fun l => Aggregation.sum_hours (Aggregation.sums l)) cs
         == Aggregation.sum_hours (Aggregation.sums (node_entries n)))%Q /\
        (overChildren (fun l => Aggregation.sum_roundedHours (Aggregation.sums l)) cs
         == Aggregation.sum_roundedHours (Aggregation.sums (node_entries n)))%Q /\
        (overChildren (fun l => Aggregation.sum_billableHours (Aggregation.sums l)) cs
         == Aggregation.sum_billableHours (Aggregation.sums (node_entries n)))%Q /\
        (overChildren (fun l => Aggregation.sum_nonBillableHours (Aggregation.sums l)) cs
         == Aggregation.sum_nonBillableHours (Aggregation.sums (node_entries n)))%Q /\
        (overChildren (fun l => Aggregation.sum_billableAmount (Aggregation.sums l)) cs
         == Aggregation.sum_billableAmount (Aggregation.sums (node_entries n)))%Q) /\
  (forall groupBy entries invoices mode rateMap includeNonBillable n,
      In n (flat_map subnodes
              (Profitability.groupResults groupBy entries invoices mode rateMap
                 includeNonBillable)) ->
      (exists groupInvoices,
          metrics n = fst (Profitability.calculateByMode mode (node_entries n)
                             groupInvoices rateMap includeNonBillable [])) /\
      forall cs, children n = Some cs ->
        ChildrenPartition n cs /\
        (overChildren Profitability.spec_hours cs
         == Profitability.spec_hours (node_entries n))%Q /\
        (overChildren Profitability.spec_billable_hours cs
         == Profitability.spec_billable_hours (node_entries n))%Q /\
        (overChildren Profitability.spec_non_billable_hours cs
         == Profitability.spec_non_billable_hours (node_entries n))%Q /\
        (overChildren Profitability.spec_revenue cs
         == Profitability.spec_revenue (node_entries n))%Q /\
        (overChildren (Profitability.spec_cost rateMap includeNonBillable) cs
         == Profitability.spec_cost rateMap includeNonBillable (node_entries n))%Q).
Proof.
  split.
  - intros groupBy entries n Hn.
    rewrite aggregation_groupResults_buildTree in Hn.
    apply buildTree_nodes in Hn as ((d & ctx & g & Hm & He) & Hchildren).
    split; [rewrite Hm, He; reflexivity|].
    intros cs Hcs. destruct (Hchildren cs Hcs) as (Hpart & Hfrom).
    split; [exact Hpart|]. split.
    + rewrite Hm. cbn [Aggregation.calculateMetrics Aggregation.entry_count].
      rewrite <- He, (children_count n cs Hpart). f_equal.
      apply map_ext_in. intros c Hc.
      destruct (Hfrom c Hc) as (d' & ctx' & g' & -> & ->). reflexivity.
    + repeat match goal with |- _ /\ _ => split end.
      * apply (overChildren_additive
                 (fun l => Aggregation.sum_hours (Aggregation.sums l))
                 Harvest.hours n cs); [|exact Hpart].
        intros l. apply (aggregation_sums_total l).
      * apply (overChildren_additive
                 (fun l => Aggregation.sum_roundedHours (Aggregation.sums l))
                 Harvest.rounded_hours n cs); [|exact Hpart].
        intros l. apply (aggregation_sums_total l).
      * apply (overChildren_additive
                 (fun l => Aggregation.sum_billableHours (Aggregation.sums l))
                 (fun e => if Harvest.billable e then Harvest.hours e else 0%Q) n cs);
          [|exact Hpart].
        intros l. apply (aggregation_sums_total l).
      * apply (overChildren_additive
                 (fun l => Aggregation.sum_nonBillableHours (Aggregation.sums l))
                 (fun e => if Harvest.billable e then 0%Q else Harvest.hours e) n cs);
          [|exact Hpart].
        intros l. apply (aggregation_sums_total l).
      * apply (overChildren_additive
                 (fun l => Aggregation.sum_billableAmount (Aggregation.sums l))
                 (fun e => if Harvest.billable e
                           then (Harvest.hours e * Profitability.billableRateOf e)%Q
                           else 0%Q) n cs); [|exact Hpart].
        intros l. apply (aggregation_sums_total l).
  - intros groupBy entries invoices mode rateMap includeNonBillable n Hn.
    rewrite profitability_groupResults_buildTree in Hn.
    apply buildTree_nodes in Hn as ((d & ctx & g & Hm & He) & Hchildren).
    split; [rewrite Hm, He; eauto|].
    intros cs Hcs. destruct (Hchildren cs Hcs) as (Hpart & _).
    split; [exact Hpart|].
    repeat match goal with |- _ /\ _ => split end.
    + apply (overChildren_additive Profitability.spec_hours Harvest.hours n cs);
        [intros l; reflexivity|exact Hpart].
    + apply (overChildren_additive Profitability.spec_billable_hours
               (fun e => if Harvest.billable e then Harvest.hours e else 0%Q) n cs);
        [intros l; reflexivity|exact Hpart].
    + apply (overChildren_additive Profitability.spec_non_billable_hours
               (fun e => if Harvest.billable e then 0%Q else Harvest.hours e) n cs);
        [intros l; reflexivity|exact Hpart].
    + apply (overChildren_additive Profitability.spec_revenue
               (fun e => if Harvest.billable e
                         then (Harvest.hours e * Profitability.billableRateOf e)%Q
                         else 0%Q) n cs);
        [intros l; reflexivity|exact Hpart].
    + apply (overChildren_additive
               (Profitability.spec_cost rateMap includeNonBillable)
               (fun e => if Harvest.billable e || includeNonBillable
                         then (Harvest.hours e * Profitability.costRateOf rateMap e)%Q
                         else 0%Q) n cs);
        [intros l; reflexivity|exact Hpart].
Qed.

(** Two entries of one client on two projects, in either calculator:
    the client node has the two project nodes as children, and they
    partition its two entries. *)
Lemma groupResults_children_partition_witness :
  (exists n cs,
      Aggregation.groupResults [client; project]
        [Profitability.oddMinutes 1; Profitability.oddMinutes 2] = [n] /\
      children n = Some cs /\
      ChildrenPartition n cs /\
      Aggregation.entry_count (metrics n)
      = fold_right Z.add 0 (map (fun c => Aggregation.entry_count (metrics c)) cs)) /\
  (exists n cs,
      Profitability.groupResults [client; project]
        [Profitability.tenHours 1; Profitability.tenHours 2] []
        Profitability.time_based [] false = [n] /\
      children n = Some cs /\
      ChildrenPartition n cs /\
      (overChildren Profitability.spec_revenue cs
       == Profitability.spec_revenue (node_entries n))%Q).
Proof.
  split.
  - eexists. eexists. split; [reflexivity|]. split; [reflexivity|].
    match goal with
    | |- ChildrenPartition ?n ?cs /\ _ =>
        destruct (proj1 groupResults_children_partition [client; project]
                    [Profitability.oddMinutes 1; Profitability.oddMinutes 2] n
                    (or_introl eq_refl)) as [_ H];
        destruct (H cs eq_refl) as (Hpart & Hcount & _)
    end.
    split; [exact Hpart|exact Hcount].
  - eexists. eexists. split; [reflexivity|]. split; [reflexivity|].
    match goal with
    | |- ChildrenPartition ?n ?cs /\ _ =>
        destruct (proj2 groupResults_children_partition [client; project]
                    [Profitability.tenHours 1; Profitability.tenHours 2] []
                    Profitability.time_based [] false n
                    (or_introl eq_refl)) as [_ H];
        destruct (H cs eq_refl) as (Hpart & _ & _ & _ & Hrevenue & _)
    end.
    split; [exact Hpart|exact Hrevenue].
Defined.

(** C2 as the spec words it fails for the reported metrics.  Two entries
    of 0.33 hours at a rate of 100.02 on two projects of one client: each
    project node reports a billable amount of 33.01, the client node
    66.01.  Two records of 10 hours at a rate of 100 and a cost rate of
    50 on two projects: each project node reports a margin of 50 percent,
    and so does the client node. *)
Lemma groupResults_metrics_counterexample :
  (exists n c1 c2,
      Aggregation.groupResults [client; project]
        [Profitability.oddMinutes 1; Profitability.oddMinutes 2] = [n] /\
      children n = Some [c1; c2] /\
      (Aggregation.billable_amount (metrics n) == 6601 # 100)%Q /\
      (Aggregation.billable_amount (metrics c1) == 3301 # 100)%Q /\
      (Aggregation.billable_amount (metrics c2) == 3301 # 100)%Q /\
      ~ (Aggregation.billable_amount (metrics c1)
         + Aggregation.billable_amount (metrics c2)
         == Aggregation.billable_amount (metrics n))%Q) /\
  (exists n c1 c2,
      Profitability.groupResults [client; project]
        [Profitability.tenHours 1; Profitability.tenHours 2] []
        Profitability.time_based [] false = [n] /\
      children n = Some [c1; c2] /\
      (Profitability.margin_percent (metrics n) == 50)%Q /\
      (Profitability.margin_percent (metrics c1) == 50)%Q /\
      (Profitability.margin_percent (metrics c2) == 50)%Q /\
      ~ (Profitability.margin_percent (metrics c1)
         + Profitability.margin_percent (metrics c2)
         == Profitability.margin_percent (metrics n))%Q).
Proof.
  split.
  - eexists. eexists. eexists. split; [reflexivity|]. split; [reflexivity|].
    split; [reflexivity|]. split; [reflexivity|]. split; [reflexivity|].
    intros H. vm_compute in H. discriminate H.
  - eexists. eexists. eexists. split; [reflexivity|]. split; [reflexivity|].
    split; [reflexivity|]. split; [reflexivity|]. split; [reflexivity|].
    intros H. vm_compute in H. discriminate H.
Qed.

End TreeProofs.

(* ================================================================== *)
(** * Auto-pagination: what a run collects *)
(* ================================================================== *)

Module PaginateRuns.
Import Paginate.

Lemma last_default {A} (l : list A) x d d' : last (x :: l) d = last (x :: l) d'.
Proof.
  revert x. induction l as [|y l IH]; intros x; [reflexivity|].
  change (last (y :: l) d = last (y :: l) d'). apply IH.
Qed.

Lemma last_cons {A} (l : list A) x d : last (x :: l) d = last l x.
Proof.
  destruct l as [|y l]; [reflexivity|].
  change (last (y :: l) d = last (y :: l) x). apply last_default.
Qed.

Section Runs.

Variables T Err St P M : Type.
Variable endpoint : P -> Z -> Z -> St -> (Err + PaginatedResponse T) * St.
Variable resetApiCallCount : St -> St.
Variable buildMeta : bool -> St -> M.

(** The loop invariant: the responses [rs] received from a loop state
    on, in order. *)
Lemma loop_collects params maxPages perPage onPage :
  forall fuel (s s' : LoopState T St) st',
    loop endpoint fuel params maxPages perPage onPage s = Some (inr s', st') ->
    exists rs,
      allItems s' = allItems s ++ flat_map itemsOf rs /\
      totalEntries s' = last (map total_entries rs) (totalEntries s) /\
      (forall i r, nth_error rs i = Some r ->
         page s + Z.of_nat i <= maxPages /\
         exists st0 st1,
           endpoint params (page s + Z.of_nat i) perPage st0 = (inr r, st1)) /\
      ((Forall (fun r => next_page r <> None) rs /\
        page s' = page s + Z.of_nat (List.length rs)) \/
       (exists rs0 r,
           rs = rs0 ++ [r] /\ next_page r = None /\
           Forall (fun r => next_page r <> None) rs0 /\
           page s' = page s + Z.of_nat (List.length rs0))).
Proof.
  induction fuel as [|fuel IH]; intros s s' st' Hrun; [discriminate|].
  cbn [loop] in Hrun.
  destruct (guard maxPages s) eqn:Hguard.
  - unfold body in Hrun.
    destruct (endpoint params (page s) perPage (world s)) as [[e|r] st1] eqn:Hfetch;
      [discriminate|].
    destruct (next_page r) as [nxt|] eqn:Hnext.
    + apply IH in Hrun. destruct Hrun as (rs & Hitems & Htotal & Hpages & Hend).
      cbn [allItems totalEntries page] in *.
      exists (r :: rs). split; [|split; [|split]].
      * rewrite Hitems. cbn [flat_map]. now rewrite app_assoc.
      * rewrite Htotal. cbn [map]. symmetry. apply last_cons.
      * intros [|i] r' Hi.
        -- cbn in Hi. injection Hi as <-. rewrite Z.add_0_r. split.
           ++ now apply PaginateProofs.guard_page.
           ++ eauto.
        -- cbn [nth_error] in Hi. destruct (Hpages i r' Hi) as (Hle & st0 & st2 & Hf).
           replace (page s + Z.of_nat (S i)) with (page s + 1 + Z.of_nat i) by lia.
           eauto.
      * destruct Hend as [(Hall & Hpage) | (rs0 & r' & -> & Hlast & Hall & Hpage)].
        -- left. split.
           ++ constructor; [congruence | exact Hall].
           ++ rewrite Hpage. cbn [List.length]. lia.
        -- right. exists (r :: rs0), r'. repeat split; try assumption.
           ++ constructor; [congruence | exact Hall].
           ++ rewrite Hpage. cbn [List.length]. lia.
    + injection Hrun as <- <-. cbn [allItems totalEntries page].
      exists [r]. split; [|split; [|split]].
      * cbn. now rewrite app_nil_r.
      * reflexivity.
      * intros [|[|i]] r' Hi; try discriminate.
        cbn in Hi. injection Hi as <-. rewrite Z.add_0_r. split.
        -- now apply PaginateProofs.guard_page.
        -- eauto.
      * right. exists [], r. repeat split; try assumption; [constructor | cbn; lia].
  - injection Hrun as <- <-. exists []. split; [|split; [|split]].
    + cbn. now rewrite app_nil_r.
    + reflexivity.
    + intros [|i] r Hi; discriminate.
    + left. split; [constructor | cbn; lia].
Qed.

(** X1.  What a successful [autoPaginate] returns.  There are responses
    [rs], at most [maxPages] of them, the i-th being an answer of the
    endpoint to the request for page i (counted from 1) with the chosen
    page size, such that [items] is the concatenation of their item
    arrays in page order and [total_entries] is the one the last of them
    reports (0 when no page was fetched).  Every response but the last
    names a next page.  When the last one names none, [pages_fetched] is
    the number of pages fetched; when it names one, so that the loop ended
    at its guard, [pages_fetched] is that number plus one. *)
Theorem autoPaginate_collects_the_pages params options st res st' :
  autoPaginate endpoint resetApiCallCount buildMeta params options st
  = Some (inr res, st') ->
  exists rs,
    items res = flat_map itemsOf rs /\
    Z.of_nat (List.length rs) <= Z.max 0 (maxPagesOf options) /\
    (forall i r, nth_error rs i = Some r ->
       exists st0 st1,
         endpoint params (Z.of_nat i + 1) (perPageOf options) st0 = (inr r, st1)) /\
    res_total_entries res = last (map total_entries rs) 0 /\
    ((Forall (fun r => next_page r <> None) rs /\
      pages_fetched res = Z.of_nat (List.length rs) + 1) \/
     (exists rs0 r,
         rs = rs0 ++ [r] /\ next_page r = None /\
         Forall (fun r => next_page r <> None) rs0 /\
         pages_fetched res = Z.of_nat (List.length rs))).
Proof.
  unfold autoPaginate. intros Hrun.
  destruct (loop endpoint (S (Z.to_nat (maxPagesOf options))) params
              (maxPagesOf options) (perPageOf options) (opt_onPage options)
              (initial resetApiCallCount st)) as [[[e|s'] st1]|] eqn:Hloop;
    try discriminate.
  cbn in Hrun. injection Hrun as <- <-.
  apply loop_collects in Hloop.
  destruct Hloop as (rs & Hitems & Htotal & Hpages & Hend).
  cbn [initial allItems totalEntries page] in *.
  exists rs. cbn [items res_total_entries pages_fetched].
  split; [exact Hitems|]. split; [|split; [|split]].
  - destruct rs as [|r0 rs'] using rev_ind; [cbn; lia|].
    destruct (Hpages (List.length rs') r0) as [Hle _].
    { rewrite nth_error_app2 by lia. now rewrite Nat.sub_diag. }
    rewrite length_app. cbn [List.length]. lia.
  - intros i r Hi. destruct (Hpages i r Hi) as (_ & st0 & st2 & Hf).
    exists st0, st2. now rewrite Z.add_comm.
  - exact Htotal.
  - destruct Hend as [(Hall & Hpage) | (rs0 & r & -> & Hlast & Hall & Hpage)].
    + left. split; [exact Hall | lia].
    + right. exists rs0, r. repeat split; try assumption.
      rewrite Hpage, length_app. cbn [List.length]. lia.
Qed.

(** With [maxPages] zero or negative the endpoint is never called:
    the call succeeds with no items, [total_entries] 0 and
    [pages_fetched] 1, and the state is the one after resetting the call
    counter. *)
Theorem autoPaginate_without_pages params options st :
  maxPagesOf options <= 0 ->
  autoPaginate endpoint resetApiCallCount buildMeta params options st
  = Some (inr {| items := []; res_total_entries := 0; pages_fetched := 1;
                 _meta := buildMeta false (resetApiCallCount st) |},
          resetApiCallCount st).
Proof.
  intros Hmax. unfold autoPaginate. cbn [loop].
  replace (guard (maxPagesOf options) (initial resetApiCallCount st)) with false.
  - reflexivity.
  - unfold guard, initial. cbn [page totalPages].
    symmetry. apply andb_false_intro1. apply Z.leb_gt. lia.
Qed.

End Runs.

Lemma autoPaginate_collects_the_pages_witness :
  exists rs,
    items {| items := [1; 2; 3; 4; 5]; res_total_entries := 5; pages_fetched := 3;
             _meta := tt |} = flat_map itemsOf rs /\
    Z.of_nat (List.length rs) <= Z.max 0 (maxPagesOf Samples.perPage2) /\
    (forall i r, nth_error rs i = Some r ->
       exists st0 st1,
         fakeSource 5 tt (Z.of_nat i + 1) (perPageOf Samples.perPage2) st0
         = (inr r, st1)) /\
    res_total_entries {| items := [1; 2; 3; 4; 5]; res_total_entries := 5;
                         pages_fetched := 3; _meta := tt |}
    = last (map total_entries rs) 0 /\
    ((Forall (fun r => next_page r <> None) rs /\
      pages_fetched {| items := [1; 2; 3; 4; 5]; res_total_entries := 5;
                       pages_fetched := 3; _meta := tt |}
      = Z.of_nat (List.length rs) + 1) \/
     (exists rs0 r,
         rs = rs0 ++ [r] /\ next_page r = None /\
         Forall (fun r => next_page r <> None) rs0 /\
         pages_fetched {| items := [1; 2; 3; 4; 5]; res_total_entries := 5;
                          pages_fetched := 3; _meta := tt |}
         = Z.of_nat (List.length rs))).
Proof.
  exact (autoPaginate_collects_the_pages Z string nat unit unit (fakeSource 5)
           (fun n => n) (fun _ _ => tt) tt Samples.perPage2 0%nat
           {| items := [1; 2; 3; 4; 5]; res_total_entries := 5; pages_fetched := 3;
              _meta := tt |} 3%nat eq_refl).
Defined.

Lemma autoPaginate_without_pages_witness :
  autoPaginate (fakeSource 250) (fun n => n) (fun _ _ => tt) tt Samples.maxPages0 7%nat
  = Some (inr {| items := []; res_total_entries := 0; pages_fetched := 1;
                 _meta := tt |}, 7%nat).
Proof.
  apply (autoPaginate_without_pages Z string nat unit unit (fakeSource 250)
           (fun n => n) (fun _ _ => tt) tt Samples.maxPages0 7%nat).
  cbn. lia.
Defined.

End PaginateRuns.

(* ================================================================== *)
(** * Rate limiter: permits, embargo and status *)
(* ================================================================== *)

Module RateLimiterBounds.
Import RateLimiter.

(** The number of recorded requests that are younger than the window at
    clock value [now]. *)
Local Abbreviation inWindow now l :=
  (Z.of_nat (List.length (requestTimestamps (cleanOldTimestamps now l)))).

Lemma cleanOldTimestamps_young now l t :
  In t (requestTimestamps (cleanOldTimestamps now l)) ->
  now - windowMs (config l) < t.
Proof.
  unfold cleanOldTimestamps. cbn [requestTimestamps]. intros Hin.
  apply filter_In in Hin. destruct Hin as [_ Hlt]. now apply Z.ltb_lt in Hlt.
Qed.

Lemma minimum_none l : minimum l = None -> l = [].
Proof.
  destruct l as [|t rest]; [reflexivity|]. cbn.
  destruct (minimum rest); discriminate.
Qed.

Lemma stagger_nonneg (w remaining : Z) :
  0 <= w -> 0 < remaining ->
  0 <= Qfloor (inject_Z w / inject_Z remaining / inject_Z 2).
Proof.
  intros Hw Hr.
  change 0 with (Qfloor (inject_Z 0)) at 1.
  apply Qfloor_resp_le.
  unfold Qdiv. apply Qmult_le_0_compat; [apply Qmult_le_0_compat|].
  - change 0%Q with (inject_Z 0). now rewrite <- Zle_Qle.
  - apply Qinv_le_0_compat. change 0%Q with (inject_Z 0). rewrite <- Zle_Qle. lia.
  - discriminate.
Qed.

(** [acquirePermit] changes the limiter by pruning only. *)
Lemma acquirePermit_prunes now1 now2 l :
  snd (acquirePermit now1 now2 l) = cleanOldTimestamps now1 l.
Proof.
  unfold acquirePermit.
  destruct (now2 <? _); [reflexivity|].
  destruct (_ <=? _).
  - destruct (minimum _); reflexivity.
  - destruct (approaching _ _); reflexivity.
Qed.

(** X2.  A permit without a wait is granted only below the limit.  When
    [acquirePermit] answers 0 (both clock reads giving the same value),
    no Retry-After period is running and fewer than [maxRequests]
    requests were recorded within the window, so that the window holds at
    most [maxRequests] once the request is recorded. *)
Theorem acquirePermit_zero_wait_below_limit now l :
  fst (acquirePermit now now l) = Finite 0 ->
  retryAfterMs l <= now /\
  inWindow now l < maxRequests (config l) /\
  Z.of_nat (List.length
              (requestTimestamps (recordRequest now (snd (acquirePermit now now l)))))
  <= maxRequests (config l).
Proof.
  rewrite acquirePermit_prunes. unfold acquirePermit.
  set (l1 := cleanOldTimestamps now l).
  assert (Hcfg : config l1 = config l) by reflexivity.
  assert (Hretry : retryAfterMs l1 = retryAfterMs l) by reflexivity.
  rewrite Hcfg, Hretry.
  assert (Hrecorded : List.length (requestTimestamps (recordRequest now l1))
                      = S (List.length (requestTimestamps l1))).
  { cbn [recordRequest requestTimestamps]. rewrite length_app. cbn [List.length]. lia. }
  rewrite Hrecorded.
  destruct (now <? retryAfterMs l) eqn:Hembargo.
  - cbn [fst]. intros H. injection H as H. apply Z.ltb_lt in Hembargo. lia.
  - apply Z.ltb_ge in Hembargo.
    destruct (maxRequests (config l) <=? Z.of_nat (List.length (requestTimestamps l1)))
      eqn:Hlimit.
    + destruct (minimum (requestTimestamps l1)) as [oldest|] eqn:Hmin.
      * cbn [fst]. intros H. injection H as H. exfalso.
        destruct (requestTimestamps l1) as [|t rest] eqn:Hts; [discriminate|].
        destruct (RateLimiterProofs.minimum_spec (t :: rest)) as (m & Hm & Hin & _);
          [discriminate|].
        rewrite Hmin in Hm. injection Hm as <-.
        rewrite <- Hts in Hin. apply cleanOldTimestamps_young in Hin. lia.
      * discriminate.
    + apply Z.leb_gt in Hlimit. intros _. lia.
Qed.

(** X3.  A 429 answer opens a Retry-After period.  From
    [handleRateLimit] on, and whatever requests are recorded meanwhile,
    [acquirePermit] answers the time left of the period while the clock
    is before its end, and this is positive. *)
Theorem acquirePermit_during_retry_after now retryAfterSeconds calls now1 now2 l :
  now2 < now + retryAfterSeconds * 1000 ->
  fst (acquirePermit now1 now2 (recordAll calls (handleRateLimit now retryAfterSeconds l)))
  = Finite (now + retryAfterSeconds * 1000 - now2) /\
  0 < now + retryAfterSeconds * 1000 - now2.
Proof.
  intros Hbefore. split; [|lia].
  unfold acquirePermit.
  destruct (RateLimiterProofs.recordAll_state calls
              (handleRateLimit now retryAfterSeconds l)) as (_ & _ & Hretry).
  assert (Hclean : retryAfterMs
                     (cleanOldTimestamps now1
                        (recordAll calls (handleRateLimit now retryAfterSeconds l)))
                   = now + retryAfterSeconds * 1000).
  { cbn [cleanOldTimestamps retryAfterMs]. rewrite Hretry. reflexivity. }
  rewrite Hclean.
  replace (now2 <? now + retryAfterSeconds * 1000) with true
    by (symmetry; apply Z.ltb_lt; lia).
  reflexivity.
Qed.

(** X4.  Waits are never negative, and short below the limit.  With a
    window size that is not negative, a finite answer of [acquirePermit]
    is at least 0; it is at most 500 ms when no Retry-After period is
    running and the window is below the limit; and the answer is
    infinite only when [maxRequests] is zero or negative. *)
Theorem acquirePermit_wait_bounds now1 now2 l :
  0 <= windowMs (config l) ->
  match fst (acquirePermit now1 now2 l) with
  | Finite ms =>
      0 <= ms /\
      (retryAfterMs l <= now2 -> inWindow now1 l < maxRequests (config l) -> ms <= 500)
  | Infinite => maxRequests (config l) <= 0
  end.
Proof.
  intros Hwindow. unfold acquirePermit.
  set (l1 := cleanOldTimestamps now1 l).
  assert (Hcfg : config l1 = config l) by reflexivity.
  assert (Hretry : retryAfterMs l1 = retryAfterMs l) by reflexivity.
  rewrite Hcfg, Hretry.
  destruct (now2 <? retryAfterMs l) eqn:Hembargo.
  - apply Z.ltb_lt in Hembargo. cbn [fst]. split; lia.
  - destruct (maxRequests (config l) <=? Z.of_nat (List.length (requestTimestamps l1)))
      eqn:Hlimit.
    + apply Z.leb_le in Hlimit.
      destruct (minimum (requestTimestamps l1)) as [oldest|] eqn:Hmin; cbn [fst].
      * split; [lia|]. intros _ Hbelow. lia.
      * apply minimum_none in Hmin. rewrite Hmin in Hlimit. cbn in Hlimit. lia.
    + apply Z.leb_gt in Hlimit.
      destruct (approaching (config l) _); cbn [fst].
      * split; [|lia].
        apply Z.min_glb; [|lia]. apply stagger_nonneg; lia.
      * split; lia.
Qed.

(** X5.  [getStatus] and [acquirePermit] agree.  Read at the same clock
    values, both leave the limiter pruned in the same way; [total] is
    [maxRequests], [remaining] is what is left of it after the requests
    of the window and never negative, [resetMs] is never negative; and,
    for a limit that is not negative and a threshold of at most 1, a
    status that is not throttled means that requests are left and that
    the next permit is granted without a wait. *)
Theorem getStatus_agrees_with_acquirePermit now1 now2 l :
  0 <= maxRequests (config l) ->
  (warningThreshold (config l) <= 1)%Q ->
  let status := fst (getStatus now1 now2 l) in
  snd (getStatus now1 now2 l) = snd (acquirePermit now1 now2 l) /\
  total status = maxRequests (config l) /\
  remaining status = Z.max 0 (maxRequests (config l) - inWindow now1 l) /\
  0 <= resetMs status /\
  (isThrottled status = false ->
   0 < remaining status /\ fst (acquirePermit now1 now2 l) = Finite 0).
Proof.
  intros Hmax Hthreshold status.
  unfold status, getStatus, acquirePermit.
  set (l1 := cleanOldTimestamps now1 l).
  assert (Hcfg : config l1 = config l) by reflexivity.
  assert (Hretry : retryAfterMs l1 = retryAfterMs l) by reflexivity.
  rewrite Hcfg, Hretry.
  cbn [fst snd total remaining resetMs isThrottled].
  split; [|split; [reflexivity|split; [reflexivity|split]]].
  - symmetry. apply acquirePermit_prunes.
  - destruct (minimum (requestTimestamps l1)); lia.
  - intros Hfree. apply orb_false_iff in Hfree. destruct Hfree as [Hembargo Hfar].
    rewrite Hembargo.
    assert (Hbelow : Z.of_nat (List.length (requestTimestamps l1))
                     < maxRequests (config l)).
    { apply Z.lt_nge. intros Hfull.
      enough (approaching (config l)
                (Z.of_nat (List.length (requestTimestamps l1))) = true) by congruence.
      unfold approaching. apply Qle_bool_iff.
      apply Qle_trans with (inject_Z (maxRequests (config l))).
      - rewrite <- (Qmult_1_l (inject_Z (maxRequests (config l)))) at 2.
        rewrite (Qmult_comm (inject_Z (maxRequests (config l)))).
        apply Qmult_le_compat_r; [exact Hthreshold|].
        change 0%Q with (inject_Z 0). now rewrite <- Zle_Qle.
      - now rewrite <- Zle_Qle. }
    split; [lia|].
    replace (maxRequests (config l) <=? Z.of_nat (List.length (requestTimestamps l1)))
      with false by (symmetry; apply Z.leb_gt; exact Hbelow).
    rewrite Hfar. reflexivity.
Qed.

Lemma acquirePermit_zero_wait_below_limit_witness :
  retryAfterMs Samples.defaultLimiter <= 1000 /\
  inWindow 1000 Samples.defaultLimiter < maxRequests (config Samples.defaultLimiter) /\
  Z.of_nat (List.length
              (requestTimestamps
                 (recordRequest 1000
                    (snd (acquirePermit 1000 1000 Samples.defaultLimiter)))))
  <= maxRequests (config Samples.defaultLimiter).
Proof.
  apply (acquirePermit_zero_wait_below_limit 1000 Samples.defaultLimiter).
  reflexivity.
Defined.

Lemma acquirePermit_during_retry_after_witness :
  fst (acquirePermit 21000 21000
         (recordAll [20500] (handleRateLimit 20000 15 Samples.defaultLimiter)))
  = Finite (20000 + 15 * 1000 - 21000) /\
  0 < 20000 + 15 * 1000 - 21000.
Proof.
  apply (acquirePermit_during_retry_after 20000 15 [20500] 21000 21000
           Samples.defaultLimiter).
  lia.
Defined.

Lemma acquirePermit_wait_bounds_witness :
  match fst (acquirePermit 2000 2000
               (recordAll (repeat 1000 90) Samples.defaultLimiter)) with
  | Finite ms =>
      0 <= ms /\
      (retryAfterMs (recordAll (repeat 1000 90) Samples.defaultLimiter) <= 2000 ->
       inWindow 2000 (recordAll (repeat 1000 90) Samples.defaultLimiter)
       < maxRequests (config (recordAll (repeat 1000 90) Samples.defaultLimiter)) ->
       ms <= 500)
  | Infinite =>
      maxRequests (config (recordAll (repeat 1000 90) Samples.defaultLimiter)) <= 0
  end.
Proof.
  apply (acquirePermit_wait_bounds 2000 2000
           (recordAll (repeat 1000 90) Samples.defaultLimiter)).
  vm_compute. discriminate.
Defined.

Lemma getStatus_agrees_with_acquirePermit_witness :
  isThrottled (fst (getStatus 1000 1000 Samples.defaultLimiter)) = false /\
  0 < remaining (fst (getStatus 1000 1000 Samples.defaultLimiter)) /\
  fst (acquirePermit 1000 1000 Samples.defaultLimiter) = Finite 0.
Proof.
  split; [reflexivity|].
  apply (getStatus_agrees_with_acquirePermit 1000 1000 Samples.defaultLimiter).
  - vm_compute. discriminate.
  - vm_compute. discriminate.
  - reflexivity.
Defined.

End RateLimiterBounds.

(* ================================================================== *)
(** * Response cache: keys, lookups, counters and invalidation *)
(* ================================================================== *)

Module CacheLaws.
Import Cache ListFacts.

Lemma append_length (a b : string) :
  String.length (a ++ b) = (String.length a + String.length b)%nat.
Proof. induction a as [|c a IH]; cbn; [reflexivity | now rewrite IH]. Qed.

Lemma append_same_suffix_length : forall a b s t : string,
  (a ++ s)%string = (b ++ t)%string -> String.length s = String.length t -> a = b.
Proof.
  induction a as [|c a IH]; intros [|c' b] s t Heq Hlen; cbn in Heq.
  - reflexivity.
  - exfalso. subst s. cbn in Hlen. rewrite append_length in Hlen. lia.
  - exfalso. subst t. cbn in Hlen. rewrite append_length in Hlen. lia.
  - injection Heq as -> Heq. f_equal. eapply IH; eassumption.
Qed.

Section KeyGeneration.

Variable localeCompare : string -> string -> Z.
Variable JSON_stringify : Params -> string.
Variable sha256_hex : string -> string.

(** A SHA-256 digest in hexadecimal has 64 characters. *)
Hypothesis sha256_hex_length : forall s, String.length (sha256_hex s) = 64%nat.

Local Abbreviation generateKey := (generateKey localeCompare JSON_stringify sha256_hex).

Lemma generateKey_hash_length path normalizedParams :
  String.length (":" ++ substring 0 12 (sha256_hex (path ++ normalizedParams))) = 13%nat.
Proof.
  cbn [append String.length]. f_equal.
  apply CacheProofs.substring_length. rewrite sha256_hex_length. lia.
Qed.

(** A cache key shows its path.  The key is the path, a colon and
    twelve characters, so requests to two different paths never share a
    key, whatever their parameters and whatever the digests are. *)
Theorem generateKey_separates_paths path path' params params' :
  String.length (generateKey path params) = (String.length path + 13)%nat /\
  String.prefix (path ++ ":") (generateKey path params) = true /\
  (generateKey path params = generateKey path' params' -> path = path').
Proof.
  unfold Cache.generateKey. split; [|split].
  - rewrite append_length, generateKey_hash_length. reflexivity.
  - rewrite <- GatewayProofs.append_assoc. apply GatewayProofs.prefix_append.
  - intros Heq. eapply append_same_suffix_length; [exact Heq|].
    now rewrite !generateKey_hash_length.
Qed.

End KeyGeneration.

Lemma generateKey_separates_paths_witness :
  String.length (generateKey codeUnitCompare toyStringify toyDigest "/clients" None)
  = (String.length "/clients" + 13)%nat /\
  String.prefix ("/clients" ++ ":")
    (generateKey codeUnitCompare toyStringify toyDigest "/clients" None) = true /\
  (generateKey codeUnitCompare toyStringify toyDigest "/clients" None
   = generateKey codeUnitCompare toyStringify toyDigest "/clients"
       (Some [("page", PNumber 2)]) ->
   "/clients" = "/clients").
Proof.
  exact (generateKey_separates_paths codeUnitCompare toyStringify toyDigest
           CacheProofs.toyDigest_length "/clients" "/clients" None
           (Some [("page", PNumber 2)])).
Defined.

Section Store.

Variable D : Type.

Lemma lru_get_stored now' now key (v : CachedResponse D) rest (c : LRUCache D) :
  lru_get now' key (lru_with c ((key, v, now) :: rest))
  = if now' - now <? lru_ttl c
    then (Some v,
          lru_with c ((key, v, now)
                        :: lru_without key (lru_with c ((key, v, now) :: rest))))
    else (None, lru_with c (lru_without key (lru_with c ((key, v, now) :: rest)))).
Proof.
  unfold lru_get, lru_find. cbn [lru_slots lru_with find slotKey fst].
  rewrite String.eqb_refl. unfold lru_fresh. cbn [slotStart snd lru_ttl lru_with].
  destruct (now' - now <? lru_ttl c); reflexivity.
Qed.

Lemma lru_set_slots now key (v : CachedResponse D) (c : LRUCache D) :
  1 <= lru_max c ->
  exists rest, lru_set now key v c = lru_with c ((key, v, now) :: rest).
Proof.
  intros Hmax. unfold lru_set.
  destruct (Z.to_nat (lru_max c)) as [|n] eqn:Hn; [lia|].
  cbn [firstn]. eauto.
Qed.

(** A fresh entry is returned by [get]. *)
Lemma get_of_set_fresh now now' key (d : D) (h : HarvestCache D) :
  1 <= lru_max (cache h) ->
  now' - now < lru_ttl (cache h) ->
  fst (get now' key (set now key d h))
  = Some {| data := d; timestamp := now; cacheKey := key |}.
Proof.
  intros Hmax Hfresh. unfold get, set. cbn [cache].
  destruct (lru_set_slots now key {| data := d; timestamp := now; cacheKey := key |}
              (cache h) Hmax) as [rest ->].
  rewrite lru_get_stored.
  replace (now' - now <? lru_ttl (cache h)) with true
    by (symmetry; now apply Z.ltb_lt).
  reflexivity.
Qed.

(** X6.  What is stored is found until it expires.  In a store with
    room for at least one entry, after [set(key, data)] at clock value
    [now], a [get(key)] at [now'] returns the entry (with the data, the
    time of the [set] and the key) when [now' - now] is below the TTL,
    and nothing from then on; [getAge] then gives the whole seconds
    since the [set], and [has] tells the same. *)
Theorem set_then_get now now' key (d : D) (h : HarvestCache D) :
  1 <= lru_max (cache h) ->
  let entry := {| data := d; timestamp := now; cacheKey := key |} in
  let fresh := now' - now <? lru_ttl (cache h) in
  fst (get now' key (set now key d h)) = (if fresh then Some entry else None) /\
  fst (getAge now' key (set now key d h))
  = (if fresh then Some ((now' - now) / 1000) else None) /\
  has now' key (set now key d h) = fresh.
Proof.
  intros Hmax entry fresh. unfold get, getAge, has, set. cbn [cache].
  fold entry.
  destruct (lru_set_slots now key entry (cache h) Hmax) as [rest ->].
  unfold lru_has, lru_find. rewrite lru_get_stored.
  cbn [lru_slots lru_with find slotKey fst]. rewrite String.eqb_refl.
  unfold lru_fresh. cbn [slotStart snd lru_ttl lru_with]. fold fresh.
  destruct fresh; repeat split; reflexivity.
Qed.

(** Only [get] counts.  Every [get] adds one to exactly one of the
    two counters: to [hits] when it returns an entry, to [misses] when
    it returns nothing; it leaves the configuration alone.  [getAge],
    which reads the store in the same way, finds an entry exactly when
    [get] does, and counts nothing. *)
Theorem get_counts_one_lookup now key (h : HarvestCache D) :
  let r := get now key h in
  let h' := snd r in
  match fst r with
  | Some _ => hits (stats h') = hits (stats h) + 1 /\ misses (stats h') = misses (stats h)
  | None => hits (stats h') = hits (stats h) /\ misses (stats h') = misses (stats h) + 1
  end /\
  config h' = config h /\
  stats (snd (getAge now key h)) = stats h /\
  (fst (getAge now key h) = None <-> fst r = None) /\
  cache (snd (getAge now key h)) = cache h'.
Proof.
  unfold get, getAge.
  destruct (lru_get now key (cache h)) as [[e|] c]; cbn [fst snd stats hits misses config cache].
  - repeat split; try reflexivity; discriminate.
  - repeat split; reflexivity.
Qed.

Lemma invalidate_fold (p : Pattern) : forall keys n (c : LRUCache D),
  fst (fold_left
         (fun (acc : Z * LRUCache D) key =>
            if matches p key then (fst acc + 1, lru_delete key (snd acc)) else acc)
         keys (n, c))
  = n + Z.of_nat (List.length (filter (matches p) keys)).
Proof.
  induction keys as [|key keys IH]; intros n c; cbn [fold_left filter].
  - cbn. lia.
  - destruct (matches p key); cbn [fst snd].
    + rewrite IH. cbn [List.length]. lia.
    + apply IH.
Qed.

(** X7.  [invalidate] removes what matches and counts it.  The number
    returned is the number of stored keys the pattern matches; the keys
    that stay are the ones it does not match, in their order; the count
    and the new size add up to the old size; the size in the statistics
    is the new size, and the hit and miss counters are as before. *)
Theorem invalidate_counts_what_it_removes (p : Pattern) (h : HarvestCache D) :
  let r := invalidate p h in
  fst r = Z.of_nat (List.length (filter (matches p) (storedKeys h))) /\
  storedKeys (snd r) = filter (fun key => negb (matches p key)) (storedKeys h) /\
  fst r + lru_size (cache (snd r)) = lru_size (cache h) /\
  size (stats (snd r)) = lru_size (cache (snd r)) /\
  hits (stats (snd r)) = hits (stats h) /\
  misses (stats (snd r)) = misses (stats h).
Proof.
  intros r.
  assert (Hslots := GatewayProofs.invalidate_slots p h). fold r in Hslots.
  assert (Hcount : fst r = Z.of_nat (List.length (filter (matches p) (storedKeys h)))).
  { unfold r, invalidate.
    pose proof (invalidate_fold p (lru_keys (cache h)) 0 (cache h)) as Hfold.
    destruct (fold_left _ (lru_keys (cache h)) (0, cache h)) as [count c].
    cbn [fst] in *. rewrite Hfold. reflexivity. }
  assert (Hkeys : storedKeys (snd r)
                  = filter (fun key => negb (matches p key)) (storedKeys h)).
  { unfold storedKeys, lru_keys. rewrite Hslots. symmetry.
    apply (filter_of_map slotKey (fun key => negb (matches p key))). }
  split; [exact Hcount|]. split; [exact Hkeys|]. split; [|split; [|split]].
  - rewrite Hcount. unfold lru_size.
    replace (List.length (lru_slots (cache (snd r))))
      with (List.length (storedKeys (snd r)))
      by (unfold storedKeys, lru_keys; apply length_map).
    replace (List.length (lru_slots (cache h))) with (List.length (storedKeys h))
      by (unfold storedKeys, lru_keys; apply length_map).
    rewrite Hkeys, <- Nat2Z.inj_add. f_equal. apply filter_length.
  - unfold r, invalidate.
    destruct (fold_left _ (lru_keys (cache h)) (0, cache h)) as [count c]. reflexivity.
  - unfold r, invalidate.
    destruct (fold_left _ (lru_keys (cache h)) (0, cache h)) as [count c]. reflexivity.
  - unfold r, invalidate.
    destruct (fold_left _ (lru_keys (cache h)) (0, cache h)) as [count c]. reflexivity.
Qed.

End Store.

Lemma set_then_get_witness :
  fst (get 1500 "/clients:0123456789ab"
         (set 1000 "/clients:0123456789ab" "clients page"%string
            (create DEFAULT_CONFIG)))
  = Some {| data := "clients page"%string; timestamp := 1000;
            cacheKey := "/clients:0123456789ab" |} /\
  fst (get 61000 "/clients:0123456789ab"
         (set 1000 "/clients:0123456789ab" "clients page"%string
            (create DEFAULT_CONFIG)))
  = None.
Proof.
  split.
  - apply (set_then_get string 1000 1500 "/clients:0123456789ab"
             "clients page"%string (create DEFAULT_CONFIG)).
    cbn. lia.
  - apply (set_then_get string 1000 61000 "/clients:0123456789ab"
             "clients page"%string (create DEFAULT_CONFIG)).
    cbn. lia.
Defined.

End CacheLaws.

(* ================================================================== *)
(** * The gateway's request: cache hits, retries and failures *)
(* ================================================================== *)

Module GatewayRetries.
Import Cache Gateway.

Section Store.

Variable D : Type.

(** A lookup that hit hits again at the same clock value, with the same
    entry. *)
Lemma lru_get_again now key (c c' : LRUCache D) e :
  lru_get now key c = (Some e, c') ->
  exists c'', lru_get now key c' = (Some e, c'').
Proof.
  unfold lru_get. destruct (lru_find key c) as [s|] eqn:Hfind; [|discriminate].
  destruct (lru_fresh now c s) eqn:Hfresh; [|discriminate].
  intros H. injection H as <- <-.
  unfold lru_find in *. apply find_some in Hfind. destruct Hfind as [_ Hkey].
  cbn [lru_slots lru_with find]. rewrite Hkey.
  change (lru_fresh now (lru_with c (s :: lru_without key c)) s)
    with (lru_fresh now c s).
  rewrite Hfresh. eauto.
Qed.

Lemma getAge_after_get now key (h h1 : HarvestCache D) entry :
  Cache.get now key h = (Some entry, h1) ->
  exists h2,
    getAge now key h1 = (Some ((now - timestamp entry) / 1000), h2) /\
    stats h2 = stats h1 /\ config h2 = config h1.
Proof.
  unfold Cache.get, getAge.
  destruct (lru_get now key (Cache.cache h)) as [[e|] c] eqn:Hget; [|discriminate].
  intros H. injection H as <- <-. cbn [Cache.cache].
  destruct (lru_get_again _ _ _ _ _ Hget) as [c'' ->].
  eexists. split; [reflexivity|]. split; reflexivity.
Qed.

End Store.

Section Client.

Variable D : Type.
Variable localeCompare : string -> string -> Z.
Variable JSON_stringify : Params -> string.
Variable sha256_hex : string -> string.

Local Abbreviation attempts := (attempts localeCompare JSON_stringify sha256_hex).
Local Abbreviation request := (request localeCompare JSON_stringify sha256_hex).
Local Abbreviation cacheAfterSuccess :=
  (cacheAfterSuccess localeCompare JSON_stringify sha256_hex).
Local Abbreviation generateKey :=
  (Gateway.generateKey localeCompare JSON_stringify sha256_hex).

(** The error the retry loop throws when its iterations are used up. *)
Local Abbreviation thrownAtTheEnd lastError :=
  (match lastError with
   | Some e => e
   | None => OtherError "Request failed after retries"
   end).

(** An answer with status 429. *)
Local Abbreviation rateLimitedAnswer :=
  (fun o : Z * FetchOutcome D => exists r, snd o = Responded r /\ status r = 429).

Lemma wait_keeps_upstream waitMs (w : World D) :
  upstream (if positive waitMs then delay waitMs w else w) = upstream w.
Proof. destruct (positive waitMs); reflexivity. Qed.

Lemma fetch_upstream (w : World D) : upstream (snd (fetch w)) = skipn 1 (upstream w).
Proof.
  unfold fetch. destruct (upstream w) as [|[latency outcome] rest] eqn:Hup.
  - cbn. now rewrite Hup.
  - reflexivity.
Qed.

Lemma skipn_one_more {A} (k : nat) (l : list A) : skipn k (skipn 1 l) = skipn (S k) l.
Proof. destruct l; [now rewrite !skipn_nil | reflexivity]. Qed.

(** Every iteration of the retry loop fetches once and counts the call. *)
Lemma attempts_budget isGet path params skip :
  forall n lastError (cl : HarvestClient D) w out cl' w',
    attempts n isGet path params skip lastError cl w = (out, cl', w') ->
    exists k,
      (k <= n)%nat /\
      apiCallsThisRequest cl' = apiCallsThisRequest cl + Z.of_nat k /\
      upstream w' = skipn k (upstream w) /\
      match out with
      | inr res => (1 <= k)%nat /\ res_cached res = false
      | inl e => k = 0%nat -> n = 0%nat /\ e = thrownAtTheEnd lastError
      end.
Proof.
  induction n as [|n IH]; intros lastError cl w out cl' w' Hrun.
  - cbn in Hrun. injection Hrun as <- <- <-. exists 0%nat.
    repeat split; try reflexivity. lia.
  - cbn [Gateway.attempts] in Hrun.
    destruct (RateLimiter.acquirePermit (now w) (now w) (rateLimiter cl))
      as [waitMs rl1].
    pose proof (fetch_upstream (if positive waitMs then delay waitMs w else w))
      as Hfetch.
    rewrite wait_keeps_upstream in Hfetch.
    destruct (fetch (if positive waitMs then delay waitMs w else w))
      as [outcome w2].
    cbn [snd] in Hfetch.
    assert (Hmore : forall lastError' rl (w3 : World D),
              upstream w3 = upstream w2 ->
              attempts n isGet path params skip lastError'
                {| cache := cache cl; rateLimiter := rl;
                   apiCallsThisRequest := apiCallsThisRequest cl + 1 |} w3
              = (out, cl', w') ->
              exists k,
                (k <= S n)%nat /\
                apiCallsThisRequest cl' = apiCallsThisRequest cl + Z.of_nat k /\
                upstream w' = skipn k (upstream w) /\
                match out with
                | inr res => (1 <= k)%nat /\ res_cached res = false
                | inl e => k = 0%nat -> S n = 0%nat /\ e = thrownAtTheEnd lastError
                end).
    { intros lastError' rl w3 Hw3 Hrest. apply IH in Hrest.
      destruct Hrest as (k & Hk & Hcalls & Hup & Hout).
      cbn [apiCallsThisRequest] in Hcalls.
      exists (S k). split; [lia|]. split; [lia|]. split.
      - rewrite Hup, Hw3, Hfetch. apply skipn_one_more.
      - destruct out as [e|res]; [discriminate|].
        destruct Hout as [_ Hc]. split; [lia | exact Hc]. }
    assert (Hdone : forall rl,
              cl' = {| cache := cache cl'; rateLimiter := rl;
                       apiCallsThisRequest := apiCallsThisRequest cl + 1 |} ->
              w' = w2 ->
              match out with
              | inr res => res_cached res = false
              | inl _ => True
              end ->
              exists k,
                (k <= S n)%nat /\
                apiCallsThisRequest cl' = apiCallsThisRequest cl + Z.of_nat k /\
                upstream w' = skipn k (upstream w) /\
                match out with
                | inr res => (1 <= k)%nat /\ res_cached res = false
                | inl e => k = 0%nat -> S n = 0%nat /\ e = thrownAtTheEnd lastError
                end).
    { intros rl Hcl Hw Hout. exists 1%nat. split; [lia|]. split; [|split].
      - rewrite Hcl. reflexivity.
      - rewrite Hw. exact Hfetch.
      - destruct out as [e|res]; [discriminate | split; [lia | exact Hout]]. }
    destruct outcome as [message|response].
    + eapply Hmore; [|exact Hrun]. reflexivity.
    + destruct (status response =? 429).
      { eapply Hmore; [|exact Hrun]. reflexivity. }
      destruct (negb (ok response)).
      { injection Hrun as <- <- <-. eapply Hdone; [reflexivity|reflexivity|exact I]. }
      destruct (status response =? 204).
      { injection Hrun as <- <- <-. eapply Hdone; reflexivity. }
      destruct (json response) as [d|].
      * injection Hrun as <- <- <-. eapply Hdone; reflexivity.
      * eapply Hmore; [|exact Hrun]. reflexivity.
Qed.

(** [request] either answers from the cache, or runs the retry loop on a
    client with the same limiter and call counter. *)
Lemma request_run method path params options (cl : HarvestClient D) w out cl' w' :
  request method path params options cl w = (out, cl', w') ->
  (exists res,
      out = inr res /\ res_cached res = true /\ w' = w /\
      rateLimiter cl' = rateLimiter cl /\
      apiCallsThisRequest cl' = apiCallsThisRequest cl) \/
  (exists cl0,
      rateLimiter cl0 = rateLimiter cl /\
      apiCallsThisRequest cl0 = apiCallsThisRequest cl /\
      attempts (maxRetries options) (String.eqb method "GET") path params
        (skipCache options) None cl0 w = (out, cl', w')).
Proof.
  unfold Gateway.request. intros Hrun.
  destruct (cache cl) as [h|]; [|right; exists cl; auto].
  destruct (String.eqb method "GET" && negb (skipCache options));
    [|right; exists cl; auto].
  destruct (Cache.get (now w) _ h) as [[entry|] h1].
  - destruct (getAge (now w) _ h1) as [age h2].
    injection Hrun as <- <- <-. left. eexists. repeat split.
  - right. eexists. split; [|split; [|exact Hrun]]; reflexivity.
Qed.

(** X8.  The retry budget.  A request fetches at most [maxRetries]
    times, and every fetch counts as one API call and takes one answer of
    the upstream.  A result served from the cache costs no fetch and
    leaves the clock and the limiter alone; a result that is not from
    the cache costs at least one; and when nothing was fetched and
    nothing came from the cache, [maxRetries] is 0 and the call throws
    the error of the exhausted loop. *)
Theorem request_retry_budget method path params options (cl : HarvestClient D) w
    out cl' w' :
  request method path params options cl w = (out, cl', w') ->
  exists k,
    (k <= maxRetries options)%nat /\
    apiCallsThisRequest cl' = apiCallsThisRequest cl + Z.of_nat k /\
    upstream w' = skipn k (upstream w) /\
    match out with
    | inr res =>
        if res_cached res
        then k = 0%nat /\ w' = w /\ rateLimiter cl' = rateLimiter cl
        else (1 <= k)%nat
    | inl e =>
        k = 0%nat ->
        maxRetries options = 0%nat /\ e = OtherError "Request failed after retries"
    end.
Proof.
  intros Hrun. apply request_run in Hrun.
  destruct Hrun as [(res & -> & Hcached & -> & Hrl & Hcalls)
                   | (cl0 & Hrl & Hcalls & Hrun)].
  - exists 0%nat. rewrite Hcached. repeat split; try assumption; try lia.
  - apply attempts_budget in Hrun. destruct Hrun as (k & Hk & Hc & Hup & Hout).
    exists k. split; [exact Hk|]. split; [lia|]. split; [exact Hup|].
    destruct out as [e|res]; [exact Hout|].
    destruct Hout as [Hone ->]. exact Hone.
Qed.

(** The branch of [request] that answers from the cache. *)
Lemma request_hit path params options (cl : HarvestClient D) w h entry h1 :
  cache cl = Some h ->
  skipCache options = false ->
  Cache.get (now w) (generateKey path params) h = (Some entry, h1) ->
  exists h2,
    request "GET" path params options cl w
    = (inr {| res_data := Some (data entry); res_cached := true;
              res_cacheAge := Some ((now w - timestamp entry) / 1000) |},
       {| cache := Some h2; rateLimiter := rateLimiter cl;
          apiCallsThisRequest := apiCallsThisRequest cl |}, w) /\
    stats h2 = stats h1.
Proof.
  intros Hcache Hskip Hget.
  destruct (getAge_after_get _ _ _ _ _ _ Hget) as (h2 & Hage & Hstats & _).
  exists h2. split; [|exact Hstats].
  unfold Gateway.request. rewrite Hcache, Hskip.
  cbn [String.eqb Ascii.eqb Bool.eqb andb negb].
  unfold Gateway.generateKey in *. rewrite Hget, Hage. reflexivity.
Qed.

(** X9.  A cache hit.  When the client's cache returns an entry for the
    key of a GET, the request resolves to the entry's data with
    [cached: true] and the age of the entry in whole seconds; nothing is
    fetched, the clock, the limiter and the call counter stay as they
    were, and the cache counts one hit. *)
Theorem request_served_from_cache path params options (cl : HarvestClient D) w
    h entry h1 :
  cache cl = Some h ->
  skipCache options = false ->
  Cache.get (now w) (generateKey path params) h = (Some entry, h1) ->
  exists h2,
    request "GET" path params options cl w
    = (inr {| res_data := Some (data entry); res_cached := true;
              res_cacheAge := Some ((now w - timestamp entry) / 1000) |},
       {| cache := Some h2; rateLimiter := rateLimiter cl;
          apiCallsThisRequest := apiCallsThisRequest cl |}, w) /\
    hits (stats h2) = hits (stats h) + 1 /\
    misses (stats h2) = misses (stats h).
Proof.
  intros Hcache Hskip Hget.
  destruct (request_hit path params options cl w h entry h1 Hcache Hskip Hget)
    as (h2 & Hreq & Hstats).
  exists h2. split; [exact Hreq|].
  - rewrite Hstats.
    pose proof (CacheLaws.get_counts_one_lookup D (now w) (generateKey path params) h)
      as Hcount.
    cbv zeta in Hcount. unfold Gateway.generateKey in *. rewrite Hget in Hcount.
    cbn [fst snd] in Hcount. destruct Hcount as [[Hh Hm] _]. split; assumption.
Qed.

(** The retry loop on answers that are all 429. *)
Lemma attempts_rate_limited isGet path params skip :
  forall n lastError (cl : HarvestClient D) w out cl' w',
    attempts n isGet path params skip lastError cl w = (out, cl', w') ->
    (n <= List.length (upstream w))%nat ->
    Forall rateLimitedAnswer (firstn n (upstream w)) ->
    apiCallsThisRequest cl' = apiCallsThisRequest cl + Z.of_nat n /\
    upstream w' = skipn n (upstream w) /\
    cache cl' = cache cl /\
    exists e,
      out = inl e /\
      (n = 0%nat -> e = thrownAtTheEnd lastError) /\
      ((0 < n)%nat -> exists message, e = HarvestApiError message 429 None).
Proof.
  induction n as [|n IH]; intros lastError cl w out cl' w' Hrun Hlen Hall.
  - cbn in Hrun. injection Hrun as <- <- <-.
    split; [lia|]. split; [reflexivity|]. split; [reflexivity|].
    eexists. split; [reflexivity|]. split; [reflexivity | lia].
  - cbn [Gateway.attempts] in Hrun.
    destruct (RateLimiter.acquirePermit (now w) (now w) (rateLimiter cl))
      as [waitMs rl1].
    unfold fetch in Hrun. rewrite wait_keeps_upstream in Hrun.
    destruct (upstream w) as [|[latency outcome] rest] eqn:Hup; [cbn in Hlen; lia|].
    cbn [firstn] in Hall. apply Forall_cons_iff in Hall.
    destruct Hall as [(r & Hr & H429) Hall]. cbn [snd] in Hr. subst outcome.
    apply Z.eqb_eq in H429. rewrite H429 in Hrun.
    apply IH in Hrun; cbn [delay upstream]; [|cbn in Hlen; lia | exact Hall].
    destruct Hrun as (Hcalls & Hrest & Hcache & e & -> & Hzero & Hpos).
    cbn [apiCallsThisRequest cache] in *.
    split; [lia|]. split; [exact Hrest|]. split; [exact Hcache|].
    exists e. split; [reflexivity|]. split; [lia|]. intros _.
    destruct n as [|n'].
    + rewrite Hzero by reflexivity. eauto.
    + apply Hpos. lia.
Qed.

(** X10.  Giving up on 429.  When the upstream answers 429 to each of
    the [maxRetries] fetches a request may make, the request, unless it
    is served from the cache, fetches exactly [maxRetries] times and then
    throws a [HarvestApiError] with status 429 (for which [isRateLimited]
    holds) and without an error body; the cache is left alone. *)
Theorem request_gives_up_when_rate_limited method path params options
    (cl : HarvestClient D) w out cl' w' :
  request method path params options cl w = (out, cl', w') ->
  (0 < maxRetries options)%nat ->
  (maxRetries options <= List.length (upstream w))%nat ->
  Forall rateLimitedAnswer (firstn (maxRetries options) (upstream w)) ->
  (exists res, out = inr res /\ res_cached res = true) \/
  (exists message,
      out = inl (HarvestApiError message 429 None) /\
      isRateLimited (HarvestApiError message 429 None) = true /\
      apiCallsThisRequest cl' = apiCallsThisRequest cl + Z.of_nat (maxRetries options) /\
      upstream w' = skipn (maxRetries options) (upstream w)).
Proof.
  intros Hrun Hpos Hlen Hall. apply request_run in Hrun.
  destruct Hrun as [(res & -> & Hcached & _) | (cl0 & Hrl & Hcalls & Hrun)].
  - left. eauto.
  - right. apply attempts_rate_limited in Hrun; [|exact Hlen|exact Hall].
    destruct Hrun as (Hc & Hup & _ & e & -> & _ & He).
    destruct (He Hpos) as [message ->].
    exists message. repeat split; [lia | exact Hup].
Qed.

(** X11.  Other HTTP errors are not retried.  When the first answer of
    the upstream has a status outside 200..299 other than 429, a request
    that may fetch at all and is not served from the cache throws at
    once: a [HarvestApiError] with that status, the response text as
    error body and the message built from status and status text.  It has
    fetched once, and the answers that follow are left untouched. *)
Theorem request_error_not_retried method path params options
    (cl : HarvestClient D) w out cl' w' latency r rest :
  request method path params options cl w = (out, cl', w') ->
  (0 < maxRetries options)%nat ->
  upstream w = (latency, Responded r) :: rest ->
  ok r = false ->
  status r <> 429 ->
  (exists res, out = inr res /\ res_cached res = true) \/
  (out = inl (HarvestApiError
                ("Harvest API error: " ++ showZ (status r) ++ " " ++ statusText r)
                (status r) (Some (text r))) /\
   apiCallsThisRequest cl' = apiCallsThisRequest cl + 1 /\
   upstream w' = rest).
Proof.
  intros Hrun Hpos Hup Hok H429. apply request_run in Hrun.
  destruct Hrun as [(res & -> & Hcached & _) | (cl0 & Hrl & Hcalls & Hrun)].
  - left. eauto.
  - right. destruct (maxRetries options) as [|n]; [lia|].
    cbn [Gateway.attempts] in Hrun.
    destruct (RateLimiter.acquirePermit (now w) (now w) (rateLimiter cl0))
      as [waitMs rl1].
    unfold fetch in Hrun. rewrite wait_keeps_upstream, Hup in Hrun.
    apply Z.eqb_neq in H429. rewrite H429, Hok in Hrun. cbn [negb] in Hrun.
    injection Hrun as <- <- <-. cbn [apiCallsThisRequest upstream].
    repeat split. lia.
Qed.

(** What a result with data leaves in the cache. *)
Lemma attempts_success isGet path params skip :
  forall n lastError (cl : HarvestClient D) w res cl' w' d,
    attempts n isGet path params skip lastError cl w = (inr res, cl', w') ->
    res_data res = Some d ->
    cache cl' = cacheAfterSuccess isGet path params skip d (now w') (cache cl).
Proof.
  induction n as [|n IH]; intros lastError cl w res cl' w' d Hrun Hd; [discriminate|].
  cbn [Gateway.attempts] in Hrun.
  destruct (RateLimiter.acquirePermit (now w) (now w) (rateLimiter cl))
    as [waitMs rl1].
  destruct (fetch (if positive waitMs then delay waitMs w else w))
    as [[message|response] w2].
  - eapply IH in Hrun; [exact Hrun | exact Hd].
  - destruct (status response =? 429).
    { eapply IH in Hrun; [exact Hrun | exact Hd]. }
    destruct (negb (ok response)); [discriminate|].
    destruct (status response =? 204).
    { injection Hrun as <- <- <-. discriminate. }
    destruct (json response) as [d'|].
    + injection Hrun as <- <- <-. cbn in Hd. injection Hd as ->. reflexivity.
    + eapply IH in Hrun; [exact Hrun | exact Hd].
Qed.

(** X12.  A GET fills the cache for the next one.  After a GET that was
    answered by the upstream with a body, on a client whose cache has
    room for at least one entry, the same GET made while the time since
    the answer is below the TTL is served from the cache: it resolves to
    the same data with [cached: true] and the age in whole seconds, and
    fetches nothing. *)
Theorem request_get_then_cached path params options options'
    (cl : HarvestClient D) w res cl' w' h d (w2 : World D) :
  request "GET" path params options cl w = (inr res, cl', w') ->
  res_cached res = false ->
  res_data res = Some d ->
  skipCache options = false ->
  skipCache options' = false ->
  cache cl = Some h ->
  1 <= lru_max (Cache.cache h) ->
  now w2 - now w' < lru_ttl (Cache.cache h) ->
  exists h2,
    request "GET" path params options' cl' w2
    = (inr {| res_data := Some d; res_cached := true;
              res_cacheAge := Some ((now w2 - now w') / 1000) |},
       {| cache := Some h2; rateLimiter := rateLimiter cl';
          apiCallsThisRequest := apiCallsThisRequest cl' |}, w2).
Proof.
  intros Hrun Hfresh Hd Hskip Hskip' Hcache Hmax Httl.
  unfold Gateway.request in Hrun. rewrite Hcache, Hskip in Hrun.
  cbn [String.eqb Ascii.eqb Bool.eqb andb negb] in Hrun.
  assert (Hstore : exists h1,
             lru_max (Cache.cache h1) = lru_max (Cache.cache h) /\
             lru_ttl (Cache.cache h1) = lru_ttl (Cache.cache h) /\
             cache cl' = Some (Cache.set (now w') (generateKey path params) d h1)).
  { destruct (Cache.get (now w) (Gateway.generateKey localeCompare JSON_stringify
                                   sha256_hex path params) h)
      as [[entry|] h1] eqn:Hget.
    - destruct (getAge (now w) _ h1) as [age h2]. injection Hrun as <- _ _.
      discriminate.
    - exists h1. split; [|split].
      + unfold Cache.get in Hget. unfold lru_get in Hget.
        destruct (lru_find _ (Cache.cache h)) as [s|].
        * destruct (lru_fresh (now w) (Cache.cache h) s); [discriminate|].
          injection Hget as <-. reflexivity.
        * injection Hget as <-. reflexivity.
      + unfold Cache.get in Hget. unfold lru_get in Hget.
        destruct (lru_find _ (Cache.cache h)) as [s|].
        * destruct (lru_fresh (now w) (Cache.cache h) s); [discriminate|].
          injection Hget as <-. reflexivity.
        * injection Hget as <-. reflexivity.
      + eapply attempts_success in Hrun; [|exact Hd]. rewrite Hrun.
        unfold Gateway.cacheAfterSuccess. cbn [cache andb negb].
        reflexivity. }
  destruct Hstore as (h1 & Hmax1 & Httl1 & Hcache').
  pose proof (CacheLaws.get_of_set_fresh D (now w') (now w2) (generateKey path params)
                d h1) as Hget.
  rewrite Hmax1, Httl1 in Hget. specialize (Hget Hmax Httl).
  destruct (Cache.get (now w2) (generateKey path params)
              (Cache.set (now w') (generateKey path params) d h1))
    as [entry h3] eqn:Hget'.
  cbn [fst] in Hget. subst entry.
  destruct (request_hit path params options' cl' w2 _ _ _ Hcache' Hskip' Hget')
    as (h2 & Hreq & _).
  exists h2. exact Hreq.
Qed.

End Client.

Lemma request_retry_budget_witness :
  exists k,
    (k <= 3)%nat /\
    apiCallsThisRequest
      (snd (fst (toyRequest "GET" "/projects" (answers 200 (Some "projects page"%string)))))
    = 0 + Z.of_nat k.
Proof.
  destruct (toyRequest "GET" "/projects" (answers 200 (Some "projects page"%string)))
    as [[out cl'] w'] eqn:Hrun.
  destruct (request_retry_budget string codeUnitCompare toyStringify toyDigest
              "GET"%string "/projects"%string None defaultRequestOptions warmClient
              (answers 200 (Some "projects page"%string)) out cl' w' Hrun)
    as (k & Hk & Hcalls & _).
  exists k. split; [exact Hk | exact Hcalls].
Defined.

Lemma request_served_from_cache_witness :
  exists h2,
    toyRequest "GET" "/clients" (answers 200 None)
    = (inr {| res_data := Some "clients page"%string; res_cached := true;
              res_cacheAge := Some 1 |},
       {| cache := Some h2; rateLimiter := rateLimiter warmClient;
          apiCallsThisRequest := 0 |}, answers 200 None).
Proof.
  edestruct (request_served_from_cache string codeUnitCompare toyStringify toyDigest
               "/clients"%string None defaultRequestOptions warmClient
               (answers 200 None)) as (h2 & Hreq & _);
    [reflexivity | reflexivity | reflexivity |].
  exists h2. exact Hreq.
Defined.

Lemma request_gives_up_when_rate_limited_witness :
  exists message,
    fst (fst (toyRequest "POST" "/time_entries" Samples.busy))
    = inl (HarvestApiError message 429 None) /\
    apiCallsThisRequest (snd (fst (toyRequest "POST" "/time_entries" Samples.busy))) = 3.
Proof.
  destruct (toyRequest "POST" "/time_entries" Samples.busy) as [[out cl'] w'] eqn:Hrun.
  destruct (request_gives_up_when_rate_limited string codeUnitCompare toyStringify
              toyDigest "POST"%string "/time_entries"%string None
              defaultRequestOptions warmClient Samples.busy out cl' w' Hrun)
    as [(res & Hout & Hcached) | (message & Hout & _ & Hcalls & _)].
  - cbn. lia.
  - cbn. lia.
  - repeat constructor; eexists; split; reflexivity.
  - exfalso. vm_compute in Hrun. rewrite Hout in Hrun. discriminate.
  - exists message. split; [exact Hout | exact Hcalls].
Defined.

Lemma request_error_not_retried_witness :
  fst (fst (toyRequest "GET" "/projects" (answers 500 None)))
  = inl (HarvestApiError "Harvest API error: 500 " 500 (Some ""%string)) /\
  apiCallsThisRequest (snd (fst (toyRequest "GET" "/projects" (answers 500 None)))) = 1.
Proof.
  destruct (toyRequest "GET" "/projects" (answers 500 None)) as [[out cl'] w'] eqn:Hrun.
  destruct (request_error_not_retried string codeUnitCompare toyStringify toyDigest
              "GET"%string "/projects"%string None defaultRequestOptions warmClient
              (answers 500 None) out cl' w' 50
              {| status := 500; statusText := ""; retryAfterHeader := None;
                 text := ""; json := None |} [] Hrun)
    as [(res & Hout & Hcached) | (Hout & Hcalls & _)].
  - cbn. lia.
  - reflexivity.
  - reflexivity.
  - discriminate.
  - exfalso. vm_compute in Hrun. rewrite Hout in Hrun. discriminate.
  - split; [exact Hout | exact Hcalls].
Defined.

Lemma request_get_then_cached_witness :
  exists h2,
    request codeUnitCompare toyStringify toyDigest "GET" "/projects" None
      defaultRequestOptions
      (snd (fst (toyRequest "GET" "/projects"
                   (answers 200 (Some "projects page"%string)))))
      Samples.later
    = (inr {| res_data := Some "projects page"%string; res_cached := true;
              res_cacheAge := Some ((3000 - 2050) / 1000) |},
       {| cache := Some h2;
          rateLimiter :=
            rateLimiter
              (snd (fst (toyRequest "GET" "/projects"
                           (answers 200 (Some "projects page"%string)))));
          apiCallsThisRequest :=
            apiCallsThisRequest
              (snd (fst (toyRequest "GET" "/projects"
                           (answers 200 (Some "projects page"%string))))) |},
       Samples.later).
Proof.
  edestruct (request_get_then_cached string codeUnitCompare toyStringify toyDigest
               "/projects"%string None defaultRequestOptions defaultRequestOptions
               warmClient (answers 200 (Some "projects page"%string))
               {| res_data := Some "projects page"%string; res_cached := false;
                  res_cacheAge := None |}
               (snd (fst (toyRequest "GET" "/projects"
                            (answers 200 (Some "projects page"%string)))))
               (snd (toyRequest "GET" "/projects"
                       (answers 200 (Some "projects page"%string))))
               (match cache warmClient with
                | Some h => h
                | None => create DEFAULT_CONFIG
                end)
               "projects page"%string Samples.later)
    as (h2 & Hreq);
    [reflexivity | reflexivity | reflexivity | reflexivity | reflexivity | reflexivity
    | vm_compute; discriminate | vm_compute; reflexivity |].
  exists h2. exact Hreq.
Defined.

End GatewayRetries.

(* ================================================================== *)
(** * Entity resolver: scores, ranking and the snapshot *)
(* ================================================================== *)

Module ResolverRanking.
Import Resolver.

Lemma length_list_ascii_of_string s :
  List.length (list_ascii_of_string s) = String.length s.
Proof. induction s as [|c s IH]; cbn; [reflexivity | now rewrite IH]. Qed.

Lemma strlen_nonneg s : 0 <= strlen s.
Proof. unfold strlen. lia. Qed.

Lemma fillRow_nonneg bi : forall a prev left,
  Forall (fun x => 0 <= x) prev -> 0 <= left ->
  Forall (fun x => 0 <= x) (fillRow bi a prev left).
Proof.
  induction a as [|aj a IH]; intros prev left Hprev Hleft; cbn [fillRow].
  - destruct prev; constructor.
  - destruct prev as [|diag [|up prev']]; try constructor.
    + apply Forall_cons_iff in Hprev. destruct Hprev as [Hdiag Hprev].
      apply Forall_cons_iff in Hprev. destruct Hprev as [Hup _].
      destruct (Ascii.eqb bi aj); lia.
    + apply Forall_cons_iff in Hprev. destruct Hprev as [Hdiag Hprev].
      pose proof Hprev as Hprev'.
      apply Forall_cons_iff in Hprev'. destruct Hprev' as [Hup _].
      apply IH; [exact Hprev|]. destruct (Ascii.eqb bi aj); lia.
Qed.

Lemma fillRows_nonneg a : forall b prev i,
  Forall (fun x => 0 <= x) prev -> 0 <= i ->
  Forall (fun x => 0 <= x) (fillRows b a prev i).
Proof.
  induction b as [|bi b IH]; intros prev i Hprev Hi; cbn [fillRows].
  - exact Hprev.
  - apply IH; [|lia]. constructor; [exact Hi|]. now apply fillRow_nonneg.
Qed.

Lemma last_nonneg l : Forall (fun x => 0 <= x) l -> 0 <= last l 0.
Proof.
  induction l as [|x [|y l] IH]; intros Hall; cbn [last]; [lia| |].
  - now apply Forall_cons_iff in Hall.
  - apply IH. now apply Forall_cons_iff in Hall.
Qed.

Lemma levenshteinDistance_nonneg a b : 0 <= levenshteinDistance a b.
Proof.
  unfold levenshteinDistance. apply last_nonneg. apply fillRows_nonneg; [|lia].
  apply Forall_forall. intros x Hx. apply in_map_iff in Hx.
  destruct Hx as (n & <- & _). lia.
Qed.

Lemma fillRows_empty_word : forall b x i,
  fillRows b [] [x] i
  = [match b with [] => x | _ :: _ => i + Z.of_nat (List.length b) - 1 end].
Proof.
  induction b as [|bi b IH]; intros x i; cbn [fillRows fillRow]; [reflexivity|].
  rewrite IH. destruct b as [|bj b]; cbn [List.length]; f_equal; lia.
Qed.

(** The distance to the empty string.  [levenshteinDistance]
    between a string and the empty string is the length of the string,
    on either side; and the distance of any two strings is not
    negative. *)
Theorem levenshteinDistance_to_empty a b :
  levenshteinDistance a "" = strlen a /\
  levenshteinDistance "" b = strlen b /\
  0 <= levenshteinDistance a b.
Proof.
  split; [|split].
  - unfold levenshteinDistance, strlen. cbn [list_ascii_of_string fillRows].
    rewrite seq_S, map_app. cbn [map]. rewrite last_last.
    cbn [Nat.add]. now rewrite length_list_ascii_of_string.
  - unfold levenshteinDistance, strlen. cbn [list_ascii_of_string List.length seq map].
    rewrite fillRows_empty_word. cbn [last].
    rewrite length_list_ascii_of_string.
    destruct b as [|c b]; cbn [list_ascii_of_string String.length]; lia.
  - apply levenshteinDistance_nonneg.
Qed.

Lemma ratio_range (x y : Z) :
  0 <= x -> 0 <= y ->
  (0 <= inject_Z (Z.min x y) / inject_Z (Z.max x y) <= 1)%Q.
Proof.
  intros Hx Hy.
  destruct (Z.eq_dec (Z.max x y) 0) as [Hzero|Hpos].
  - rewrite Hzero. unfold Qdiv. change (/ inject_Z 0)%Q with 0%Q.
    rewrite Qmult_0_r. split; discriminate.
  - assert (Hmax : (0 < inject_Z (Z.max x y))%Q).
    { change 0%Q with (inject_Z 0). rewrite <- Zlt_Qlt. lia. }
    split.
    + apply Qle_shift_div_l; [exact Hmax|]. rewrite Qmult_0_l.
      change 0%Q with (inject_Z 0). rewrite <- Zle_Qle. lia.
    + apply Qle_shift_div_r; [exact Hmax|]. rewrite Qmult_1_l.
      rewrite <- Zle_Qle. lia.
Qed.

Lemma quotient_nonneg (x y : Z) : 0 <= x -> 0 <= y -> (0 <= inject_Z x / inject_Z y)%Q.
Proof.
  intros Hx Hy. unfold Qdiv. apply Qmult_le_0_compat.
  - change 0%Q with (inject_Z 0). now rewrite <- Zle_Qle.
  - apply Qinv_le_0_compat. change 0%Q with (inject_Z 0). now rewrite <- Zle_Qle.
Qed.

(** X13.  Scores lie between 0 and 1.  Whatever the two names,
    [calculateSimilarity] gives a score from 0 to 1: exactly 1 for an
    exact match, 0.95 for a normalized one, from 0.7 to 0.9 for a partial
    one, and a clamped value for a fuzzy one. *)
Theorem calculateSimilarity_score_range query target :
  let score := fst (calculateSimilarity query target) in
  (0 <= score <= 1)%Q /\
  match snd (calculateSimilarity query target) with
  | exact => score = 1%Q
  | normalized => score = (95 # 100)%Q
  | partial => (7 # 10 <= score <= 9 # 10)%Q
  | fuzzy => True
  end.
Proof.
  unfold calculateSimilarity.
  destruct (String.eqb (toLowerCase query) (toLowerCase target)).
  { cbn. repeat split; discriminate. }
  destruct (String.eqb (normalize query) (normalize target)).
  { cbn. repeat split; discriminate. }
  destruct (Cache.includes (normalize query) (normalize target)
            || Cache.includes (normalize target) (normalize query)).
  - cbn [fst snd].
    destruct (ratio_range (strlen (normalize query)) (strlen (normalize target))
                (strlen_nonneg _) (strlen_nonneg _)) as [Hlow Hhigh].
    set (ratio := (inject_Z (Z.min (strlen (normalize query)) (strlen (normalize target)))
                   / inject_Z (Z.max (strlen (normalize query))
                                 (strlen (normalize target))))%Q) in *.
    assert (Hpart : (7 # 10 <= (7 # 10) + ratio * (2 # 10) <= 9 # 10)%Q).
    { split.
      - rewrite <- (Qplus_0_r (7 # 10)) at 1. apply Qplus_le_r.
        apply Qmult_le_0_compat; [exact Hlow | discriminate].
      - setoid_replace (9 # 10)%Q with ((7 # 10) + 1 * (2 # 10))%Q by reflexivity.
        apply Qplus_le_r. apply Qmult_le_compat_r; [exact Hhigh | discriminate]. }
    split; [|exact Hpart]. destruct Hpart as [Hp Hq]. split.
    + eapply Qle_trans; [|exact Hp]. discriminate.
    + eapply Qle_trans; [exact Hq|]. discriminate.
  - cbn [fst snd]. split; [|exact I].
    set (score := (1 - inject_Z (levenshteinDistance (normalize query) (normalize target))
                     / inject_Z (Z.max (strlen (normalize query))
                                   (strlen (normalize target))))%Q).
    assert (Hhigh : (score <= 1)%Q).
    { unfold score.
      pose proof (quotient_nonneg
                    (levenshteinDistance (normalize query) (normalize target))
                    (Z.max (strlen (normalize query)) (strlen (normalize target)))
                    (levenshteinDistance_nonneg _ _)
                    ltac:(pose proof (strlen_nonneg (normalize query)); lia)) as Hq.
      setoid_replace 1%Q with (1 - 0)%Q at 2 by reflexivity.
      unfold Qminus. apply Qplus_le_r. now apply Qopp_le_compat. }
    destruct (Qle_bool 0 score) eqn:Hsign.
    + apply Qle_bool_iff in Hsign. split; assumption.
    + split; discriminate.
Qed.

Lemma toLowerChar_idempotent c : toLowerChar (toLowerChar c) = toLowerChar c.
Proof. destruct c as [[] [] [] [] [] [] [] []]; reflexivity. Qed.

Lemma toLowerCase_idempotent s : toLowerCase (toLowerCase s) = toLowerCase s.
Proof.
  unfold toLowerCase. rewrite list_ascii_of_string_of_list_ascii, map_map.
  f_equal. apply map_ext. intros c. apply toLowerChar_idempotent.
Qed.

Lemma normalize_lowered s : normalize (toLowerCase s) = normalize s.
Proof. unfold normalize. now rewrite toLowerCase_idempotent. Qed.

(** Matching ignores case.  Lower-casing the query, the target or
    both changes neither the score nor the match type. *)
Theorem calculateSimilarity_ignores_case query target :
  calculateSimilarity (toLowerCase query) target = calculateSimilarity query target /\
  calculateSimilarity query (toLowerCase target) = calculateSimilarity query target /\
  calculateSimilarity (toLowerCase query) (toLowerCase target)
  = calculateSimilarity query target.
Proof.
  unfold calculateSimilarity.
  rewrite !normalize_lowered, !toLowerCase_idempotent. repeat split.
Qed.

End ResolverRanking.

(* ================================================================== *)
(** * Descending sorts *)
(* ================================================================== *)

Module SortFacts.
Import Grouping.

(** [a] stands before [b] in an array sorted by [f], largest first. *)
Local Abbreviation notBelow f := (fun a b => (f b <= f a)%Q).

Lemma insertBy_descending_sorted {A} (f : A -> Q) x : forall l,
  StronglySorted (notBelow f) l ->
  StronglySorted (notBelow f) (JsArray.insertBy (descending f) x l).
Proof.
  induction l as [|y l IH]; intros Hsorted; cbn [JsArray.insertBy].
  - constructor; constructor.
  - inversion Hsorted as [|? ? Hrest Hall]; subst.
    unfold descending at 1. destruct (Qle_bool (f y) (f x)) eqn:Hle; cbn [negb].
    + apply Qle_bool_iff in Hle. constructor; [exact Hsorted|].
      constructor; [exact Hle|].
      eapply Forall_impl; [|exact Hall]. intros z Hz. cbn in *.
      eapply Qle_trans; eassumption.
    + constructor; [apply IH; exact Hrest|].
      eapply Permutation_Forall; [apply GroupingProofs.insertBy_perm|].
      constructor; [|exact Hall]. cbn.
      apply Qlt_le_weak. apply Qnot_le_lt. intros Hyx.
      apply Qle_bool_iff in Hyx. congruence.
Qed.

Lemma sortBy_descending_sorted {A} (f : A -> Q) : forall l,
  StronglySorted (notBelow f) (JsArray.sortBy (descending f) l).
Proof.
  induction l as [|x l IH]; cbn [JsArray.sortBy fold_right].
  - constructor.
  - apply insertBy_descending_sorted. exact IH.
Qed.

End SortFacts.

(* ================================================================== *)
(** * Entity resolver: what [resolve] returns *)
(* ================================================================== *)

Module ResolverResults.
Import Resolver.

Lemma EntityType_eqb_eq a b : EntityType_eqb a b = true <-> a = b.
Proof. destruct a, b; cbn; split; intros H; try reflexivity; discriminate. Qed.

Lemma scoreNamed_In t q m entries e :
  In e (scoreNamed t q m entries) -> type e = t /\ (m <= confidence e)%Q.
Proof.
  unfold scoreNamed. intros Hin. apply in_flat_map in Hin.
  destruct Hin as (entry & _ & Hin).
  destruct (calculateSimilarity q (snd entry)) as [score matchType].
  destruct (Qle_bool m score) eqn:Hle; [|destruct Hin].
  destruct Hin as [<-|[]]. cbn. split; [reflexivity | now apply Qle_bool_iff].
Qed.

Lemma scoreProjects_In q m entries e :
  In e (scoreProjects q m entries) -> type e = project /\ (m <= confidence e)%Q.
Proof.
  unfold scoreProjects. intros Hin. apply in_flat_map in Hin.
  destruct Hin as (entry & _ & Hin).
  destruct (calculateSimilarity q (p_name entry)) as [score matchType].
  destruct (Qle_bool m _) eqn:Hle; [|destruct Hin].
  destruct Hin as [<-|[]]. cbn. split; [reflexivity | now apply Qle_bool_iff].
Qed.

Lemma limitPerType_incl lim : forall rs counts e,
  In e (limitPerType lim counts rs) -> In e rs.
Proof.
  induction rs as [|r rs IH]; intros counts e Hin; cbn [limitPerType] in Hin.
  - exact Hin.
  - destruct (counts (type r) <? lim).
    + destruct Hin as [<-|Hin]; [now left | right; eapply IH; exact Hin].
    + right. eapply IH. exact Hin.
Qed.

Lemma limitPerType_sorted (R : ResolvedEntity -> ResolvedEntity -> Prop) lim :
  forall rs counts,
    StronglySorted R rs -> StronglySorted R (limitPerType lim counts rs).
Proof.
  induction rs as [|r rs IH]; intros counts Hsorted; cbn [limitPerType].
  - constructor.
  - inversion Hsorted as [|? ? Hrest Hall]; subst.
    destruct (counts (type r) <? lim); [|now apply IH].
    constructor; [now apply IH|].
    apply Forall_forall. intros e He. apply limitPerType_incl in He.
    rewrite Forall_forall in Hall. now apply Hall.
Qed.

Lemma limitPerType_length lim : forall rs counts,
  (List.length (limitPerType lim counts rs) <= List.length rs)%nat.
Proof.
  induction rs as [|r rs IH]; intros counts; cbn [limitPerType List.length].
  - lia.
  - destruct (counts (type r) <? lim); cbn [List.length].
    + specialize (IH (fun t => if EntityType_eqb t (type r)
                               then counts t + 1 else counts t)). lia.
    + specialize (IH counts). lia.
Qed.

Lemma limitPerType_count lim t : forall rs counts,
  Z.of_nat (List.length
              (filter (fun e => EntityType_eqb (type e) t)
                      (limitPerType lim counts rs)))
  <= Z.max 0 (lim - counts t).
Proof.
  induction rs as [|r rs IH]; intros counts; cbn [limitPerType].
  - cbn. lia.
  - destruct (counts (type r) <? lim) eqn:Hroom.
    + apply Z.ltb_lt in Hroom. cbn [filter].
      specialize (IH (fun t' => if EntityType_eqb t' (type r)
                                then counts t' + 1 else counts t')).
      cbn beta in IH.
      destruct (EntityType_eqb (type r) t) eqn:Htype.
      * apply EntityType_eqb_eq in Htype. subst t.
        replace (EntityType_eqb (type r) (type r)) with true in IH
          by (symmetry; now apply EntityType_eqb_eq).
        cbn [List.length]. lia.
      * replace (EntityType_eqb t (type r)) with false in IH.
        -- exact IH.
        -- symmetry. destruct (EntityType_eqb t (type r)) eqn:Hsym; [|reflexivity].
           apply EntityType_eqb_eq in Hsym. subst t.
           assert (EntityType_eqb (type r) (type r) = true)
             by now apply EntityType_eqb_eq.
           congruence.
    + apply IH.
Qed.

(** X14.  What [resolve] returns.  Every result has a confidence of at
    least [min_confidence] (0.5 by default) and a type that was asked
    for; of each type there are at most [limit] results (5 by default);
    the results are in order of confidence, highest first; and
    [total_matches], the number of matches before the limit, is at least
    the number of results. *)
Theorem resolve_results_ranked params checkedAt fetchedAt recheckedAt upstream r
    resp r1 :
  resolve params checkedAt fetchedAt recheckedAt upstream r = Some (resp, r1) ->
  let minConfidence :=
    match min_confidence params with Some m => m | None => (5 # 10)%Q end in
  let lim := match limit params with Some n => n | None => 5 end in
  (forall e, In e (results resp) ->
     (minConfidence <= confidence e)%Q /\
     includesType (search_types resp) (type e) = true) /\
  (forall t,
     Z.of_nat (List.length (filter (fun e => EntityType_eqb (type e) t) (results resp)))
     <= Z.max 0 lim) /\
  StronglySorted (fun a b => (confidence b <= confidence a)%Q) (results resp) /\
  Z.of_nat (List.length (results resp)) <= total_matches resp.
Proof.
  intros Hrun minConfidence lim. unfold resolve in Hrun.
  destruct (ensureCache checkedAt fetchedAt upstream r) as [[c r']|]; [|discriminate].
  injection Hrun as <- <-.
  cbn [results search_types total_matches].
  fold minConfidence. fold lim.
  set (ts := match types params with
             | Some l => l
             | None => [client; project; user; task]
             end).
  set (found := _ ++ _ ++ _ ++ _).
  assert (Hfound : forall e, In e found ->
            (minConfidence <= confidence e)%Q /\ includesType ts (type e) = true).
  { intros e He. unfold found in He.
    repeat (apply in_app_or in He; destruct He as [He|He]).
    - destruct (includesType ts client) eqn:Hts; [|destruct He].
      apply scoreNamed_In in He. destruct He as [-> Hle]. auto.
    - destruct (includesType ts project) eqn:Hts; [|destruct He].
      apply scoreProjects_In in He. destruct He as [-> Hle]. auto.
    - destruct (includesType ts user) eqn:Hts; [|destruct He].
      apply scoreNamed_In in He. destruct He as [-> Hle]. auto.
    - destruct (includesType ts task) eqn:Hts; [|destruct He].
      apply scoreNamed_In in He. destruct He as [-> Hle]. auto. }
  split; [|split; [|split]].
  - intros e He. apply limitPerType_incl in He.
    apply Hfound. eapply Permutation_in; [|exact He].
    apply Permutation_sym. apply GroupingProofs.sortBy_perm.
  - intros t. pose proof (limitPerType_count lim t
                            (JsArray.sortBy
                               (fun a b => negb (Qle_bool (confidence b) (confidence a)))
                               found) (fun _ => 0)) as Hcount.
    cbn beta in Hcount. rewrite Z.sub_0_r in Hcount. exact Hcount.
  - apply limitPerType_sorted.
    exact (SortFacts.sortBy_descending_sorted confidence found).
  - pose proof (limitPerType_length lim
                  (JsArray.sortBy
                     (fun a b => negb (Qle_bool (confidence b) (confidence a)))
                     found) (fun _ => 0)). lia.
Qed.

(** X15.  The snapshot of the directory.  While the snapshot is valid,
    [resolve] does not ask the upstream: its result is the same whether
    the upstream answers or fails, and the resolver is left as it was.
    When the snapshot is missing or expired, [resolve] fails if the
    upstream fails, and otherwise ends with the snapshot fetched at the
    time of the refresh.  After [clearCache] the snapshot is not valid,
    whatever the clock. *)
Theorem resolve_asks_upstream_only_when_stale params checkedAt fetchedAt recheckedAt
    upstream r :
  (isCacheValid checkedAt r = true ->
   resolve params checkedAt fetchedAt recheckedAt upstream r
   = resolve params checkedAt fetchedAt recheckedAt None r /\
   exists resp,
     resolve params checkedAt fetchedAt recheckedAt upstream r = Some (resp, r)) /\
  (isCacheValid checkedAt r = false ->
   resolve params checkedAt fetchedAt recheckedAt None r = None /\
   forall d, exists resp,
     resolve params checkedAt fetchedAt recheckedAt (Some d) r
     = Some (resp, refreshCache fetchedAt d r)) /\
  isCacheValid checkedAt (clearCache r) = false.
Proof.
  split; [|split].
  - intros Hvalid. unfold resolve, ensureCache. rewrite Hvalid.
    split; [reflexivity|].
    unfold isCacheValid in Hvalid. destruct (cache r) as [c|]; [|discriminate].
    eexists. reflexivity.
  - intros Hstale. unfold resolve, ensureCache. rewrite Hstale. cbn [option_map].
    split; [reflexivity|]. intros d. cbn [refreshCache cache]. eexists. reflexivity.
  - reflexivity.
Qed.

Lemma resolve_asks_upstream_only_when_stale_witness :
  isCacheValid 1000 (refreshCache 0 acmeDirectory (create None)) = true /\
  exists resp,
    resolve acmeQuery 1000 1000 1000 None (refreshCache 0 acmeDirectory (create None))
    = Some (resp, refreshCache 0 acmeDirectory (create None)).
Proof.
  split; [reflexivity|].
  destruct (proj1 (resolve_asks_upstream_only_when_stale acmeQuery 1000 1000 1000 None
                     (refreshCache 0 acmeDirectory (create None))) eq_refl)
    as [_ Hsame].
  exact Hsame.
Defined.

Lemma resolve_results_ranked_witness :
  exists resp r1,
    resolve acmeQuery 1000 1000 1000 (Some acmeDirectory) (create None)
    = Some (resp, r1) /\
    StronglySorted (fun a b => (confidence b <= confidence a)%Q) (results resp) /\
    Z.of_nat (List.length (results resp)) <= total_matches resp.
Proof.
  destruct (resolve acmeQuery 1000 1000 1000 (Some acmeDirectory) (create None))
    as [[resp r1]|] eqn:Hrun; [|vm_compute in Hrun; discriminate].
  exists resp, r1. split; [reflexivity|].
  destruct (resolve_results_ranked acmeQuery 1000 1000 1000 (Some acmeDirectory)
              (create None) resp r1 Hrun) as (_ & _ & Hsorted & Htotal).
  split; [exact Hsorted | exact Htotal].
Defined.

End ResolverResults.

(* ================================================================== *)
(** * Grouping: order of groups, of entries and of result nodes *)
(* ================================================================== *)

Module GroupOrder.
Import Grouping NumberFacts GroupingProofs Ordering.

(** The group a new key opens. *)
Local Abbreviation opened groupBy entry :=
  {| group_key := fst (fst (getGroupKey entry groupBy));
     group_name := snd (fst (getGroupKey entry groupBy));
     group_id := snd (getGroupKey entry groupBy);
     group_entries := [entry] |}.

(** The group an entry joins. *)
Local Abbreviation joined g entry :=
  {| group_key := group_key g; group_name := group_name g; group_id := group_id g;
     group_entries := group_entries g ++ [entry] |}.

Lemma addToGroups_new groupBy entry : forall groups,
  ~ In (keyOf groupBy entry) (map group_key groups) ->
  addToGroups groupBy entry groups = groups ++ [opened groupBy entry].
Proof.
  induction groups as [|g groups IH]; intros Hnew; cbn [addToGroups].
  - destruct (getGroupKey entry groupBy) as [[key nm] gid]. reflexivity.
  - destruct (String.eqb (group_key g) (keyOf groupBy entry)) eqn:Hkey.
    + apply String.eqb_eq in Hkey. exfalso. apply Hnew. left. exact Hkey.
    + cbn [app]. f_equal. apply IH. intros Hin. apply Hnew. right. exact Hin.
Qed.

Lemma addToGroups_old groupBy entry : forall groups,
  NoDup (map group_key groups) ->
  In (keyOf groupBy entry) (map group_key groups) ->
  addToGroups groupBy entry groups
  = map (fun g => if String.eqb (group_key g) (keyOf groupBy entry)
                  then joined g entry else g) groups.
Proof.
  induction groups as [|g groups IH]; intros Hnodup Hin; [destruct Hin|].
  cbn [addToGroups map]. cbn [map] in Hnodup.
  apply NoDup_cons_iff in Hnodup. destruct Hnodup as [Hfresh Hnodup].
  destruct (String.eqb (group_key g) (keyOf groupBy entry)) eqn:Hkey.
  - f_equal. apply String.eqb_eq in Hkey.
    rewrite <- (map_id groups) at 1. apply map_ext_in. intros g' Hg'.
    destruct (String.eqb (group_key g') (keyOf groupBy entry)) eqn:Hkey';
      [|reflexivity].
    apply String.eqb_eq in Hkey'. exfalso. apply Hfresh.
    rewrite Hkey, <- Hkey'. now apply in_map.
  - f_equal. apply IH; [exact Hnodup|].
    destruct Hin as [Hin|Hin]; [|exact Hin].
    apply String.eqb_neq in Hkey. congruence.
Qed.

(** What holds of the map after each turn of the grouping loop. *)
Local Abbreviation Grouped groupBy groups entries :=
  (NoDup (map group_key groups) /\
   (forall e, In e entries -> In (keyOf groupBy e) (map group_key groups)) /\
   forall g, In g groups ->
     group_entries g
     = filter (fun e => String.eqb (group_key g) (keyOf groupBy e)) entries /\
     exists first rest,
       group_entries g = first :: rest /\
       getGroupKey first groupBy = (group_key g, group_name g, group_id g)).

Lemma addToGroups_grouped groupBy entry groups entries :
  Grouped groupBy groups entries ->
  Grouped groupBy (addToGroups groupBy entry groups) (entries ++ [entry]).
Proof.
  intros (Hnodup & Hcover & Hgroups).
  destruct (in_dec string_dec (keyOf groupBy entry) (map group_key groups))
    as [Hold|Hnew].
  - rewrite (addToGroups_old groupBy entry groups Hnodup Hold).
    split; [|split].
    + rewrite map_map.
      replace (map (fun g => group_key (if String.eqb (group_key g) (keyOf groupBy entry)
                                        then joined g entry else g)) groups)
        with (map group_key groups); [exact Hnodup|].
      apply map_ext. intros g. destruct (String.eqb _ _); reflexivity.
    + intros e He. rewrite map_map.
      replace (map (fun g => group_key (if String.eqb (group_key g) (keyOf groupBy entry)
                                        then joined g entry else g)) groups)
        with (map group_key groups)
        by (apply map_ext; intros g; destruct (String.eqb _ _); reflexivity).
      apply in_app_or in He. destruct He as [He|[<-|[]]]; [now apply Hcover | exact Hold].
    + intros g' Hg'. apply in_map_iff in Hg'. destruct Hg' as (g & <- & Hg).
      destruct (Hgroups g Hg) as (Hfilter & first & rest & Hfirst & Hname).
      rewrite filter_app. cbn [filter].
      destruct (String.eqb (group_key g) (keyOf groupBy entry)) eqn:Hkey;
        cbn [group_entries group_key group_name group_id].
      * rewrite Hkey. split; [now rewrite Hfilter|].
        exists first, (rest ++ [entry]). split; [now rewrite Hfirst | exact Hname].
      * rewrite Hkey, app_nil_r. split; [exact Hfilter|]. eauto.
  - rewrite (addToGroups_new groupBy entry groups Hnew).
    assert (Hkey : group_key (opened groupBy entry) = keyOf groupBy entry) by reflexivity.
    split; [|split].
    + rewrite map_app. cbn [map]. rewrite Hkey.
      apply NoDup_app; [exact Hnodup | repeat constructor; intros [] | ].
      intros k Hk [<-|[]]. exact (Hnew Hk).
    + intros e He. rewrite map_app. apply in_or_app.
      apply in_app_or in He. destruct He as [He|[<-|[]]].
      * left. now apply Hcover.
      * right. left. reflexivity.
    + intros g Hg. apply in_app_or in Hg. destruct Hg as [Hg|[<-|[]]].
      * destruct (Hgroups g Hg) as (Hfilter & Hfirst).
        rewrite filter_app. cbn [filter].
        replace (String.eqb (group_key g) (keyOf groupBy entry)) with false.
        -- rewrite app_nil_r. split; assumption.
        -- symmetry. apply String.eqb_neq. intros Heq. apply Hnew.
           rewrite <- Heq. now apply in_map.
      * cbn [group_entries]. rewrite Hkey. split.
        -- rewrite filter_app. cbn [filter]. rewrite String.eqb_refl.
           rewrite ListFacts.filter_none; [reflexivity|].
           intros e He. apply String.eqb_neq. intros Heq. apply Hnew.
           rewrite Heq. now apply Hcover.
        -- exists entry, []. split; [reflexivity|].
           unfold keyOf. cbn [group_key group_name group_id].
           destruct (getGroupKey entry groupBy) as [[key nm] gid]. reflexivity.
Qed.

Lemma groupEntries_grouped groupBy : forall entries groups before,
  Grouped groupBy groups before ->
  Grouped groupBy
    (fold_left (fun groups entry => addToGroups groupBy entry groups) entries groups)
    (before ++ entries).
Proof.
  induction entries as [|entry entries IH]; intros groups before Hinv;
    cbn [fold_left].
  - now rewrite app_nil_r.
  - replace (before ++ entry :: entries) with ((before ++ [entry]) ++ entries)
      by (now rewrite <- app_assoc).
    apply IH. now apply addToGroups_grouped.
Qed.

(** X16.  Grouping keeps the order of the entries.  Every group of
    [groupEntries] holds exactly the entries of its key, in the order of
    the input; it is not empty, and its key, name and id are the ones
    [getGroupKey] gives for its first entry (so a name that changes from
    one entry to the next shows as it was on the first).  No two groups
    have the same key, and every entry's key has a group. *)
Theorem groupEntries_keeps_order groupBy entries :
  Forall (fun g =>
            group_entries g
            = filter (fun e => String.eqb (group_key g) (keyOf groupBy e)) entries /\
            exists first rest,
              group_entries g = first :: rest /\
              getGroupKey first groupBy = (group_key g, group_name g, group_id g))
         (groupEntries groupBy entries) /\
  NoDup (map group_key (groupEntries groupBy entries)) /\
  (forall e, In e entries ->
             In (keyOf groupBy e) (map group_key (groupEntries groupBy entries))).
Proof.
  destruct (groupEntries_grouped groupBy entries [] [])
    as (Hnodup & Hcover & Hgroups).
  { split; [constructor|]. split; intros ? []. }
  cbn [app] in *. fold (groupEntries groupBy entries) in *.
  split; [|split; assumption].
  apply Forall_forall. exact Hgroups.
Qed.

Section Tree.

Variables M C : Type.
Variable metricsOf : GroupBy -> C -> Group -> M.
Variable handDown : GroupBy -> C -> Group -> C.
Variable sortKey : M -> Q.

Local Abbreviation build := (buildTree metricsOf handDown sortKey).

Lemma buildTree_sorted_level groupBy context entries :
  StronglySorted (fun a b => (sortKey (metrics b) <= sortKey (metrics a))%Q)
    (build groupBy context entries).
Proof.
  destruct groupBy as [|primaryGroup remainingGroups]; [constructor|].
  rewrite buildTree_cons.
  exact (SortFacts.sortBy_descending_sorted (fun n => sortKey (metrics n)) _).
Qed.

Lemma buildTree_sorted_below : forall groupBy context entries n,
  In n (flat_map subnodes (build groupBy context entries)) ->
  forall cs, children n = Some cs ->
    StronglySorted (fun a b => (sortKey (metrics b) <= sortKey (metrics a))%Q) cs.
Proof.
  induction groupBy as [|primaryGroup remainingGroups IH]; intros context entries n Hn.
  - destruct Hn.
  - apply in_flat_map in Hn as (top & Htop & Hn).
    apply buildTree_level in Htop as (g & _ & _ & _ & _ & _ & Hc).
    destruct top as [gr m ch k es]. cbn [subnodes children] in Hn, Hc.
    destruct Hn as [<-|Hn]; cbn [children].
    + intros cs Hcs. rewrite Hc in Hcs.
      destruct remainingGroups as [|d rest]; [discriminate|].
      injection Hcs as <-. exact (buildTree_sorted_level (d :: rest) _ _).
    + rewrite Hc in Hn. destruct remainingGroups as [|d rest]; [destruct Hn|].
      eapply IH. exact Hn.
Qed.

Lemma buildTree_sorted groupBy context entries :
  SortedLevels sortKey (build groupBy context entries).
Proof.
  split; [apply buildTree_sorted_level | apply buildTree_sorted_below].
Qed.

(** The entries of every node are entries of the input. *)
Lemma buildTree_entries_incl : forall groupBy context entries n,
  In n (flat_map subnodes (build groupBy context entries)) ->
  incl (node_entries n) entries.
Proof.
  induction groupBy as [|primaryGroup remainingGroups IH]; intros context entries n Hn.
  - destruct Hn.
  - apply in_flat_map in Hn as (top & Htop & Hn).
    apply buildTree_level in Htop as (g & Hg & _ & _ & _ & He & Hc).
    assert (Hincl : incl (group_entries g) entries).
    { destruct (groupEntries_partitions primaryGroup entries) as (Hperm & _).
      intros e Hin. eapply Permutation_in; [exact Hperm|].
      apply in_concat. exists (group_entries g). split; [now apply in_map | exact Hin]. }
    destruct top as [gr m ch k es]. cbn [subnodes children node_entries] in Hn, He, Hc.
    destruct Hn as [<-|Hn]; cbn [node_entries].
    + now rewrite He.
    + rewrite Hc in Hn. destruct remainingGroups as [|d rest]; [destruct Hn|].
      eapply incl_tran; [|exact Hincl]. eapply IH. exact Hn.
Qed.

End Tree.

Lemma utilization_groupResults_buildTree capacityPerDay workingDays :
  forall groupBy entries,
    Utilization.groupResults groupBy entries capacityPerDay workingDays
    = buildTree
        (fun primaryGroup (_ : unit) g =>
           Utilization.calculateMetrics (group_entries g)
             (if GroupBy_eqb primaryGroup user
              then (inject_Z workingDays * capacityPerDay)%Q
              else (inject_Z workingDays * capacityPerDay
                    * inject_Z (Utilization.uniqueUsers (group_entries g)))%Q)
             workingDays)
        (fun _ c _ => c) Utilization.total_hours groupBy tt entries.
Proof.
  induction groupBy as [|d rest IH]; intros entries; [reflexivity|].
  cbn [Utilization.groupResults buildTree]. f_equal.
  apply map_ext. intros g. f_equal.
  destruct rest; [reflexivity|]. f_equal. apply IH.
Qed.

(** X17.  Result trees are sorted.  On every level of the tree of
    [groupResults] - the top level and the children of every node - the
    nodes stand in descending order of the metric the calculator sorts
    by: [hours] in the time aggregation, [total_hours] in the
    utilization, [billable_amount] in the profitability. *)
Theorem groupResults_sorted_descending :
  (forall groupBy entries,
      SortedLevels Aggregation.hours (Aggregation.groupResults groupBy entries)) /\
  (forall groupBy entries capacityPerDay workingDays,
      SortedLevels Utilization.total_hours
        (Utilization.groupResults groupBy entries capacityPerDay workingDays)) /\
  (forall groupBy entries invoices mode rateMap includeNonBillable,
      SortedLevels Profitability.billable_amount
        (Profitability.groupResults groupBy entries invoices mode rateMap
           includeNonBillable)).
Proof.
  split; [|split].
  - intros. rewrite TreeProofs.aggregation_groupResults_buildTree.
    apply buildTree_sorted.
  - intros. rewrite utilization_groupResults_buildTree. apply buildTree_sorted.
  - intros. rewrite TreeProofs.profitability_groupResults_buildTree.
    apply buildTree_sorted.
Qed.

End GroupOrder.

(* ================================================================== *)
(** * Rounding to two decimals *)
(* ================================================================== *)

Module RoundingLaws.
Import Grouping NumberFacts.

Lemma Qfloor_unique (q : Q) (n : Z) :
  (inject_Z n <= q)%Q -> (q < inject_Z (n + 1))%Q -> Qfloor q = n.
Proof.
  intros Hlow Hhigh.
  pose proof (Qfloor_le q) as Hfloor. pose proof (Qlt_floor q) as Hceil.
  assert (Hle : (inject_Z (Qfloor q) < inject_Z (n + 1))%Q)
    by (eapply Qle_lt_trans; eassumption).
  assert (Hge : (inject_Z n < inject_Z (Qfloor q + 1))%Q)
    by (eapply Qle_lt_trans; eassumption).
  rewrite <- Zlt_Qlt in Hle, Hge. lia.
Qed.

(** X18.  [round] gives the nearest hundredth.  The result differs from
    the argument by at most half a hundredth (an argument halfway between
    two hundredths goes up); rounding what is rounded changes nothing;
    and [round] keeps the order of its arguments. *)
Theorem round_to_nearest_hundredth x y :
  (x - (1 # 200) < round x)%Q /\
  (round x <= x + (1 # 200))%Q /\
  round (round x) = round x /\
  ((x <= y)%Q -> (round x <= round y)%Q).
Proof.
  unfold round.
  pose proof (Qfloor_le (x * inject_Z 100 + (1 # 2))) as Hfloor.
  pose proof (Qlt_floor (x * inject_Z 100 + (1 # 2))) as Hceil.
  rewrite inject_Z_plus in Hceil.
  set (n := Qfloor (x * inject_Z 100 + (1 # 2))) in *.
  change (inject_Z 100) with (100 # 1)%Q in *. change (inject_Z 1) with 1%Q in *.
  split; [|split; [|split]].
  - apply Qlt_shift_div_l; [reflexivity|]. lra.
  - apply Qle_shift_div_r; [reflexivity|]. lra.
  - f_equal. f_equal. apply Qfloor_unique.
    + setoid_replace (inject_Z n / (100 # 1) * (100 # 1))%Q with (inject_Z n)
        by (field; discriminate).
      lra.
    + rewrite inject_Z_plus. change (inject_Z 1) with 1%Q.
      setoid_replace (inject_Z n / (100 # 1) * (100 # 1))%Q with (inject_Z n)
        by (field; discriminate).
      lra.
  - intros Hxy. unfold Qdiv. apply Qmult_le_compat_r; [|discriminate].
    rewrite <- Zle_Qle. apply Qfloor_resp_le. lra.
Qed.

End RoundingLaws.

(* ================================================================== *)
(** * Time aggregation and utilization: filters and guards *)
(* ================================================================== *)

Module AnalyticsGuards.
Import Grouping NumberFacts GroupingProofs.

Lemma total_zero {A} (f : A -> Q) l :
  (forall x, In x l -> (f x == 0)%Q) -> (total f l == 0)%Q.
Proof.
  induction l as [|x l IH]; intros Hzero; [reflexivity|].
  rewrite total_cons, (Hzero x (or_introl eq_refl)), IH; [reflexivity|].
  intros y Hy. apply Hzero. now right.
Qed.

Lemma round_zero x : (x == 0)%Q -> (round x == 0)%Q.
Proof. intros Hx. rewrite (round_comp x 0 Hx). reflexivity. Qed.

Lemma not_positive x : (x <= 0)%Q -> positive x = false.
Proof. intros Hx. unfold positive. apply Qle_bool_iff in Hx. now rewrite Hx. Qed.

Lemma calculateMetrics_all_billable entries :
  (forall e, In e entries -> Harvest.billable e = true) ->
  (Aggregation.non_billable_hours (Aggregation.calculateMetrics entries) == 0)%Q /\
  Aggregation.billable_hours (Aggregation.calculateMetrics entries)
  = Aggregation.hours (Aggregation.calculateMetrics entries).
Proof.
  intros Hall.
  destruct (TreeProofs.aggregation_sums_total entries) as (Hh & _ & Hb & Hn & _).
  cbn zeta in *. unfold Aggregation.calculateMetrics.
  cbn [Aggregation.non_billable_hours Aggregation.billable_hours Aggregation.hours].
  split.
  - apply round_zero. rewrite Hn. apply total_zero.
    intros e He. rewrite (Hall e He). reflexivity.
  - apply round_comp. rewrite Hb, Hh. apply total_ext.
    intros e He. rewrite (Hall e He). reflexivity.
Qed.

(** X19.  [billable_only] leaves no non-billable time.  With
    [billable_only: true], [aggregate] analyses exactly the billable
    entries of what was fetched: the totals show no non-billable hours
    and as many billable hours as hours, and the same holds of every
    node of the grouped results, whose entries are all billable. *)
Theorem aggregate_billable_only group_by fetched :
  let r := Aggregation.aggregate group_by (Some true) fetched in
  Aggregation.entries_analyzed r
  = Z.of_nat (List.length (filter Harvest.billable fetched)) /\
  (Aggregation.non_billable_hours (Aggregation.totals r) == 0)%Q /\
  Aggregation.billable_hours (Aggregation.totals r)
  = Aggregation.hours (Aggregation.totals r) /\
  forall n, In n (flat_map subnodes (Aggregation.grouped_results r)) ->
    (forall e, In e (node_entries n) -> Harvest.billable e = true) /\
    (Aggregation.non_billable_hours (metrics n) == 0)%Q /\
    Aggregation.billable_hours (metrics n) = Aggregation.hours (metrics n).
Proof.
  intros r. unfold r, Aggregation.aggregate.
  cbn [Aggregation.entries_analyzed Aggregation.totals Aggregation.grouped_results].
  assert (Hall : forall e, In e (filter Harvest.billable fetched) ->
                           Harvest.billable e = true)
    by (intros e He; now apply filter_In in He).
  destruct (calculateMetrics_all_billable _ Hall) as [Hnone Hsame].
  split; [reflexivity|]. split; [exact Hnone|]. split; [exact Hsame|].
  intros n Hn. rewrite TreeProofs.aggregation_groupResults_buildTree in Hn.
  pose proof (GroupOrder.buildTree_entries_incl _ _ _ _ _ _ _ _ _ Hn) as Hincl.
  destruct (buildTree_nodes _ _ _ _ _ _ _ Hn)
    as [(primaryGroup & context' & g & Hm & He) _].
  assert (Hnode : forall e, In e (node_entries n) -> Harvest.billable e = true)
    by (intros e Hin; apply Hall, Hincl, Hin).
  split; [exact Hnode|]. rewrite Hm, <- He.
  now apply calculateMetrics_all_billable.
Qed.

(** X20.  No division by zero in the utilization.  When the capacity
    (working days times hours per day times users) is zero or negative,
    both utilization percentages of the totals are 0; when no hours were
    logged, the billable ratio is 0.  So a range without working days, or
    a call without entries and without a user id, reports zeros. *)
Theorem calculate_guards_division params entries :
  let r := Utilization.calculate params entries in
  let capacity :=
    (inject_Z (Utilization.working_days (Utilization.totals r))
     * match Utilization.capacity_hours_per_day params with
       | Some c => c
       | None => 8
       end
     * inject_Z (Utilization.users_included r))%Q in
  ((capacity <= 0)%Q ->
   (Utilization.utilization_percent (Utilization.totals r) == 0)%Q /\
   (Utilization.billable_utilization_percent (Utilization.totals r) == 0)%Q) /\
  ((total Harvest.hours entries <= 0)%Q ->
   (Utilization.billable_ratio_percent (Utilization.totals r) == 0)%Q) /\
  (entries = [] -> Utilization.user_id params = None ->
   Utilization.users_included r = 0 /\
   (Utilization.capacity_hours (Utilization.totals r) == 0)%Q /\
   (Utilization.total_hours (Utilization.totals r) == 0)%Q /\
   (Utilization.utilization_percent (Utilization.totals r) == 0)%Q).
Proof.
  intros r capacity.
  assert (Hguard : (capacity <= 0)%Q ->
            (Utilization.utilization_percent (Utilization.totals r) == 0)%Q /\
            (Utilization.billable_utilization_percent (Utilization.totals r) == 0)%Q).
  { intros Hcap. unfold r, Utilization.calculate, Utilization.calculateMetrics.
    cbn [Utilization.totals Utilization.utilization_percent
         Utilization.billable_utilization_percent].
    unfold capacity, r, Utilization.calculate, Utilization.calculateMetrics in Hcap.
    cbn [Utilization.totals Utilization.working_days Utilization.users_included] in Hcap.
    rewrite (not_positive _ Hcap). split; reflexivity. }
  split; [exact Hguard|]. split.
  - intros Hhours. unfold r, Utilization.calculate, Utilization.calculateMetrics.
    cbn [Utilization.totals Utilization.billable_ratio_percent].
    rewrite (not_positive (Utilization.sum_total (Utilization.sums entries))).
    + reflexivity.
    + now rewrite UtilizationProofs.sums_total.
  - intros -> Huser.
    assert (Husers : Utilization.users_included r = 0).
    { unfold r, Utilization.calculate. cbn [Utilization.users_included].
      unfold Utilization.activeUsersCount. rewrite Huser. reflexivity. }
    assert (Hcap : (capacity == 0)%Q).
    { unfold capacity. rewrite Husers. change (inject_Z 0) with 0%Q. ring. }
    split; [exact Husers|]. split; [|split].
    + unfold r, Utilization.calculate, Utilization.calculateMetrics.
      cbn [Utilization.totals Utilization.capacity_hours].
      apply round_zero.
      unfold capacity, r, Utilization.calculate, Utilization.calculateMetrics in Hcap.
      cbn [Utilization.totals Utilization.working_days Utilization.users_included]
        in Hcap.
      exact Hcap.
    + reflexivity.
    + apply Hguard. rewrite Hcap. discriminate.
Qed.

Lemma calculate_guards_division_witness :
  Utilization.working_days
    (Utilization.totals
       (Utilization.calculate Samples.weekendParams
          [Utilization.sixHours 1 "2024-01-06" true]))
  = 0 /\
  (Utilization.total_hours
     (Utilization.totals
        (Utilization.calculate Samples.weekendParams
           [Utilization.sixHours 1 "2024-01-06" true]))
   == 6)%Q /\
  (Utilization.utilization_percent
     (Utilization.totals
        (Utilization.calculate Samples.weekendParams
           [Utilization.sixHours 1 "2024-01-06" true]))
   == 0)%Q.
Proof.
  split; [reflexivity|]. split; [reflexivity|].
  refine (proj1 (proj1 (calculate_guards_division Samples.weekendParams
                          [Utilization.sixHours 1 "2024-01-06" true]) _)).
  vm_compute. discriminate.
Defined.

End AnalyticsGuards.

(* ================================================================== *)
(** * Calendar: working days and week starts *)
(* ================================================================== *)

Module CalendarLaws.
Import Utilization.

Lemma getDay_shift day k :
  Dates.getDay (day + k) = ((day + 4) mod 7 + k) mod 7.
Proof.
  unfold Dates.getDay. rewrite Z.add_mod_idemp_l by lia. f_equal. lia.
Qed.

Lemma countDays_app excludeWeekends : forall m n current,
  countDays (m + n) current excludeWeekends
  = countDays m current excludeWeekends
    + countDays n (current + Z.of_nat m) excludeWeekends.
Proof.
  induction m as [|m IH]; intros n current.
  - cbn [Nat.add countDays]. rewrite Z.add_0_r. lia.
  - cbn [Nat.add countDays]. rewrite IH.
    replace (current + 1 + Z.of_nat m) with (current + Z.of_nat (S m)) by lia. lia.
Qed.

Lemma countDays_range excludeWeekends : forall left current,
  0 <= countDays left current excludeWeekends <= Z.of_nat left.
Proof.
  induction left as [|left IH]; intros current; cbn [countDays]; [lia|].
  specialize (IH (current + 1)).
  destruct (excludeWeekends && isWeekend current); lia.
Qed.

Lemma countDays_all : forall left current,
  countDays left current false = Z.of_nat left.
Proof.
  induction left as [|left IH]; intros current; cbn [countDays andb]; [lia|].
  rewrite IH. lia.
Qed.

(** Seven days in a row hold five working days, wherever they start. *)
Lemma countDays_week current : countDays 7 current true = 5.
Proof.
  rewrite UtilizationProofs.countDays_spec.
  cbn [seq map filter andb Z.of_nat Pos.of_succ_nat Pos.succ].
  unfold isWeekend. rewrite !getDay_shift.
  pose proof (Z.mod_pos_bound (current + 4) 7 ltac:(lia)) as Hr.
  set (r := (current + 4) mod 7) in *.
  assert (Hcases : r = 0 \/ r = 1 \/ r = 2 \/ r = 3 \/ r = 4 \/ r = 5 \/ r = 6) by lia.
  clearbody r.
  destruct Hcases as [->|[->|[->|[->|[->|[->| ->]]]]]]; reflexivity.
Qed.

Lemma countDays_weeks : forall weeks current,
  countDays (7 * weeks) current true = 5 * Z.of_nat weeks.
Proof.
  induction weeks as [|weeks IH]; intros current; [reflexivity|].
  replace (7 * S weeks)%nat with (7 + 7 * weeks)%nat by lia.
  rewrite countDays_app, countDays_week, IH. lia.
Qed.





End CalendarLaws.

(* ================================================================== *)
(** * Profitability: the three modes side by side *)
(* ================================================================== *)

Module ProfitabilityLaws.
Import Grouping Profitability NumberFacts ProfitabilityProofs.

Lemma total_filter {A} (f : A -> Q) (p : A -> bool) l :
  (total f (filter p l) == total (fun x => if p x then f x else 0) l)%Q.
Proof.
  induction l as [|x l IH]; [reflexivity|].
  cbn [filter]. rewrite (total_cons (fun x => if p x then f x else 0%Q)).
  destruct (p x).
  - rewrite total_cons, IH. reflexivity.
  - rewrite IH. ring.
Qed.

Lemma total_zero_terms {A} (f : A -> Q) l :
  (forall x, In x l -> (f x == 0)%Q) -> (total f l == 0)%Q.
Proof. exact (AnalyticsGuards.total_zero f l). Qed.

(** What the three loops over the entries have in common. *)
Lemma accumulate_shared amountOf rateMap includeNonBillable entries :
  let s := fold_left (accumulate amountOf rateMap includeNonBillable) entries noSums in
  (sum_hours s == spec_hours entries)%Q /\
  (sum_billableHours s == spec_billable_hours entries)%Q /\
  (sum_nonBillableHours s == spec_non_billable_hours entries)%Q /\
  (sum_cost s == spec_cost rateMap includeNonBillable entries)%Q /\
  (sum_amount s ==
   total (fun e => match amountOf e with
                   | Some a => if Harvest.billable e then a else 0
                   | None => 0
                   end) entries)%Q.
Proof.
  destruct (accumulate_sums amountOf rateMap includeNonBillable entries noSums)
    as (Hh & Hb & Hn & Ha & Hc).
  cbn zeta in *. cbn [noSums sum_hours sum_billableHours sum_nonBillableHours
                      sum_amount sum_cost] in *.
  unfold spec_hours, spec_billable_hours, spec_non_billable_hours, spec_cost.
  rewrite Hh, Hb, Hn, Ha, Hc.
  repeat match goal with |- _ /\ _ => split end; ring.
Qed.

(** The metrics of a mode, from the revenue the mode uses. *)
Lemma calculateByMode_metrics mode entries invoices rateMap includeNonBillable warnings :
  exists revenue,
    fst (calculateByMode mode entries invoices rateMap includeNonBillable warnings)
    = buildMetrics (spec_hours entries) (spec_billable_hours entries)
        (spec_non_billable_hours entries) revenue
        (spec_cost rateMap includeNonBillable entries).
Proof.
  destruct mode; cbn [calculateByMode].
  - unfold calculateTimeBased, timeBasedSums. cbn [fst].
    destruct (accumulate_shared rateTimesHours rateMap includeNonBillable entries)
      as (Hh & Hb & Hn & Hc & _).
    eexists. apply buildMetrics_comp; try eassumption. reflexivity.
  - unfold calculateInvoiceBased. cbn [fst].
    destruct (accumulate_shared (fun _ => None) rateMap includeNonBillable entries)
      as (Hh & Hb & Hn & Hc & _).
    eexists. apply buildMetrics_comp; try eassumption. reflexivity.
  - unfold calculateHybrid. cbn [fst].
    destruct (accumulate_shared unbilledRateTimesHours rateMap includeNonBillable
                entries) as (Hh & Hb & Hn & Hc & _).
    eexists. apply buildMetrics_comp; try eassumption. reflexivity.
Qed.




End ProfitabilityLaws.

(* ================================================================== *)
(** * Profitability: the missing-rate warnings *)
(* ================================================================== *)

Module WarningLaws.
Import Grouping Profitability.

Lemma includes_prefix pat s : String.prefix pat s = true -> Cache.includes pat s = true.
Proof. intros H. destruct s; cbn [Cache.includes]; rewrite H; reflexivity. Qed.

Lemma includes_later pat : forall pre s,
  Cache.includes pat s = true -> Cache.includes pat (pre ++ s) = true.
Proof.
  induction pre as [|c pre IH]; intros s Hs; [exact Hs|].
  cbn [append Cache.includes]. rewrite (IH s Hs). apply orb_true_r.
Qed.

(** The warning for an entry, and the text whose presence in an earlier
    warning suppresses it. *)
Local Abbreviation warningFor entry :=
  ("No cost rate found for user " ++ Harvest.name (Harvest.user entry)
     ++ " (ID: " ++ Gateway.showZ (Harvest.id (Harvest.user entry)) ++ ")")%string.

Local Abbreviation marker entry := ("user " ++ Harvest.name (Harvest.user entry))%string.

Lemma warning_includes_marker entry :
  Cache.includes (marker entry) (warningFor entry) = true.
Proof.
  change (warningFor entry)
    with ("No cost rate found for "
            ++ (marker entry
                  ++ (" (ID: " ++ Gateway.showZ (Harvest.id (Harvest.user entry)) ++ ")")))%string.
  apply includes_later. apply includes_prefix. apply GatewayProofs.prefix_append.
Qed.

(** The entries that lack a cost rate and count towards the cost. *)
Local Abbreviation lacksRate rateMap includeNonBillable entry :=
  ((Harvest.billable entry || includeNonBillable = true) /\
   Qeq (costRateOf rateMap entry) 0%Q /\
   Qlt 0%Q (Harvest.hours entry)).

Lemma warnMissingRate_step rateMap includeNonBillable warnings entry :
  warnMissingRate rateMap includeNonBillable warnings entry = warnings \/
  (warnMissingRate rateMap includeNonBillable warnings entry
   = warnings ++ [warningFor entry] /\
   ~ In (warningFor entry) warnings /\
   lacksRate rateMap includeNonBillable entry).
Proof.
  unfold warnMissingRate.
  destruct (Harvest.billable entry || includeNonBillable) eqn:Hcounts; [|now left].
  destruct (Qeq_bool (costRateOf rateMap entry) 0) eqn:Hrate; [|now left].
  destruct (positive (Harvest.hours entry)) eqn:Hhours; [|now left].
  destruct (existsb (Cache.includes (marker entry)) warnings) eqn:Hseen; [now left|].
  right. cbn [andb negb]. split; [reflexivity|]. split.
  - intros Hin.
    assert (existsb (Cache.includes (marker entry)) warnings = true); [|congruence].
    apply existsb_exists. exists (warningFor entry).
    split; [exact Hin | apply warning_includes_marker].
  - split; [reflexivity|]. split.
    + now apply Qeq_bool_iff.
    + now apply NumberFacts.positive_spec.
Qed.

Lemma warnings_fold rateMap includeNonBillable : forall entries warnings added,
  NoDup added ->
  (forall w, In w added -> ~ In w warnings) ->
  exists added',
    fold_left (warnMissingRate rateMap includeNonBillable) entries (warnings ++ added)
    = warnings ++ added ++ added' /\
    NoDup (added ++ added') /\
    (forall w, In w added' -> ~ In w warnings) /\
    forall w, In w added' ->
      exists entry, In entry entries /\ w = warningFor entry /\
                    lacksRate rateMap includeNonBillable entry.
Proof.
  induction entries as [|entry entries IH]; intros warnings added Hnodup Hnew;
    cbn [fold_left].
  - exists []. rewrite !app_nil_r. repeat split; try assumption; intros w [].
  - destruct (warnMissingRate_step rateMap includeNonBillable (warnings ++ added) entry)
      as [-> | (-> & Hfresh & Hlacks)].
    + destruct (IH warnings added Hnodup Hnew) as (added' & Hrun & Hnd & Hout & Hwhy).
      exists added'. repeat split; try assumption.
      intros w Hw. destruct (Hwhy w Hw) as (e & He & Hrest). exists e. split; [now right | exact Hrest].
    + rewrite <- app_assoc.
      destruct (IH warnings (added ++ [warningFor entry])) as (added' & Hrun & Hnd & Hout & Hwhy).
      * apply NoDup_app; [exact Hnodup | repeat constructor; intros [] |].
        intros w Hw [<-|[]]. apply Hfresh. apply in_or_app. now right.
      * intros w Hw. apply in_app_or in Hw. destruct Hw as [Hw|[<-|[]]].
        -- now apply Hnew.
        -- intros Hin. apply Hfresh. apply in_or_app. now left.
      * exists (warningFor entry :: added').
        rewrite <- app_assoc in Hrun, Hnd. cbn [app] in Hrun, Hnd.
        split; [exact Hrun|]. split; [exact Hnd|]. split.
        -- intros w [<-|Hw]; [|now apply Hout].
           intros Hin. apply Hfresh. apply in_or_app. now left.
        -- intros w [<-|Hw].
           ++ exists entry. split; [now left|]. split; [reflexivity | exact Hlacks].
           ++ destruct (Hwhy w Hw) as (e & He & Hrest).
              exists e. split; [now right | exact Hrest].
Qed.

(** X25.  Missing cost rates are reported once.  The time-based
    calculation keeps the warnings it is given and adds warnings after
    them.  The added warnings are pairwise different and none of them
    was there before; each names the user of an entry that counts towards
    the cost, has hours above 0 and a cost rate of 0 (on the entry and in
    the rate table). *)
Theorem calculateTimeBased_warns_once entries rateMap includeNonBillable warnings :
  exists added,
    snd (calculateTimeBased entries rateMap includeNonBillable warnings)
    = warnings ++ added /\
    NoDup added /\
    (forall w, In w added -> ~ In w warnings) /\
    forall w, In w added ->
      exists entry, In entry entries /\ w = warningFor entry /\
                    lacksRate rateMap includeNonBillable entry.
Proof.
  unfold calculateTimeBased. cbn [snd].
  destruct (warnings_fold rateMap includeNonBillable entries warnings [])
    as (added & Hrun & Hnd & Hout & Hwhy); [constructor | intros w [] |].
  rewrite app_nil_r in Hrun. cbn [app] in Hrun, Hnd.
  exists added. repeat split; assumption.
Qed.

End WarningLaws.

(* ================================================================== *)
(** * Budget performance: ratings, counts and shortlists *)
(* ================================================================== *)

Module BudgetLaws.
Import Grouping Budget NumberFacts.

Lemma gt_spec x y : gt x y = true <-> (y < x)%Q.
Proof.
  unfold gt. rewrite negb_true_iff. split.
  - intros H. apply Qnot_le_lt. intros Hle. apply Qle_bool_iff in Hle. congruence.
  - intros H. destruct (Qle_bool x y) eqn:Hle; [|reflexivity].
    apply Qle_bool_iff in Hle. exfalso. exact (Qlt_not_le _ _ H Hle).
Qed.

Lemma percent_sign (variance budget : Q) :
  (0 < budget)%Q ->
  ((0 < variance / budget * inject_Z 100)%Q -> (0 < variance)%Q) /\
  ((variance / budget * inject_Z 100 < 0)%Q -> (variance < 0)%Q).
Proof.
  intros Hbudget.
  assert (Hback : (variance == variance / budget * inject_Z 100 * (budget * (1 # 100)))%Q).
  { change (inject_Z 100) with (100 # 1)%Q. field. intros H. rewrite H in Hbudget.
    discriminate. }
  assert (Hscale : (0 < budget * (1 # 100))%Q).
  { apply Qmult_lt_0_compat; [exact Hbudget | reflexivity]. }
  split; intros Hsign; rewrite Hback.
  - apply Qmult_lt_0_compat; assumption.
  - setoid_replace 0%Q with (0 * (budget * (1 # 100)))%Q by ring.
    apply Qmult_lt_compat_r; assumption.
Qed.

(** X26.  Ratings follow the sign of the variance.  With a tolerance
    that is not negative, a user's project is rated over budget only when
    it has a budget above 0 and more hours than the budget, and under
    budget only when it has a budget above 0 and fewer hours.  A project
    without a budget, or with a budget of 0 or less, has no variance
    percentage and is rated on budget, whatever hours were logged. *)
Theorem getRating_follows_the_variance tolerance data :
  (0 <= tolerance)%Q ->
  let m := projectMetricsOf tolerance data in
  (rating m = over_budget ->
   exists budget,
     budgetHours data = Some budget /\ (0 < budget)%Q /\ (budget < actualHours data)%Q) /\
  (rating m = under_budget ->
   exists budget,
     budgetHours data = Some budget /\ (0 < budget)%Q /\ (actualHours data < budget)%Q) /\
  ((budgetHours data = None \/
    exists budget, budgetHours data = Some budget /\ (budget <= 0)%Q) ->
   rating m = on_budget /\ variance_percent m = None).
Proof.
  intros Htol m. unfold m, projectMetricsOf. cbn [rating variance_percent].
  unfold variancePercentOf, varianceHoursOf.
  destruct (budgetHours data) as [budget|].
  - destruct (positive budget) eqn:Hpos.
    + apply positive_spec in Hpos.
      destruct (percent_sign (actualHours data - budget) budget Hpos) as [Hup Hdown].
      cbn [getRating].
      destruct (gt ((actualHours data - budget) / budget * inject_Z 100) tolerance)
        eqn:Hover.
      * apply gt_spec in Hover. split; [|split].
        -- intros _. exists budget. split; [reflexivity|]. split; [exact Hpos|].
           assert (0 < actualHours data - budget)%Q
             by (apply Hup; eapply Qle_lt_trans; eassumption).
           lra.
        -- discriminate.
        -- intros [H|(b & H & Hb)]; [discriminate|]. injection H as <-. lra.
      * destruct (gt (- tolerance) ((actualHours data - budget) / budget * inject_Z 100))
          eqn:Hunder.
        -- apply gt_spec in Hunder. split; [discriminate|]. split.
           ++ intros _. exists budget. split; [reflexivity|]. split; [exact Hpos|].
              assert (actualHours data - budget < 0)%Q
                by (apply Hdown; eapply Qlt_le_trans; [exact Hunder | lra]).
              lra.
           ++ intros [H|(b & H & Hb)]; [discriminate|]. injection H as <-. lra.
        -- split; [discriminate|]. split; [discriminate|].
           intros [H|(b & H & Hb)]; [discriminate|]. injection H as <-. lra.
    + cbn [getRating option_map]. split; [discriminate|]. split; [discriminate|].
      intros _. split; reflexivity.
  - cbn [getRating option_map]. split; [discriminate|]. split; [discriminate|].
    intros _. split; reflexivity.
Qed.

Lemma tally_counts tolerance : forall data t,
  let t' := fold_left (tallyProject tolerance) data t in
  projectsOverBudget t' + projectsUnderBudget t' + projectsOnBudget t'
  + projectsWithoutBudget t' - Z.of_nat (List.length (projectMetrics t'))
  = projectsOverBudget t + projectsUnderBudget t + projectsOnBudget t
    + projectsWithoutBudget t - Z.of_nat (List.length (projectMetrics t)) /\
  List.length (projectMetrics t')
  = (List.length (projectMetrics t) + List.length data)%nat.
Proof.
  intros data. induction data as [|d data IH]; intros t; cbn [fold_left].
  - cbn. split; lia.
  - specialize (IH (tallyProject tolerance t d)). cbv zeta in IH.
    destruct IH as [Hcount Hlen]. cbv zeta. rewrite Hcount, Hlen.
    unfold tallyProject.
    cbn [projectsOverBudget projectsUnderBudget projectsOnBudget projectsWithoutBudget
         projectMetrics].
    rewrite length_app. cbn [List.length].
    destruct (budgetHours d); cbn [andb];
      destruct (getRating (variancePercentOf d) tolerance); cbn; split; lia.
Qed.

Lemma userResultOf_counts tolerance u :
  let r := userResultOf tolerance u in
  projects_over_budget (metrics r) + projects_under_budget (metrics r)
  + projects_on_budget (metrics r) + projects_without_budget (metrics r)
  = Z.of_nat (List.length (projects r)) /\
  List.length (projects r) = List.length (snd (snd u)) /\
  StronglySorted (fun a b => (variance_hours b <= variance_hours a)%Q) (projects r).
Proof.
  cbv zeta. unfold userResultOf.
  cbn [metrics projects projects_over_budget projects_under_budget projects_on_budget
       projects_without_budget].
  destruct (tally_counts tolerance (snd (snd u)) noTally) as [Hcount Hlen].
  cbv zeta in Hcount, Hlen. cbn [noTally projectsOverBudget projectsUnderBudget
    projectsOnBudget projectsWithoutBudget projectMetrics List.length] in Hcount, Hlen.
  assert (Hsame : List.length
                    (JsArray.sortBy (descending variance_hours)
                       (projectMetrics
                          (fold_left (tallyProject tolerance) (snd (snd u)) noTally)))
                  = List.length
                      (projectMetrics
                         (fold_left (tallyProject tolerance) (snd (snd u)) noTally))).
  { symmetry. apply Permutation_length. apply GroupingProofs.sortBy_perm. }
  split; [|split].
  - rewrite Hsame. lia.
  - rewrite Hsame, Hlen. reflexivity.
  - apply SortFacts.sortBy_descending_sorted.
Qed.

Lemma firstn_length_le {A} n (l : list A) : (List.length (firstn n l) <= n)%nat.
Proof. rewrite length_firstn. lia. Qed.

Lemma firstn_In {A} n (l : list A) x : In x (firstn n l) -> In x l.
Proof.
  intros Hin. rewrite <- (firstn_skipn n l). apply in_or_app. now left.
Qed.

Lemma rating_counts (users : list UserResult) :
  countRating over_budget users + countRating under_budget users
  + Z.of_nat (List.length
                (filter (fun u =>
                           negb (PerformanceRating_eqb (overall_rating (metrics u))
                                   over_budget)
                           && negb (PerformanceRating_eqb (overall_rating (metrics u))
                                      under_budget))
                        users))
  = Z.of_nat (List.length users).
Proof.
  unfold countRating. induction users as [|u users IH]; [reflexivity|].
  cbn [filter List.length].
  destruct (overall_rating (metrics u)); cbn [PerformanceRating_eqb negb andb List.length];
    lia.
Qed.

Section Calculate.

Variable localeCompare : string -> string -> Z.

Lemma sortUsers_perm sortBy sortOrder users :
  Permutation users (sortUsers localeCompare sortBy sortOrder users).
Proof. unfold sortUsers. apply GroupingProofs.sortBy_perm. Qed.

(** X27.  The counts of a budget report add up.  For every user of the
    report, the four project counts (over, under and on budget, and
    without budget) add up to the number of the user's projects, and the
    projects stand in descending order of their variance in hours, the
    worst first.  In the totals, [total_users] is the number of users
    listed, and the three user counts add up to it. *)
Theorem calculate_counts_add_up params entries fetchedProjects :
  let r := calculate localeCompare params entries fetchedProjects in
  Forall (fun u =>
            projects_over_budget (metrics u) + projects_under_budget (metrics u)
            + projects_on_budget (metrics u) + projects_without_budget (metrics u)
            = Z.of_nat (List.length (projects u)) /\
            StronglySorted (fun a b => (variance_hours b <= variance_hours a)%Q)
              (projects u))
         (users r) /\
  total_users (totals r) = Z.of_nat (List.length (users r)) /\
  users_over_budget (totals r) + users_under_budget (totals r)
  + users_on_budget (totals r) = total_users (totals r).
Proof.
  intros r. unfold r, calculate.
  destruct entries as [|entry entries']; [cbn; repeat split; constructor|].
  destruct (collect _ fetchedProjects (entry :: entries')) as [|kv collected];
    [cbn; repeat split; constructor|].
  cbn [users totals]. split; [|split].
  - eapply Permutation_Forall; [apply sortUsers_perm|].
    apply Forall_forall. intros u Hu. apply in_map_iff in Hu.
    destruct Hu as (raw & <- & _).
    destruct (userResultOf_counts
                match on_budget_tolerance_percent params with
                | Some t => t
                | None => 5%Q
                end raw) as (Hcount & _ & Hsorted).
    split; assumption.
  - reflexivity.
  - unfold calculateTotals. cbn [users_over_budget users_under_budget users_on_budget
                                 total_users].
    apply rating_counts.
Qed.

(** X28.  The shortlists of a budget report.  [top_performers] and
    [over_budget_repeat_offenders] hold at most five entries each.  Every
    top performer is a user of the report whose overall rating is under
    budget, with that user's total variance percentage; every repeat
    offender is a user of the report with at least two projects over
    budget, with that user's count and variance. *)
Theorem calculate_shortlists params entries fetchedProjects :
  let r := calculate localeCompare params entries fetchedProjects in
  (List.length (top_performers r) <= 5)%nat /\
  (List.length (over_budget_repeat_offenders r) <= 5)%nat /\
  (forall t, In t (top_performers r) ->
     exists u,
       In u (users r) /\ user_id u = top_user_id t /\ user_name u = top_user_name t /\
       overall_rating (metrics u) = under_budget /\
       total_variance_percent (metrics u) = Some (top_variance_percent t)) /\
  (forall o, In o (over_budget_repeat_offenders r) ->
     exists u,
       In u (users r) /\ user_id u = offender_user_id o /\
       user_name u = offender_user_name o /\
       projects_over_budget (metrics u) = projects_over o /\
       total_variance_hours (metrics u) = offender_variance_hours o /\
       2 <= projects_over o).
Proof.
  intros r.
  assert (Htop : forall users,
            (List.length (getTopPerformers users) <= 5)%nat /\
            forall t, In t (getTopPerformers users) ->
              exists u,
                In u users /\ user_id u = top_user_id t /\
                user_name u = top_user_name t /\
                overall_rating (metrics u) = under_budget /\
                total_variance_percent (metrics u) = Some (top_variance_percent t)).
  { intros users. unfold getTopPerformers. split.
    - rewrite length_map. apply firstn_length_le.
    - intros t Ht. apply in_map_iff in Ht. destruct Ht as (u & <- & Hu).
      apply firstn_In in Hu.
      eapply Permutation_in in Hu;
        [|apply Permutation_sym, GroupingProofs.sortBy_perm].
      apply filter_In in Hu. destruct Hu as [Hu Hfilter].
      apply andb_true_iff in Hfilter. destruct Hfilter as [Hrating Hpercent].
      exists u. cbn [top_user_id top_user_name top_variance_percent].
      repeat split; try assumption.
      + destruct (overall_rating (metrics u)); try discriminate. reflexivity.
      + destruct (total_variance_percent (metrics u)); [reflexivity | discriminate]. }
  assert (Hoff : forall users,
            (List.length (getRepeatOffenders users) <= 5)%nat /\
            forall o, In o (getRepeatOffenders users) ->
              exists u,
                In u users /\ user_id u = offender_user_id o /\
                user_name u = offender_user_name o /\
                projects_over_budget (metrics u) = projects_over o /\
                total_variance_hours (metrics u) = offender_variance_hours o /\
                2 <= projects_over o).
  { intros users. unfold getRepeatOffenders. split.
    - rewrite length_map. apply firstn_length_le.
    - intros o Ho. apply in_map_iff in Ho. destruct Ho as (u & <- & Hu).
      apply firstn_In in Hu.
      eapply Permutation_in in Hu;
        [|apply Permutation_sym, GroupingProofs.sortBy_perm].
      apply filter_In in Hu. destruct Hu as [Hu Hfilter]. apply Z.leb_le in Hfilter.
      exists u. cbn [offender_user_id offender_user_name projects_over
                     offender_variance_hours].
      repeat split; assumption. }
  unfold r, calculate.
  destruct entries as [|entry entries'].
  { cbn. repeat split; try lia; intros ? []. }
  destruct (collect _ fetchedProjects (entry :: entries')) as [|kv collected].
  { cbn. repeat split; try lia; intros ? []. }
  cbn [top_performers over_budget_repeat_offenders users].
  split; [apply Htop|]. split; [apply Hoff|]. split; [apply Htop | apply Hoff].
Qed.

End Calculate.

Lemma getRating_follows_the_variance_witness :
  rating (projectMetricsOf 5
            {| userId := 7; userName := "Ada Lovelace"; projectId := 11;
               projectName := "Website"; clientId := 1; clientName := "Acme";
               budgetHours := Some 40%Q; actualHours := 50; entryCount := 9 |})
  = over_budget /\
  exists budget,
    Some 40%Q = Some budget /\ (0 < budget)%Q /\ (budget < 50)%Q.
Proof.
  split; [reflexivity|].
  apply (getRating_follows_the_variance 5
           {| userId := 7; userName := "Ada Lovelace"; projectId := 11;
              projectName := "Website"; clientId := 1; clientName := "Acme";
              budgetHours := Some 40%Q; actualHours := 50; entryCount := 9 |}).
  - discriminate.
  - reflexivity.
Defined.

End BudgetLaws.

(* ================================================================== *)
(** * Rate resolution: the fallback chain *)
(* ================================================================== *)

Module RatesLaws.
Import Rates.

(** The cost rate override of a user in a configuration. *)
Local Abbreviation overrideOf c user :=
  (match property (user_overrides c) (Gateway.showZ (id user)) with
   | Some o => o_cost_rate o
   | None => None
   end).

Lemma loadConfig_loaded file s :
  exists c, config (snd (loadConfig file s)) = Some c.
Proof.
  unfold loadConfig. destruct (config s) as [c|] eqn:Hc.
  - exists c. exact Hc.
  - destruct file; cbn; eauto.
Qed.

Lemma mapUserToRate_settings user s :
  config (snd (mapUserToRate user s)) = config s /\
  configPath (snd (mapUserToRate user s)) = configPath s /\
  defaultCostRate (snd (mapUserToRate user s)) = defaultCostRate s.
Proof. unfold mapUserToRate. cbn. repeat split. Qed.

Lemma mapUserToRate_reads_settings user s s' :
  config s' = config s -> configPath s' = configPath s ->
  defaultCostRate s' = defaultCostRate s ->
  fst (mapUserToRate user s') = fst (mapUserToRate user s).
Proof.
  intros Hc Hp Hd. unfold mapUserToRate, resolveRate. cbn [fst].
  rewrite Hc, Hp, Hd. reflexivity.
Qed.

Lemma getUserRates_fold : forall fetched acc s0 s,
  config s = config s0 -> configPath s = configPath s0 ->
  defaultCostRate s = defaultCostRate s0 ->
  fst (fold_left (fun acc user =>
                    let (r, s') := mapUserToRate user (snd acc) in (fst acc ++ [r], s'))
         fetched (acc, s))
  = acc ++ map (fun user => fst (mapUserToRate user s0)) fetched.
Proof.
  induction fetched as [|user fetched IH]; intros acc s0 s Hc Hp Hd; cbn [fold_left map].
  - cbn. now rewrite app_nil_r.
  - cbn [fst snd].
    destruct (mapUserToRate_settings user s) as (Hc' & Hp' & Hd').
    pose proof (mapUserToRate_reads_settings user s0 s Hc Hp Hd) as Hsame.
    destruct (mapUserToRate user s) as [r s'] eqn:Hmap. cbn [fst snd] in *.
    rewrite (IH (acc ++ [r]) s0 s') by congruence.
    rewrite <- app_assoc. cbn [app]. now rewrite Hsame.
Qed.

(** X29.  Every user gets a cost rate, and never the one of the
    environment.  [getUserRates] answers one record per fetched user, in
    order.  The configuration is loaded by then, so the cost rate is
    always resolved: it is the rate Harvest reports for the user, else
    the override of the configuration file for the user's id, else the
    default cost rate of the configuration (0 when there is no file).
    The number read from DEFAULT_COST_RATE is never used as a rate: it
    only decides, for a rate taken from the default, whether the source
    is reported as [env_default] (when it is above 0) or as
    [fallback_zero]. *)
Theorem getUserRates_resolves_every_user file fetched s :
  exists c,
    config (snd (loadConfig file s)) = Some c /\
    Forall2
      (fun user r =>
         user_id r = id user /\
         exists info,
           user_cost_rate r = Some info /\
           rate info =
             match cost_rate user with
             | Some v => v
             | None =>
                 match overrideOf c user with
                 | Some v => v
                 | None => defaults_cost_rate c
                 end
             end /\
           source info =
             match cost_rate user with
             | Some _ => harvest_api
             | None =>
                 match overrideOf c user with
                 | Some _ => config_file
                 | None =>
                     if Grouping.positive (defaultCostRate s)
                     then env_default else fallback_zero
                 end
             end)
      fetched (fst (getUserRates file fetched s)).
Proof.
  destruct (loadConfig_loaded file s) as [c Hc]. exists c. split; [exact Hc|].
  unfold getUserRates.
  rewrite (getUserRates_fold fetched [] (snd (loadConfig file s))
             (snd (loadConfig file s)) eq_refl eq_refl eq_refl).
  cbn [app].
  assert (Hdefault : defaultCostRate (snd (loadConfig file s)) = defaultCostRate s).
  { unfold loadConfig. destruct (config s); [reflexivity|]. destruct file; reflexivity. }
  induction fetched as [|user fetched IH]; cbn [map]; constructor; [|exact IH].
  unfold mapUserToRate, resolveRate. cbn [fst user_id user_cost_rate].
  rewrite Hc, Hdefault. split; [reflexivity|].
  destruct (cost_rate user) as [v|]; [eexists; repeat split|].
  destruct (property (user_overrides c) (Gateway.showZ (id user))) as [o|].
  - destruct (o_cost_rate o) as [v|]; eexists; repeat split.
  - eexists. repeat split.
Qed.

(** X30.  The configuration file is read at most once.  After a call
    of [loadConfig], whatever it found, a configuration is in place, and
    every later call answers [true] and changes nothing, whatever the
    file holds by then - also when the first call found no file or could
    not read it and answered [false]. *)
Theorem loadConfig_reads_once file file' s :
  config (snd (loadConfig file s)) <> None /\
  loadConfig file' (snd (loadConfig file s)) = (true, snd (loadConfig file s)) /\
  (fst (loadConfig file s) = false <->
   config s = None /\ (file = Missing \/ exists error, file = Unreadable error)).
Proof.
  destruct (loadConfig_loaded file s) as [c Hc].
  split; [congruence|]. split.
  - unfold loadConfig at 1. rewrite Hc. reflexivity.
  - unfold loadConfig. destruct (config s) as [c0|].
    + cbn. split; [discriminate | intros [H _]; discriminate].
    + destruct file; cbn; split; try discriminate; auto.
      * intros _. split; [reflexivity|]. right. eauto.
      * intros [_ [H|(error & H)]]; discriminate.
Qed.

End RatesLaws.
